(** * AdvancedSampler: a shallow embedding of the synthesis engine

    The engine of [advanced_sampler.h] (LFO, ModulationMatrix, FilterEngine,
    SampleEngine, AdvancedSamplerVoice) is translated function by function.

    Conventions of the embedding.
    - C++ [int] is [Z]; the one narrowing cast of the source
      ([(int) reader->lengthInSamples], from a 64-bit length) is written out
      as [to_int32].
    - C++ [double] is idealised as an exact rational [Q], and so is
      [float] in a formula whose value is only passed on: every operation
      is the corresponding exact operation, comparisons are the boolean
      comparisons below, and the cast [(int) x] is truncation toward
      zero.  Where the rounding of a [float] result decides what the code
      does next (the product truncated to a loop bound, the centring of
      the LFO phase, the value a controller or the mouse stores), the
      rounding to the 32-bit format is written out as [fl32].  NaN,
      infinities and overflow are outside the model; the one division by
      a variable that can be zero in range, by the width of the waveform
      display, is modelled by its cases.
    - The members of a class are the fields of a record; a method that
      mutates its object takes the record and returns the new one.  A
      member that is a reference or pointer to an object the processor owns
      (the parameter tree, the modulation matrix, the sample engine) is not
      copied into the record: the caller passes the object's current
      state.
    - What the source takes from libm and from JUCE ([std::sin], [std::pow],
      [juce::Random], [juce::ADSR], the state-variable filter) is an
      interface (a type class); the engine is written against the interface
      and reference instances are given separately for concrete runs. *)

From Stdlib Require Import ZArith QArith Qround Qabs Qpower Lqa Lia List String.
From stdpp Require Import gmap strings list pretty.

Local Open Scope Q_scope.

(** * Numeric layer *)

(** [x < y], [x >= y] and [x <= y] on floating-point operands. *)
Definition Qltb (x y : Q) : bool := negb (Qle_bool y x).
Definition Qgeb (x y : Q) : bool := Qle_bool y x.
Definition Qleb (x y : Q) : bool := Qle_bool x y.

(** [(int) x]: conversion of a floating-point value to [int] truncates
    toward zero. *)
Definition to_int (x : Q) : Z :=
  if Qle_bool 0 x then Qfloor x else Qceiling x.

(** Implicit conversion of an [int] operand in floating-point arithmetic. *)
Definition of_int (z : Z) : Q := inject_Z z.

(** [(int) n] for a 64-bit [n]: two's complement wrap-around to 32 bits. *)
Definition to_int32 (z : Z) : Z :=
  ((z + 2147483648) mod 4294967296 - 2147483648)%Z.

(** [std::floor] on a float. *)
Definition floorf (x : Q) : Q := inject_Z (Qfloor x).

(** [juce::jlimit (lowerLimit, upperLimit, valueToConstrain)]:
    [v < lo ? lo : (hi < v ? hi : v)]. *)
Definition jlimit (lo hi v : Q) : Q :=
  if Qltb v lo then lo else if Qltb hi v then hi else v.

(** [juce::jmin (a, b)]: [b < a ? b : a]. *)
Definition jmin (a b : Q) : Q := if Qltb b a then b else a.

Definition jlimit_int (lo hi v : Z) : Z :=
  if (v <? lo)%Z then lo else if (hi <? v)%Z then hi else v.

(** ** Rounding to [float]

    [fl32 x] is the [float] nearest to [x], ties to the even mantissa:
    24 bits of mantissa, the last of them of weight [2^-149] at least
    (gradual underflow).  The exponent has no upper limit: overflow is
    outside the model. *)

(** The nearest integer, ties to even. *)
Definition rne (x : Q) : Z :=
  let f := Qfloor x in
  match Qcompare (x - inject_Z f) (1 # 2) with
  | Lt => f
  | Gt => (f + 1)%Z
  | Eq => if Z.even f then f else (f + 1)%Z
  end.

(** For [0 < x], the exponent [k] with [2^k <= x < 2^(k+1)]. *)
Definition ilog2 (x : Q) : Z :=
  let k := (Z.log2 (Qnum x) - Z.log2 (Zpos (Qden x)))%Z in
  if Qle_bool (2 ^ k) x then k else (k - 1)%Z.

(** The exponent of the last mantissa bit of the [float]s around the
    magnitude [m]. *)
Definition fexp32 (m : Q) : Z := Z.max (ilog2 m - 23) (-149).

(** The [float] magnitude nearest to the magnitude [m]. *)
Definition round32 (m : Q) : Q :=
  inject_Z (rne (m / 2 ^ fexp32 m)) * 2 ^ fexp32 m.

(** Sign and magnitude. *)
Definition fl32 (x : Q) : Q :=
  if Qle_bool 0 x then round32 (Qabs x) else - round32 (Qabs x).

(** * External interfaces *)

(** libm and [juce::MathConstants<float>]. *)
Class Libm := {
  sinf : Q -> Q;
  pow : Q -> Q -> Q;
  pi : Q
}.

(** What the worked examples of the pitch computation need from [std::pow]:
    at an integer exponent it returns the exact power. *)
Class LibmExact `{Libm} : Prop :=
  pow_exact : forall (b x : Q) (n : Z), x == inject_Z n -> pow b x == Qpower b n.

(** [juce::Random]: [nextFloat] returns the drawn value and the advanced
    generator. *)
Class RandomOps := {
  Random : Type;
  nextFloat : Random -> Q * Random
}.

(** * Data model *)

(** [enum class ModulationSource] and [enum class ModulationDestination]. *)
Inductive ModulationSource :=
  | LFO1 | LFO2 | LFO3
  | Envelope | ModWheel | Velocity
  | KeyTrack | PitchBend | Aftertouch.

Inductive ModulationDestination :=
  | Volume | Pan | Pitch | FilterCutoff
  | FilterResonance | SampleStart | LoopStart | LoopEnd.

(** * LFO *)

Module LFO.
Section WithPlatform.
Context `{Libm} `{RandomOps}.

Record t := mk {
  sampleRate : Q;
  frequency : Q;
  waveform : Z;
  phase : Q;
  randomValue : Q;
  random : Random
}.

(** Member initialisers and the constructor: [phase = 0.0f]. *)
Definition init (g : Random) : t :=
  {| sampleRate := 44100; frequency := 1; waveform := 0;
     phase := 0; randomValue := 0; random := g |}.

Definition set_phase (p : Q) (l : t) : t :=
  {| sampleRate := sampleRate l; frequency := frequency l;
     waveform := waveform l; phase := p;
     randomValue := randomValue l; random := random l |}.

Definition prepareToPlay (sr : Q) (l : t) : t :=
  {| sampleRate := sr; frequency := frequency l;
     waveform := waveform l; phase := phase l;
     randomValue := randomValue l; random := random l |}.

Definition setFrequency (freq : Q) (l : t) : t :=
  {| sampleRate := sampleRate l; frequency := freq;
     waveform := waveform l; phase := phase l;
     randomValue := randomValue l; random := random l |}.

Definition setWaveform (wave : Z) (l : t) : t :=
  {| sampleRate := sampleRate l; frequency := frequency l;
     waveform := jlimit_int 0 4 wave; phase := phase l;
     randomValue := randomValue l; random := random l |}.

(** The [case 4] arm: redraw when [phase >= 1.0f]. *)
Definition redraw (l : t) : t :=
  if Qgeb (phase l) 1 then
    let '(r, g) := nextFloat (random l) in
    {| sampleRate := sampleRate l; frequency := frequency l;
       waveform := waveform l; phase := phase l;
       randomValue := r * 2 - 1; random := g |}
  else l.

(** [float getNextSample ()].  In the triangle and the sawtooth the sum
    [phase + 0.5f], the difference of the phase and its floor, and the
    final [- 1.0f] round; the doublings and [std::abs] are exact.  The
    phase is advanced without rounding: the statements on the samples
    are made at every phase from 0 to 1 inclusive, the interval the
    rounded sum and its wrap stay in, so none of them depends on the
    digits of the phase. *)
Definition getNextSample (l : t) : Q * t :=
  let '(output, l) :=
    match waveform l with
    | 0%Z => (sinf (phase l * 2 * pi), l)
    | 1%Z =>
        (fl32 (2 * Qabs (2 * fl32 (phase l - floorf (fl32 (phase l + 0.5)))) - 1),
         l)
    | 2%Z => (if Qltb (phase l) 0.5 then 1 else -1, l)
    | 3%Z => (2 * fl32 (phase l - floorf (fl32 (phase l + 0.5))), l)
    | 4%Z => let l := redraw l in (randomValue l, l)
    | _ => (0, l)
    end in
  let l := set_phase (phase l + frequency l / sampleRate l) l in
  let l := if Qgeb (phase l) 1 then set_phase (phase l - 1) l else l in
  (output, l).

(** [n] successive calls: the samples produced, oldest first, and the
    oscillator afterwards. *)
Fixpoint run (n : nat) (l : t) : list Q * t :=
  match n with
  | O => ([], l)
  | S n =>
      let '(o, l) := getNextSample l in
      let '(os, l) := run n l in
      (o :: os, l)
  end.
End WithPlatform.
End LFO.

(** Keys of the two [std::map]s of the modulation matrix. *)
Global Instance ModulationSource_eq_dec : EqDecision ModulationSource.
Proof. solve_decision. Defined.

Global Instance ModulationDestination_eq_dec : EqDecision ModulationDestination.
Proof. solve_decision. Defined.

Definition source_index (s : ModulationSource) : nat :=
  match s with
  | LFO1 => 0 | LFO2 => 1 | LFO3 => 2
  | Envelope => 3 | ModWheel => 4 | Velocity => 5
  | KeyTrack => 6 | PitchBend => 7 | Aftertouch => 8
  end.

Definition source_of_index (n : nat) : ModulationSource :=
  match n with
  | 0 => LFO1 | 1 => LFO2 | 2 => LFO3
  | 3 => Envelope | 4 => ModWheel | 5 => Velocity
  | 6 => KeyTrack | 7 => PitchBend | _ => Aftertouch
  end%nat.

Definition destination_index (d : ModulationDestination) : nat :=
  match d with
  | Volume => 0 | Pan => 1 | Pitch => 2 | FilterCutoff => 3
  | FilterResonance => 4 | SampleStart => 5 | LoopStart => 6 | LoopEnd => 7
  end.

Definition destination_of_index (n : nat) : ModulationDestination :=
  match n with
  | 0 => Volume | 1 => Pan | 2 => Pitch | 3 => FilterCutoff
  | 4 => FilterResonance | 5 => SampleStart | 6 => LoopStart | _ => LoopEnd
  end%nat.

Global Instance ModulationSource_countable : Countable ModulationSource.
Proof.
  apply (inj_countable' source_index source_of_index).
  intros s. destruct s; reflexivity.
Defined.

Global Instance ModulationDestination_countable : Countable ModulationDestination.
Proof.
  apply (inj_countable' destination_index destination_of_index).
  intros d. destruct d; reflexivity.
Defined.

(** [juce::AudioProcessorValueTreeState], as far as the engine uses it:
    [*valueTreeState.getRawParameterValue (id)], the current raw value of
    the parameter [id].  Every identifier the engine asks for is registered
    by [createParameterLayout]. *)
Definition APVTS := string -> Q.

(** [operator[]] of a [std::map<K, float>] used as an rvalue: a missing key
    is first inserted with the value-initialised [0.0f]. *)
Definition map_index `{Countable K} (k : K) (m : gmap K Q) : Q * gmap K Q :=
  match m !! k with
  | Some v => (v, m)
  | None => (0, <[k := 0]> m)
  end.

(** The value a source holds, as [operator[]] reads it. *)
Definition held (k : ModulationSource) (src : gmap ModulationSource Q) : Q :=
  default 0 (src !! k).

(** * Modulation matrix *)

Module ModulationMatrix.
Section WithPlatform.
Context `{Libm} `{RandomOps}.

(** [std::array<LFO, 3>]; the source only uses the indices 0, 1 and 2. *)
Record lfo_array := mk_lfos { lfo_0 : LFO.t; lfo_1 : LFO.t; lfo_2 : LFO.t }.

Definition lfo_at (i : nat) (a : lfo_array) : LFO.t :=
  match i with
  | 0 => lfo_0 a
  | 1 => lfo_1 a
  | _ => lfo_2 a
  end%nat.

Definition lfo_update (i : nat) (f : LFO.t -> LFO.t) (a : lfo_array) : lfo_array :=
  match i with
  | 0 => mk_lfos (f (lfo_0 a)) (lfo_1 a) (lfo_2 a)
  | 1 => mk_lfos (lfo_0 a) (f (lfo_1 a)) (lfo_2 a)
  | _ => mk_lfos (lfo_0 a) (lfo_1 a) (f (lfo_2 a))
  end%nat.

Record t := mk {
  lfos : lfo_array;
  sourceValues : gmap ModulationSource Q;
  destinationValues : gmap ModulationDestination Q
}.

Definition prepareToPlay (sampleRate : Q) (m : t) : t :=
  {| lfos := mk_lfos (LFO.prepareToPlay sampleRate (lfo_0 (lfos m)))
                     (LFO.prepareToPlay sampleRate (lfo_1 (lfos m)))
                     (LFO.prepareToPlay sampleRate (lfo_2 (lfos m)));
     sourceValues := sourceValues m;
     destinationValues := destinationValues m |}.

(** Body of the first loop of [processBlock], for one [i]. *)
Definition updateLFO (valueTreeState : APVTS) (i : nat) (l : LFO.t) : LFO.t :=
  let prefix := "lfo" +:+ pretty (i + 1)%nat +:+ "_" in
  let rate := valueTreeState (prefix +:+ "rate") in
  let amount := valueTreeState (prefix +:+ "amount") in
  let waveform := to_int (valueTreeState (prefix +:+ "waveform")) in
  LFO.setWaveform waveform (LFO.setFrequency rate l).

(** Body of the second loop: one sample of each oscillator, each stored
    under its source. *)
Definition tick (m : t) : t :=
  let '(o1, l1) := LFO.getNextSample (lfo_0 (lfos m)) in
  let '(o2, l2) := LFO.getNextSample (lfo_1 (lfos m)) in
  let '(o3, l3) := LFO.getNextSample (lfo_2 (lfos m)) in
  {| lfos := mk_lfos l1 l2 l3;
     sourceValues := <[LFO3 := o3]> (<[LFO2 := o2]> (<[LFO1 := o1]> (sourceValues m)));
     destinationValues := destinationValues m |}.

Definition processBlock (valueTreeState : APVTS) (numSamples : Z) (m : t) : t :=
  let ls :=
    fold_left (fun a i => lfo_update i (updateLFO valueTreeState i) a)
              [0; 1; 2]%nat (lfos m) in
  let m := {| lfos := ls; sourceValues := sourceValues m;
              destinationValues := ∅ |} in
  let m := Nat.iter (Z.to_nat numSamples) tick m in
  let lfo1Amount := valueTreeState "lfo1_amount" in
  let lfo2Amount := valueTreeState "lfo2_amount" in
  let lfo3Amount := valueTreeState "lfo3_amount" in
  let '(s1, src) := map_index LFO1 (sourceValues m) in
  let dst := <[FilterCutoff := s1 * lfo1Amount * 0.5]> (destinationValues m) in
  let '(s2, src) := map_index LFO2 src in
  let dst := <[Pitch := s2 * lfo2Amount * 0.1]> dst in
  let '(s3, src) := map_index LFO3 src in
  let dst := <[Volume := s3 * lfo3Amount * 0.3]> dst in
  {| lfos := lfos m; sourceValues := src; destinationValues := dst |}.

Definition getModulationValue (destination : ModulationDestination) (m : t) : Q :=
  match destinationValues m !! destination with
  | Some v => v
  | None => 0
  end.

Definition setSourceValue (source : ModulationSource) (value : Q) (m : t) : t :=
  {| lfos := lfos m;
     sourceValues := <[source := value]> (sourceValues m);
     destinationValues := destinationValues m |}.
End WithPlatform.
End ModulationMatrix.

(** * Audio buffers and sample data *)

(** [juce::AudioBuffer<float>]: [getNumSamples ()] frames in each of
    [getNumChannels ()] channels. *)
Record AudioBuffer := mkBuffer {
  getNumSamples : Z;
  channelData : list (list Q)
}.

Definition getNumChannels (b : AudioBuffer) : Z :=
  Z.of_nat (length (channelData b)).

(** The invariant [setSize] establishes: every channel holds exactly
    [getNumSamples] frames. *)
Definition buffer_wf (b : AudioBuffer) : Prop :=
  Forall (fun c : list Q => Z.of_nat (length c) = getNumSamples b) (channelData b).

(** [struct SampleData], with its default member initialisers. *)
Record SampleData := mkSample {
  audioData : AudioBuffer;
  sampleRate : Q;
  rootNote : Z;
  lowestNote : Z;
  highestNote : Z;
  loopStart : Q;
  loopEnd : Q;
  loopEnabled : bool;
  loopMode : Z;
  name : string;
  filePath : string
}.

Definition SampleData_default : SampleData :=
  {| audioData := mkBuffer 0 [];
     sampleRate := 44100;
     rootNote := 60;
     lowestNote := 0;
     highestNote := 127;
     loopStart := 0.25;
     loopEnd := 0.75;
     loopEnabled := false;
     loopMode := 0;
     name := "";
     filePath := "" |}.

(** [juce::File], as far as [loadSample] queries it. *)
Record File := mkFile {
  getFileNameWithoutExtension : string;
  getFullPathName : string
}.

(** [juce::AudioFormatReader]: the stream's properties and the frames that
    [read] delivers, by channel and frame index. *)
Record AudioFormatReader := mkReader {
  reader_sampleRate : Q;
  reader_numChannels : Z;
  reader_lengthInSamples : Z;
  reader_frame : nat -> nat -> Q
}.

(** [juce::AudioFormatManager::createReaderFor]: [None] is the null reader
    returned for a file that cannot be decoded. *)
Definition AudioFormatManager := File -> option AudioFormatReader.

(** [audioData.setSize (numChannels, numSamples)] followed by
    [reader->read (&audioData, 0, numSamples, 0, true, true)]. *)
Definition read_into_buffer (reader : AudioFormatReader) (numChannels numSamples : Z)
  : AudioBuffer :=
  {| getNumSamples := Z.of_nat (Z.to_nat numSamples);
     channelData :=
       map (fun c => map (reader_frame reader c) (seq 0 (Z.to_nat numSamples)))
           (seq 0 (Z.to_nat numChannels)) |}.

(** Two buffers of the same shape whose frames are equal as numbers. *)
Definition buffer_equiv (a b : AudioBuffer) : Prop :=
  getNumSamples a = getNumSamples b
  /\ Forall2 (Forall2 Qeq) (channelData a) (channelData b).

(** * Sample engine *)

Module SampleEngine.

Record t := mk {
  samples : list SampleData;
  formatManager : AudioFormatManager
}.

(** [void loadSample (const juce::File& file, int rootNote = 60)].  The
    method returns nothing: its result is the unit value, next to the
    engine after the call. *)
Definition loadSample (file : File) (rootNote : Z) (e : t) : unit * t :=
  match formatManager e file with
  | Some reader =>
      let newSample :=
        {| audioData :=
             read_into_buffer reader (reader_numChannels reader)
                              (to_int32 (reader_lengthInSamples reader));
           sampleRate := reader_sampleRate reader;
           rootNote := rootNote;
           lowestNote := lowestNote SampleData_default;
           highestNote := highestNote SampleData_default;
           loopStart := loopStart SampleData_default;
           loopEnd := loopEnd SampleData_default;
           loopEnabled := loopEnabled SampleData_default;
           loopMode := loopMode SampleData_default;
           name := getFileNameWithoutExtension file;
           filePath := getFullPathName file |} in
      (tt, {| samples := samples e ++ [newSample];
              formatManager := formatManager e |})
  | None => (tt, e)
  end.

(** The call with the default argument, [loadSample (file)]. *)
Definition loadSample_default (file : File) (e : t) : unit * t :=
  loadSample file 60 e.

Definition clearSamples (e : t) : t :=
  {| samples := []; formatManager := formatManager e |}.

Definition in_range (noteNumber : Z) (sample : SampleData) : bool :=
  (noteNumber >=? lowestNote sample)%Z && (noteNumber <=? highestNote sample)%Z.

(** The range-based [for] of [getSampleForNote]; [i] is the position of
    the head of [l] in the vector. *)
Fixpoint first_in_range (noteNumber : Z) (l : list SampleData) (i : nat) : option nat :=
  match l with
  | [] => None
  | sample :: l' =>
      if in_range noteNumber sample then Some i
      else first_in_range noteNumber l' (S i)
  end.

(** [SampleData* getSampleForNote (int noteNumber)]: a pointer into the
    vector is the position of the element; [None] is [nullptr]. *)
Definition getSampleForNote (noteNumber : Z) (e : t) : option nat :=
  match first_in_range noteNumber (samples e) 0 with
  | Some i => Some i
  | None =>
      match samples e with
      | [] => None
      | _ :: _ => Some 0%nat
      end
  end.

End SampleEngine.

(** * Filter engine *)

(** [juce::dsp::StateVariableTPTFilter<float>]: the engine sets the cutoff
    and the resonance and hands blocks to [process]; the filter's own
    integrator state is opaque. *)
Class FilterOps := {
  FilterState : Type;
  filter_process : Q -> Q -> FilterState -> AudioBuffer -> AudioBuffer * FilterState
}.

(** A pointer to an object the processor owns exactly one of (its parameter
    tree, its modulation matrix): either null, or the address of that
    object, whose current contents the caller supplies. *)
Inductive pointer := nullptr | attached.

Module FilterEngine.
Section WithPlatform.
Context `{Libm} `{RandomOps} `{FilterOps}.

Record t := mk {
  cutoffFrequency : Q;
  resonance : Q;
  filterState : FilterState;
  modMatrix : pointer
}.

Definition setCutoffFrequency (f : Q) (e : t) : t :=
  {| cutoffFrequency := f; resonance := resonance e;
     filterState := filterState e; modMatrix := modMatrix e |}.

Definition setResonance (r : Q) (e : t) : t :=
  {| cutoffFrequency := cutoffFrequency e; resonance := r;
     filterState := filterState e; modMatrix := modMatrix e |}.

Definition setModulationMatrix (matrix : pointer) (e : t) : t :=
  {| cutoffFrequency := cutoffFrequency e; resonance := resonance e;
     filterState := filterState e; modMatrix := matrix |}.

(** [processBlock (buffer)]; [matrix] is the processor's modulation
    matrix, read only when [modMatrix] is not null. *)
Definition processBlock (valueTreeState : APVTS) (matrix : ModulationMatrix.t)
    (buffer : AudioBuffer) (e : t) : AudioBuffer * t :=
  let cutoff := valueTreeState "filter_cutoff" in
  let res := valueTreeState "filter_resonance" in
  let e :=
    match modMatrix e with
    | attached =>
        let cutoffMod := ModulationMatrix.getModulationValue FilterCutoff matrix in
        let modulatedCutoff := cutoff + (cutoffMod * cutoff) in
        let modulatedCutoff := jlimit 20 20000 modulatedCutoff in
        setCutoffFrequency modulatedCutoff e
    | nullptr => setCutoffFrequency cutoff e
    end in
  let e := setResonance res e in
  let '(buffer, st) :=
    filter_process (cutoffFrequency e) (resonance e) (filterState e) buffer in
  (buffer,
   {| cutoffFrequency := cutoffFrequency e; resonance := resonance e;
      filterState := st; modMatrix := modMatrix e |}).
End WithPlatform.
End FilterEngine.

(** * Memory reads *)

(** Outcome of code that dereferences a [SampleData*] and indexes raw
    channel data. *)
Inductive result (A : Type) : Type :=
  | Ok (a : A)
  | InvalidPointer
  | OutOfBounds.
Arguments Ok {A} a.
Arguments InvalidPointer {A}.
Arguments OutOfBounds {A}.

(** A computation that reads sample memory: the indices it has read, in
    order, and its outcome. *)
Definition Mem (A : Type) : Type := (list Z * result A)%type.

Definition Mem_ret {A} (a : A) : Mem A := ([], Ok a).

Definition Mem_bind {A B} (f : A -> Mem B) (m : Mem A) : Mem B :=
  match m with
  | (tr, Ok a) => let '(tr', r) := f a in (tr ++ tr', r)
  | (tr, InvalidPointer) => (tr, InvalidPointer)
  | (tr, OutOfBounds) => (tr, OutOfBounds)
  end.

Definition Mem_map {A B} (f : A -> B) (m : Mem A) : Mem B :=
  (m.1, match m.2 with
        | Ok a => Ok (f a)
        | InvalidPointer => InvalidPointer
        | OutOfBounds => OutOfBounds
        end).

Global Instance Mem_mret : MRet Mem := @Mem_ret.
Global Instance Mem_mbind : MBind Mem := @Mem_bind.

(** [channel[index]] on a raw read pointer. *)
Definition read (channel : list Q) (index : Z) : Mem Q :=
  ([index],
   if (index <? 0)%Z then OutOfBounds
   else match channel !! Z.to_nat index with
        | Some x => Ok x
        | None => OutOfBounds
        end).

(** [p->...] for a [SampleData*] into the vector [samples]. *)
Definition deref (samples : list SampleData) (p : nat) : Mem SampleData :=
  ([], match samples !! p with
       | Some s => Ok s
       | None => InvalidPointer
       end).

(** [getReadPointer (channel)]: the channel's data. *)
Definition getReadPointer (b : AudioBuffer) (channel : nat) : list Q :=
  match channelData b !! channel with
  | Some c => c
  | None => []
  end.

(** [addSample (destChannel, destSample, valueToAdd)]; an index outside
    the buffer, which JUCE asserts against, leaves the buffer as it is. *)
Definition addSample (destChannel : nat) (destSample : Z) (valueToAdd : Q)
    (b : AudioBuffer) : AudioBuffer :=
  if (destSample <? 0)%Z then b
  else
    {| getNumSamples := getNumSamples b;
       channelData :=
         alter (alter (fun x => x + valueToAdd) (Z.to_nat destSample))
               destChannel (channelData b) |}.

(** * Envelope interface *)

(** [juce::ADSR::Parameters]. *)
Record ADSRParameters := mkParams {
  attack : Q;
  decay : Q;
  sustain : Q;
  release : Q
}.

(** [juce::ADSR], as far as the voice calls it. *)
Class ADSROps := {
  ADSR : Type;
  adsr_setParameters : ADSRParameters -> ADSR -> ADSR;
  adsr_noteOn : ADSR -> ADSR;
  adsr_noteOff : ADSR -> ADSR;
  adsr_isActive : ADSR -> bool;
  adsr_getNextSample : ADSR -> Q * ADSR
}.

(** * The processor, as far as a voice reaches into it *)

Module Processor.
Section WithPlatform.
Context `{Libm} `{RandomOps}.

Record t := mk {
  parameters : APVTS;
  sampleEngine : SampleEngine.t;
  modMatrix : ModulationMatrix.t;
  voicePositions : list Q;
  voiceActive : list bool
}.

(** [voiceActive[index].store (value)]. *)
Definition store_voiceActive (index : Z) (value : bool) (p : t) : t :=
  {| parameters := parameters p; sampleEngine := sampleEngine p;
     modMatrix := modMatrix p; voicePositions := voicePositions p;
     voiceActive := <[Z.to_nat index := value]> (voiceActive p) |}.

(** [voicePositions[index].store (value)]. *)
Definition store_voicePositions (index : Z) (value : Q) (p : t) : t :=
  {| parameters := parameters p; sampleEngine := sampleEngine p;
     modMatrix := modMatrix p;
     voicePositions := <[Z.to_nat index := value]> (voicePositions p);
     voiceActive := voiceActive p |}.

(** [modulationMatrix.setSourceValue (source, value)] through the voice's
    reference to the processor's matrix. *)
Definition setSourceValue (source : ModulationSource) (value : Q) (p : t) : t :=
  {| parameters := parameters p; sampleEngine := sampleEngine p;
     modMatrix := ModulationMatrix.setSourceValue source value (modMatrix p);
     voicePositions := voicePositions p; voiceActive := voiceActive p |}.
End WithPlatform.
End Processor.

(** * Sampler voice *)

Module Voice.
Section WithPlatform.
Context `{Libm} `{RandomOps} `{ADSROps}.

(** The first two fields are those of the base class
    [juce::SynthesiserVoice] the source relies on ([clearCurrentNote],
    [isVoiceActive], [getSampleRate]); the rest are the members of
    [AdvancedSamplerVoice]. *)
Record t := mk {
  currentlyPlayingNote : Z;
  currentSampleRate : Q;
  normalizedPosition : Q;
  valueTreeState : pointer;
  voiceIndex : Z;
  currentSample : option nat;
  currentPosition : Q;
  positionIncrement : Q;
  noteNumber : Z;
  velocity : Q;
  loopingForward : bool;
  adsr : ADSR;
  adsrParams : ADSRParameters
}.

Definition set_currentlyPlayingNote (x : Z) (v : t) : t :=
  mk x (currentSampleRate v) (normalizedPosition v) (valueTreeState v)
     (voiceIndex v) (currentSample v) (currentPosition v) (positionIncrement v)
     (noteNumber v) (velocity v) (loopingForward v) (adsr v) (adsrParams v).

Definition set_normalizedPosition (x : Q) (v : t) : t :=
  mk (currentlyPlayingNote v) (currentSampleRate v) x (valueTreeState v)
     (voiceIndex v) (currentSample v) (currentPosition v) (positionIncrement v)
     (noteNumber v) (velocity v) (loopingForward v) (adsr v) (adsrParams v).

Definition set_valueTreeState (x : pointer) (v : t) : t :=
  mk (currentlyPlayingNote v) (currentSampleRate v) (normalizedPosition v) x
     (voiceIndex v) (currentSample v) (currentPosition v) (positionIncrement v)
     (noteNumber v) (velocity v) (loopingForward v) (adsr v) (adsrParams v).

Definition set_currentSample (x : option nat) (v : t) : t :=
  mk (currentlyPlayingNote v) (currentSampleRate v) (normalizedPosition v)
     (valueTreeState v) (voiceIndex v) x (currentPosition v) (positionIncrement v)
     (noteNumber v) (velocity v) (loopingForward v) (adsr v) (adsrParams v).

Definition set_currentPosition (x : Q) (v : t) : t :=
  mk (currentlyPlayingNote v) (currentSampleRate v) (normalizedPosition v)
     (valueTreeState v) (voiceIndex v) (currentSample v) x (positionIncrement v)
     (noteNumber v) (velocity v) (loopingForward v) (adsr v) (adsrParams v).

Definition set_positionIncrement (x : Q) (v : t) : t :=
  mk (currentlyPlayingNote v) (currentSampleRate v) (normalizedPosition v)
     (valueTreeState v) (voiceIndex v) (currentSample v) (currentPosition v) x
     (noteNumber v) (velocity v) (loopingForward v) (adsr v) (adsrParams v).

Definition set_noteNumber (x : Z) (v : t) : t :=
  mk (currentlyPlayingNote v) (currentSampleRate v) (normalizedPosition v)
     (valueTreeState v) (voiceIndex v) (currentSample v) (currentPosition v)
     (positionIncrement v) x (velocity v) (loopingForward v) (adsr v) (adsrParams v).

Definition set_velocity (x : Q) (v : t) : t :=
  mk (currentlyPlayingNote v) (currentSampleRate v) (normalizedPosition v)
     (valueTreeState v) (voiceIndex v) (currentSample v) (currentPosition v)
     (positionIncrement v) (noteNumber v) x (loopingForward v) (adsr v) (adsrParams v).

Definition set_loopingForward (x : bool) (v : t) : t :=
  mk (currentlyPlayingNote v) (currentSampleRate v) (normalizedPosition v)
     (valueTreeState v) (voiceIndex v) (currentSample v) (currentPosition v)
     (positionIncrement v) (noteNumber v) (velocity v) x (adsr v) (adsrParams v).

Definition set_adsr (x : ADSR) (v : t) : t :=
  mk (currentlyPlayingNote v) (currentSampleRate v) (normalizedPosition v)
     (valueTreeState v) (voiceIndex v) (currentSample v) (currentPosition v)
     (positionIncrement v) (noteNumber v) (velocity v) (loopingForward v) x
     (adsrParams v).

Definition set_adsrParams (x : ADSRParameters) (v : t) : t :=
  mk (currentlyPlayingNote v) (currentSampleRate v) (normalizedPosition v)
     (valueTreeState v) (voiceIndex v) (currentSample v) (currentPosition v)
     (positionIncrement v) (noteNumber v) (velocity v) (loopingForward v)
     (adsr v) x.

(** The constructor.  [normalizedPosition] has no initialiser in the
    source, so its first value is whatever [garbage] the storage holds;
    [fresh] is the default-constructed envelope. *)
Definition init (index : Z) (garbage : Q) (fresh : ADSR) : t :=
  let params := mkParams 0.01 0.1 0.8 0.5 in
  {| currentlyPlayingNote := -1; currentSampleRate := 44100;
     normalizedPosition := garbage; valueTreeState := nullptr;
     voiceIndex := index; currentSample := None;
     currentPosition := 0; positionIncrement := 0;
     noteNumber := 0; velocity := 0; loopingForward := true;
     adsr := adsr_setParameters params fresh; adsrParams := params |}.

Definition setValueTreeState (vts : pointer) (v : t) : t :=
  set_valueTreeState vts v.

(** [juce::SynthesiserVoice::clearCurrentNote] and [isVoiceActive]. *)
Definition clearCurrentNote (v : t) : t := set_currentlyPlayingNote (-1) v.
Definition isVoiceActive (v : t) : bool := (currentlyPlayingNote v >=? 0)%Z.
Definition getSampleRate (v : t) : Q := currentSampleRate v.

Definition updateADSRParams (p : Processor.t) (v : t) : t :=
  match valueTreeState v with
  | attached =>
      let params :=
        {| attack := Processor.parameters p "env_attack";
           decay := Processor.parameters p "env_decay";
           sustain := Processor.parameters p "env_sustain";
           release := Processor.parameters p "env_release" |} in
      let v := set_adsrParams params v in
      set_adsr (adsr_setParameters (adsrParams v) (adsr v)) v
  | nullptr => v
  end.

(** The local [pitchRatio] of [startNote]. *)
Definition pitchRatio (midiNoteNumber : Z) (sample : SampleData) : Q :=
  pow 2 (of_int (midiNoteNumber - rootNote sample) / 12).

Definition startNote (midiNoteNumber : Z) (vel : Q) (v : t) (p : Processor.t)
  : Mem (t * Processor.t) :=
  let v := updateADSRParams p v in
  let v := set_currentSample
             (SampleEngine.getSampleForNote midiNoteNumber (Processor.sampleEngine p)) v in
  let decline :=
    (clearCurrentNote v, Processor.store_voiceActive (voiceIndex v) false p) in
  match currentSample v with
  | None => mret decline
  | Some ptr =>
      sample ← deref (SampleEngine.samples (Processor.sampleEngine p)) ptr;
      if (getNumSamples (audioData sample) =? 0)%Z then mret decline
      else
        let v := set_noteNumber midiNoteNumber v in
        let v := set_velocity vel v in
        let pitchRatio := pitchRatio midiNoteNumber sample in
        let v := set_positionIncrement
                   (pitchRatio * sampleRate sample / getSampleRate v) v in
        let v := set_currentPosition 0 v in
        let v := set_loopingForward true v in
        let p := Processor.setSourceValue Velocity (velocity v) p in
        let p := Processor.setSourceValue KeyTrack (of_int midiNoteNumber / 127) p in
        let v := set_adsr (adsr_noteOn (adsr v)) v in
        let p := Processor.store_voiceActive (voiceIndex v) true p in
        mret (v, p)
  end.

Definition stopNote (vel : Q) (allowTailOff : bool) (v : t) : t :=
  let v := set_adsr (adsr_noteOff (adsr v)) v in
  if negb allowTailOff then clearCurrentNote v else v.

(** For the values of a MIDI wheel, dividing by 8192 and doubling are
    exact in [float]; the division by 12 rounds. *)
Definition pitchWheelMoved (newValue : Z) (p : Processor.t) : Processor.t :=
  let pitchBend := of_int (newValue - 8192) / 8192 * 2 in
  Processor.setSourceValue PitchBend (fl32 (pitchBend / 12)) p.

Definition controllerMoved (controllerNumber newValue : Z) (p : Processor.t)
  : Processor.t :=
  let normalizedValue := fl32 (of_int newValue / 127) in
  if (controllerNumber =? 1)%Z
  then Processor.setSourceValue ModWheel normalizedValue p
  else p.

Definition getCurrentPlaybackPosition (v : t) : Q := normalizedPosition v.

(** ** [renderNextBlock] *)

(** The exit taken when the voice has no sample or its envelope is
    idle: [clearCurrentNote], then the two stores. *)
Definition retire (v : t) (p : Processor.t) : t * Processor.t :=
  (clearCurrentNote v,
   Processor.store_voicePositions (voiceIndex v) 0
     (Processor.store_voiceActive (voiceIndex v) false p)).

(** Lines 966-994: the two interpolated samples at [currentPosition].
    [sampleDataRight] is [None] for the null right pointer of a mono
    sample. *)
Definition fetch (sampleData : list Q) (sampleDataRight : option (list Q))
    (sampleLength : Z) (currentPosition : Q) : Mem (Q * Q) :=
  if Qgeb currentPosition 0 && Qltb currentPosition (of_int sampleLength) then
    let index := to_int currentPosition in
    let fraction := currentPosition - of_int index in
    if (index <? sampleLength - 1)%Z then
      a ← read sampleData index;
      b ← read sampleData (index + 1);
      let leftSample := a * (1 - fraction) + b * fraction in
      match sampleDataRight with
      | Some rightData =>
          c ← read rightData index;
          d ← read rightData (index + 1);
          mret (leftSample, c * (1 - fraction) + d * fraction)
      | None => mret (leftSample, leftSample)
      end
    else
      leftSample ← read sampleData index;
      match sampleDataRight with
      | Some rightData =>
          rightSample ← read rightData index;
          mret (leftSample, rightSample)
      | None => mret (leftSample, leftSample)
      end
  else mret (0, 0).

(** [(int) (currentSample->loopStart * sampleLength)] and its
    counterpart for the loop end: [sampleLength] is converted to [float],
    the product is a [float] product, and the cast truncates it. *)
Definition loopStartSample (sample : SampleData) : Z :=
  to_int (fl32 (loopStart sample
                * fl32 (of_int (getNumSamples (audioData sample))))).

Definition loopEndSample (sample : SampleData) : Z :=
  to_int (fl32 (loopEnd sample
                * fl32 (of_int (getNumSamples (audioData sample))))).

(** [leftSample *= envelopeValue * velocity], and the same on the
    right. *)
Definition scale (fetched : Q * Q) (envelopeValue velocity : Q) : Q * Q :=
  (fetched.1 * (envelopeValue * velocity), fetched.2 * (envelopeValue * velocity)).

(** Lines 1008-1053: the cursor advance.  The boolean is [true] when the
    [break] of the non-looping arm is taken. *)
Definition advance (sample : SampleData)
    (sampleLength loopStartSample loopEndSample : Z)
    (modifiedIncrement : Q) (v : t) : bool * t :=
  if loopEnabled sample && Qgeb (currentPosition v) (of_int loopStartSample) then
    (false,
     match loopMode sample with
     | 0%Z =>
         let v := set_currentPosition (currentPosition v + modifiedIncrement) v in
         if Qgeb (currentPosition v) (of_int loopEndSample)
         then set_currentPosition
                (of_int loopStartSample + (currentPosition v - of_int loopEndSample)) v
         else v
     | 1%Z =>
         let v := set_currentPosition (currentPosition v - modifiedIncrement) v in
         if Qleb (currentPosition v) (of_int loopStartSample)
         then set_currentPosition
                (of_int loopEndSample - (of_int loopStartSample - currentPosition v)) v
         else v
     | 2%Z =>
         if loopingForward v then
           let v := set_currentPosition (currentPosition v + modifiedIncrement) v in
           if Qgeb (currentPosition v) (of_int loopEndSample)
           then set_loopingForward false
                  (set_currentPosition
                     (of_int loopEndSample - (currentPosition v - of_int loopEndSample)) v)
           else v
         else
           let v := set_currentPosition (currentPosition v - modifiedIncrement) v in
           if Qleb (currentPosition v) (of_int loopStartSample)
           then set_loopingForward true
                  (set_currentPosition
                     (of_int loopStartSample + (of_int loopStartSample - currentPosition v)) v)
           else v
     | _ => v
     end)
  else
    let v := set_currentPosition (currentPosition v + modifiedIncrement) v in
    if Qgeb (currentPosition v) (of_int sampleLength) then
      (true,
       if adsr_isActive (adsr v) then set_adsr (adsr_noteOff (adsr v)) v else v)
    else (false, v).

(** The cursor after successive advances, one per modified increment,
    for as long as none of them leaves the loop of [renderNextBlock]. *)
Definition advances (sample : SampleData) (increments : list Q) (v : t) : t :=
  fold_left
    (fun v modifiedIncrement =>
       (advance sample (getNumSamples (audioData sample))
                (loopStartSample sample) (loopEndSample sample)
                modifiedIncrement v).2)
    increments v.

(** What the loop of [renderNextBlock] carries from one output sample to
    the next. *)
Definition render_state : Type := (AudioBuffer * t * Processor.t)%type.

(** A render state whose voice has had [clearCurrentNote] called. *)
Definition cleared (st : render_state) : render_state :=
  let '(outputBuffer, v, p) := st in (outputBuffer, clearCurrentNote v, p).

(** One iteration of the loop, for the output sample [sample]; the
    boolean is [false] when the iteration leaves the loop by [break]. *)
Definition renderSample (currentSampleData : SampleData)
    (sampleData : list Q) (sampleDataRight : option (list Q))
    (sampleLength loopStartSample loopEndSample : Z)
    (startSample sample : Z) (st : render_state) : Mem (bool * render_state) :=
  let '(outputBuffer, v, p) := st in
  let v := set_normalizedPosition (currentPosition v / of_int sampleLength) v in
  let p := Processor.store_voicePositions (voiceIndex v) (normalizedPosition v) p in
  fetched ← fetch sampleData sampleDataRight sampleLength (currentPosition v);
  let '(envelopeValue, a) := adsr_getNextSample (adsr v) in
  let v := set_adsr a v in
  let '(leftSample, rightSample) := scale fetched envelopeValue (velocity v) in
  let outputBuffer :=
    if (getNumChannels outputBuffer >? 0)%Z
    then addSample 0 (startSample + sample) leftSample outputBuffer
    else outputBuffer in
  let outputBuffer :=
    if (getNumChannels outputBuffer >? 1)%Z
    then addSample 1 (startSample + sample) rightSample outputBuffer
    else outputBuffer in
  let pitchMod := ModulationMatrix.getModulationValue Pitch (Processor.modMatrix p) in
  let modifiedIncrement := positionIncrement v * pow 2 pitchMod in
  let '(stop, v) :=
    advance currentSampleData sampleLength loopStartSample loopEndSample
            modifiedIncrement v in
  if stop then mret (false, (outputBuffer, v, p))
  else if negb (adsr_isActive (adsr v)) then
    let '(v, p) := retire v p in
    mret (false, (outputBuffer, v, p))
  else mret (true, (outputBuffer, v, p)).

(** [for (int sample = 0; sample < numSamples; ++sample)], with [n]
    iterations left. *)
Fixpoint renderLoop (currentSampleData : SampleData)
    (sampleData : list Q) (sampleDataRight : option (list Q))
    (sampleLength loopStartSample loopEndSample : Z)
    (startSample : Z) (n : nat) (sample : Z) (st : render_state)
  : Mem render_state :=
  match n with
  | O => mret st
  | S n =>
      '(continue, st) ←
        renderSample currentSampleData sampleData sampleDataRight sampleLength
                     loopStartSample loopEndSample startSample sample st;
      if continue : bool
      then renderLoop currentSampleData sampleData sampleDataRight sampleLength
                      loopStartSample loopEndSample startSample n (sample + 1) st
      else mret st
  end.

Definition renderNextBlock (outputBuffer : AudioBuffer)
    (startSample numSamples : Z) (v : t) (p : Processor.t) : Mem render_state :=
  match currentSample v with
  | None => let '(v, p) := retire v p in mret (outputBuffer, v, p)
  | Some ptr =>
      if negb (adsr_isActive (adsr v)) then
        let '(v, p) := retire v p in mret (outputBuffer, v, p)
      else
        currentSampleData ← deref (SampleEngine.samples (Processor.sampleEngine p)) ptr;
        let sampleData := getReadPointer (audioData currentSampleData) 0 in
        let sampleDataRight :=
          if (getNumChannels (audioData currentSampleData) >? 1)%Z
          then Some (getReadPointer (audioData currentSampleData) 1)
          else None in
        let sampleLength := getNumSamples (audioData currentSampleData) in
        let loopStartSample := loopStartSample currentSampleData in
        let loopEndSample := loopEndSample currentSampleData in
        renderLoop currentSampleData sampleData sampleDataRight sampleLength
                   loopStartSample loopEndSample startSample
                   (Z.to_nat numSamples) 0 (outputBuffer, v, p)
  end.
End WithPlatform.
End Voice.


(** * Frames of an output block *)

(** The frame [i] of channel [ch], when the buffer has it. *)
Definition frame (b : AudioBuffer) (ch i : nat) : option Q :=
  match channelData b !! ch with
  | Some c => c !! i
  | None => None
  end.

(** The dimensions of a buffer: its frame count and the length of each
    channel. *)
Definition shape (b : AudioBuffer) : Z * list nat :=
  (getNumSamples b, map length (channelData b)).

(** * Editing and persistence of the loaded samples *)

(** [juce::jmax (a, b)]: [a < b ? b : a]. *)
Definition jmax (a b : Q) : Q := if Qltb a b then b else a.

(** Assignments to single members of a [SampleData]. *)
Definition set_loopStart (x : Q) (s : SampleData) : SampleData :=
  {| audioData := audioData s; sampleRate := sampleRate s;
     rootNote := rootNote s; lowestNote := lowestNote s;
     highestNote := highestNote s; loopStart := x; loopEnd := loopEnd s;
     loopEnabled := loopEnabled s; loopMode := loopMode s;
     name := name s; filePath := filePath s |}.

Definition set_loopEnd (x : Q) (s : SampleData) : SampleData :=
  {| audioData := audioData s; sampleRate := sampleRate s;
     rootNote := rootNote s; lowestNote := lowestNote s;
     highestNote := highestNote s; loopStart := loopStart s; loopEnd := x;
     loopEnabled := loopEnabled s; loopMode := loopMode s;
     name := name s; filePath := filePath s |}.

(** The [newSample] that [loadSample] pushes when the file decodes. *)
Definition newSample (file : File) (rootNote : Z) (reader : AudioFormatReader)
  : SampleData :=
  {| audioData :=
       read_into_buffer reader (reader_numChannels reader)
                        (to_int32 (reader_lengthInSamples reader));
     sampleRate := reader_sampleRate reader;
     rootNote := rootNote;
     lowestNote := 0;
     highestNote := 127;
     loopStart := 0.25;
     loopEnd := 0.75;
     loopEnabled := false;
     loopMode := 0;
     name := getFileNameWithoutExtension file;
     filePath := getFullPathName file |}.

(** What the waveform display keeps true of the loop markers of the
    sample it edits: the start marker between 0 and the [float] of
    [1 - 0.01f], the end marker between [0.01f] and 1, and the two apart
    by [0.01f] up to the rounding of one [float] operation below 2,
    [2^-24]. *)
Definition markers_ok (s : SampleData) : Prop :=
  0 <= loopStart s <= fl32 (1 - fl32 0.01)
  /\ fl32 0.01 <= loopEnd s <= 1
  /\ loopStart s + (fl32 0.01 - (1 # 16777216)) <= loopEnd s.

(** [class WaveformDisplay]: the two drag flags; the display edits
    [samples[0]] of the engine it refers to. *)
Module WaveformDisplay.

Record t := mk {
  draggingLoopStart : bool;
  draggingLoopEnd : bool
}.

(** Member initialisers. *)
Definition init : t :=
  {| draggingLoopStart := false; draggingLoopEnd := false |}.

(** [(float) e.x / getWidth ()] for a width other than 0: both operands
    are converted to [float] and the quotient is rounded. *)
Definition mouseX (e_x getWidth : Z) : Q :=
  fl32 (fl32 (of_int e_x) / fl32 (of_int getWidth)).

(** [void mouseDown (const juce::MouseEvent& e)]; [e_x] is [e.x] and
    [getWidth] the component's width.  With a width of 0 the quotient is
    infinite or not a number, both distances are, and neither comparison
    holds. *)
Definition mouseDown (e_x getWidth : Z) (d : t) (e : SampleEngine.t) : t :=
  match SampleEngine.samples e with
  | [] => d
  | sample :: _ =>
      if (getWidth =? 0)%Z then d
      else
        let mouseX := mouseX e_x getWidth in
        let loopStartDist := Qabs (fl32 (mouseX - loopStart sample)) in
        let loopEndDist := Qabs (fl32 (mouseX - loopEnd sample)) in
        if Qltb loopStartDist (fl32 0.02) then
          {| draggingLoopStart := true; draggingLoopEnd := draggingLoopEnd d |}
        else if Qltb loopEndDist (fl32 0.02) then
          {| draggingLoopStart := draggingLoopStart d; draggingLoopEnd := true |}
        else d
  end.

(** [juce::jlimit (0.0f, 1.0f, (float) e.x / getWidth ())].  With a
    width of 0 the quotient is plus infinity, limited to 1, for a
    positive [e.x]; minus infinity, limited to 0, for a negative one; and
    not a number, which the limiter returns as it is, for [e.x = 0]:
    [None]. *)
Definition limited_mouseX (e_x getWidth : Z) : option Q :=
  if (getWidth =? 0)%Z then
    if (0 <? e_x)%Z then Some 1
    else if (e_x <? 0)%Z then Some 0
    else None
  else Some (jlimit 0 1 (mouseX e_x getWidth)).

(** [void mouseDrag (const juce::MouseEvent& e)].  [jmin] and [jmax]
    return their first argument when it is not a number: the result is
    [None] when such a value is stored in a marker. *)
Definition mouseDrag (e_x getWidth : Z) (d : t) (e : SampleEngine.t)
  : option SampleEngine.t :=
  match SampleEngine.samples e with
  | [] => Some e
  | sample :: rest =>
      if draggingLoopStart d then
        match limited_mouseX e_x getWidth with
        | Some mouseX =>
            Some {| SampleEngine.samples :=
                      set_loopStart
                        (jmin mouseX (fl32 (loopEnd sample - fl32 0.01)))
                        sample :: rest;
                    SampleEngine.formatManager := SampleEngine.formatManager e |}
        | None => None
        end
      else if draggingLoopEnd d then
        match limited_mouseX e_x getWidth with
        | Some mouseX =>
            Some {| SampleEngine.samples :=
                      set_loopEnd
                        (jmax mouseX (fl32 (loopStart sample + fl32 0.01)))
                        sample :: rest;
                    SampleEngine.formatManager := SampleEngine.formatManager e |}
        | None => None
        end
      else Some e
  end.

(** [void mouseUp (const juce::MouseEvent&)]. *)
Definition mouseUp (d : t) : t :=
  {| draggingLoopStart := false; draggingLoopEnd := false |}.

(** The three callbacks as the message loop delivers them. *)
Inductive callback :=
  | MouseDown (e_x : Z)
  | MouseDrag (e_x : Z)
  | MouseUp.

(** One callback on the display and the engine; [None] once a marker is
    not a number. *)
Definition deliver (getWidth : Z) (st : option (t * SampleEngine.t))
    (c : callback) : option (t * SampleEngine.t) :=
  match st with
  | None => None
  | Some (d, e) =>
      match c with
      | MouseDown e_x => Some (mouseDown e_x getWidth d e, e)
      | MouseDrag e_x =>
          match mouseDrag e_x getWidth d e with
          | Some e' => Some (d, e')
          | None => None
          end
      | MouseUp => Some (mouseUp d, e)
      end
  end.

End WaveformDisplay.

(** [juce::File (path)] and [File::existsAsFile]: the file system the
    plug-in runs on. *)
Class FileSystem := {
  File_of_path : string -> File;
  existsAsFile : File -> bool
}.

(** [class AdvancedSamplerEditor], its drag-and-drop target. *)
Module Editor.
Section WithFiles.
Context `{FileSystem}.

Record t := mk {
  isDragOver : bool
}.

Definition fileDragEnter (ed : t) : t := {| isDragOver := true |}.
Definition fileDragExit (ed : t) : t := {| isDragOver := false |}.

(** [void filesDropped (const juce::StringArray& files, int, int)], on
    the engine that [audioProcessor.getSampleEngine ()] returns. *)
Definition filesDropped (files : list string) (ed : t) (e : SampleEngine.t)
  : t * SampleEngine.t :=
  let ed := {| isDragOver := false |} in
  let e := SampleEngine.clearSamples e in
  (ed,
   fold_left
     (fun e filename =>
        let file := File_of_path filename in
        if existsAsFile file
        then (SampleEngine.loadSample_default file e).2
        else e)
     files e).

End WithFiles.
End Editor.

(** A [juce::ValueTree] of type "Sample": each property with the type
    the restoring code converts it to, [None] where the tree lacks it. *)
Record SampleState := mkSampleState {
  prop_filePath : option string;
  prop_name : option string;
  prop_rootNote : option Z;
  prop_lowestNote : option Z;
  prop_highestNote : option Z;
  prop_loopStart : option Q;
  prop_loopEnd : option Q;
  prop_loopEnabled : option bool;
  prop_loopMode : option Z
}.

(** [sampleState.getProperty (name, defaultValue)]. *)
Definition getProperty {A} (property : option A) (defaultValue : A) : A :=
  match property with
  | Some x => x
  | None => defaultValue
  end.

(** The sample part of the processor's [getStateInformation] and
    [setStateInformation], on the tree of type "SampleData" (the list of
    its children); the XML encoding of the tree is outside the model. *)
Module PluginState.
Section WithFiles.
Context `{FileSystem}.

(** Lines 680-690: the properties set on one child. *)
Definition sampleState_of (s : SampleData) : SampleState :=
  {| prop_filePath := Some (filePath s);
     prop_name := Some (name s);
     prop_rootNote := Some (rootNote s);
     prop_lowestNote := Some (lowestNote s);
     prop_highestNote := Some (highestNote s);
     prop_loopStart := Some (loopStart s);
     prop_loopEnd := Some (loopEnd s);
     prop_loopEnabled := Some (loopEnabled s);
     prop_loopMode := Some (loopMode s) |}.

(** Lines 674-699: one child for each loaded sample, in order. *)
Definition samplesState_of (e : SampleEngine.t) : list SampleState :=
  map sampleState_of (SampleEngine.samples e).

(** Lines 767-772: the six assignments to the sample. *)
Definition restore_settings (sampleState : SampleState) (sample : SampleData)
  : SampleData :=
  {| audioData := audioData sample; sampleRate := sampleRate sample;
     rootNote := rootNote sample;
     lowestNote := getProperty (prop_lowestNote sampleState) 0%Z;
     highestNote := getProperty (prop_highestNote sampleState) 127%Z;
     loopStart := getProperty (prop_loopStart sampleState) 0.25;
     loopEnd := getProperty (prop_loopEnd sampleState) 0.75;
     loopEnabled := getProperty (prop_loopEnabled sampleState) false;
     loopMode := getProperty (prop_loopMode sampleState) 0%Z;
     name := name sample; filePath := filePath sample |}.

(** Lines 748-790: the body of the loop over the children. *)
Definition restoreSample (sampleState : SampleState) (e : SampleEngine.t)
  : SampleEngine.t :=
  let filePath := getProperty (prop_filePath sampleState) "" in
  if negb (String.eqb filePath "") then
    let file := File_of_path filePath in
    if existsAsFile file then
      let rootNote := getProperty (prop_rootNote sampleState) 60%Z in
      let e := (SampleEngine.loadSample file rootNote e).2 in
      match SampleEngine.samples e with
      | [] => e
      | _ :: _ =>
          {| SampleEngine.samples :=
               alter (restore_settings sampleState)
                     (length (SampleEngine.samples e) - 1)%nat
                     (SampleEngine.samples e);
             SampleEngine.formatManager := SampleEngine.formatManager e |}
      end
    else e
  else e.

(** Lines 740-793: [clearSamples], then the loop. *)
Definition restoreSamples (samplesState : list SampleState)
    (e : SampleEngine.t) : SampleEngine.t :=
  fold_left (fun e sampleState => restoreSample sampleState e)
            samplesState (SampleEngine.clearSamples e).

(** The file of a saved sample is still there when the state is
    restored: its path is not empty, names an existing file that
    [decode] reads, and is the full path and the name that [juce::File]
    gives back. *)
Definition restorable (decode : AudioFormatManager) (s : SampleData) : Prop :=
  filePath s <> ""
  /\ existsAsFile (File_of_path (filePath s)) = true
  /\ is_Some (decode (File_of_path (filePath s)))
  /\ getFullPathName (File_of_path (filePath s)) = filePath s
  /\ getFileNameWithoutExtension (File_of_path (filePath s)) = name s.

End WithFiles.
End PluginState.

(** * Reference instances of the external interfaces

    Used for the concrete runs below.  The engine itself never depends on
    them. *)

Module Reference.

(** A rational stand-in for libm.  [pow b x] interpolates linearly
    between the neighbouring integer powers of [b], so it is exact at
    every integer exponent; [sinf] is the Taylor polynomial of degree 5;
    [pi] is the value of the [float] constant. *)
Definition libm : Libm :=
  {| sinf := fun x => x - x * x * x / 6 + x * x * x * x * x / 120;
     pow := fun b x => Qpower b (Qfloor x) * (1 + (x - floorf x) * (b - 1));
     pi := 13176795 # 4194304 |}.

(** [juce::Random]: the 48-bit linear congruential generator.
    [nextInt] advances [seed] to [(seed * 0x5deece66d + 11) & 0xffffffffffff]
    and returns its upper 32 bits; [nextFloat] divides them, as an
    unsigned value, by 2^32 and caps the result below 1. *)
Definition lcg_next (seed : Z) : Z :=
  Z.land (seed * 25214903917 + 11) 281474976710655.

Definition random : RandomOps :=
  {| Random := Z;
     nextFloat := fun seed =>
       let seed := lcg_next seed in
       let result := inject_Z (Z.shiftr seed 16) / 4294967296 in
       (jmin result (1 - (1 # 8388608)), seed) |}.

(** [juce::ADSR]. *)
Inductive State := idle | attacking | decaying | sustaining | releasing.

Record Envelope := mkEnvelope {
  state : State;
  parameters : ADSRParameters;
  envSampleRate : Q;
  envelopeVal : Q;
  attackRate : Q;
  decayRate : Q;
  releaseRate : Q
}.

Definition reset (e : Envelope) : Envelope :=
  mkEnvelope idle (parameters e) (envSampleRate e) 0
             (attackRate e) (decayRate e) (releaseRate e).

Definition goToNextState (e : Envelope) : Envelope :=
  match state e with
  | attacking =>
      mkEnvelope (if Qltb 0 (decayRate e) then decaying else sustaining)
                 (parameters e) (envSampleRate e) (envelopeVal e)
                 (attackRate e) (decayRate e) (releaseRate e)
  | decaying =>
      mkEnvelope sustaining (parameters e) (envSampleRate e) (envelopeVal e)
                 (attackRate e) (decayRate e) (releaseRate e)
  | releasing => reset e
  | _ => e
  end.

Definition getRate (distance timeInSeconds sr : Q) : Q :=
  if Qltb 0 timeInSeconds then distance / (timeInSeconds * sr) else -1.

Definition setParameters (newParameters : ADSRParameters) (e : Envelope) : Envelope :=
  let e := mkEnvelope (state e) newParameters (envSampleRate e) (envelopeVal e)
             (getRate 1 (attack newParameters) (envSampleRate e))
             (getRate (1 - sustain newParameters) (decay newParameters) (envSampleRate e))
             (getRate (sustain newParameters) (release newParameters) (envSampleRate e)) in
  match state e with
  | attacking => if Qleb (attackRate e) 0 then goToNextState e else e
  | decaying =>
      if Qleb (decayRate e) 0 || Qleb (envelopeVal e) (sustain (parameters e))
      then goToNextState e else e
  | releasing => if Qleb (releaseRate e) 0 then goToNextState e else e
  | _ => e
  end.

Definition noteOn (e : Envelope) : Envelope :=
  if Qltb 0 (attackRate e) then
    mkEnvelope attacking (parameters e) (envSampleRate e) (envelopeVal e)
               (attackRate e) (decayRate e) (releaseRate e)
  else if Qltb 0 (decayRate e) then
    mkEnvelope decaying (parameters e) (envSampleRate e) 1
               (attackRate e) (decayRate e) (releaseRate e)
  else
    mkEnvelope sustaining (parameters e) (envSampleRate e) (sustain (parameters e))
               (attackRate e) (decayRate e) (releaseRate e).

Definition noteOff (e : Envelope) : Envelope :=
  match state e with
  | idle => e
  | _ =>
      if Qltb 0 (release (parameters e)) then
        mkEnvelope releasing (parameters e) (envSampleRate e) (envelopeVal e)
                   (attackRate e) (decayRate e)
                   (envelopeVal e / (release (parameters e) * envSampleRate e))
      else reset e
  end.

Definition isActive (e : Envelope) : bool :=
  match state e with
  | idle => false
  | _ => true
  end.

Definition set_envelopeVal (x : Q) (e : Envelope) : Envelope :=
  mkEnvelope (state e) (parameters e) (envSampleRate e) x
             (attackRate e) (decayRate e) (releaseRate e).

Definition getNextSample (e : Envelope) : Q * Envelope :=
  match state e with
  | idle => (0, e)
  | attacking =>
      let e := set_envelopeVal (envelopeVal e + attackRate e) e in
      let e := if Qgeb (envelopeVal e) 1
               then goToNextState (set_envelopeVal 1 e) else e in
      (envelopeVal e, e)
  | decaying =>
      let e := set_envelopeVal (envelopeVal e - decayRate e) e in
      let e := if Qleb (envelopeVal e) (sustain (parameters e))
               then goToNextState (set_envelopeVal (sustain (parameters e)) e)
               else e in
      (envelopeVal e, e)
  | sustaining =>
      let e := set_envelopeVal (sustain (parameters e)) e in
      (envelopeVal e, e)
  | releasing =>
      let e := set_envelopeVal (envelopeVal e - releaseRate e) e in
      let e := if Qleb (envelopeVal e) 0 then goToNextState e else e in
      (envelopeVal e, e)
  end.

(** The default-constructed envelope (sample rate 44100, parameters
    0.1 / 0.1 / 1.0 / 0.1). *)
Definition fresh : Envelope :=
  setParameters (mkParams 0.1 0.1 1 0.1)
    (mkEnvelope idle (mkParams 0.1 0.1 1 0.1) 44100 0 0 0 0).

Definition adsr : ADSROps :=
  {| ADSR := Envelope;
     adsr_setParameters := setParameters;
     adsr_noteOn := noteOn;
     adsr_noteOff := noteOff;
     adsr_isActive := isActive;
     adsr_getNextSample := getNextSample |}.

End Reference.

(** * Concrete scenarios

    The engine on the reference instances, with small samples. *)

Module Scenario.

Local Existing Instance Reference.libm.
Local Existing Instance Reference.random.
Local Existing Instance Reference.adsr.

(** The default value of every parameter of [createParameterLayout]. *)
Definition default_parameters : APVTS := fun id =>
  if String.eqb id "master_volume" then 0.7
  else if String.eqb id "env_attack" then 0.01
  else if String.eqb id "env_decay" then 0.1
  else if String.eqb id "env_sustain" then 0.8
  else if String.eqb id "env_release" then 0.5
  else if String.eqb id "filter_cutoff" then 1000
  else if String.eqb id "filter_resonance" then 1
  else if String.eqb id "lfo1_rate" then 1
  else if String.eqb id "lfo2_rate" then 1
  else if String.eqb id "lfo3_rate" then 1
  else 0.

(** A mono sample of [n] frames, all of value 1, at 44100 Hz with root
    note 60 and the whole keyboard as its range. *)
Definition flat (n : nat) (loopStart loopEnd : Q) (loopEnabled : bool)
    (loopMode : Z) : SampleData :=
  {| audioData := mkBuffer (Z.of_nat n) [repeat 1 n];
     sampleRate := 44100; rootNote := 60;
     lowestNote := 0; highestNote := 127;
     loopStart := loopStart; loopEnd := loopEnd;
     loopEnabled := loopEnabled; loopMode := loopMode;
     name := "flat"; filePath := "flat.wav" |}.

(** Twelve frames, default loop bounds (frames 3 to 9), ping-pong. *)
Definition pingpong12 : SampleData := flat 12 0.25 0.75 true 2.


(** The sample of the worked example: 1000 frames, loop from 0.2 to
    0.8, forward. *)
Definition forward1000 : SampleData := flat 1000 0.2 0.8 true 0.

(** No file decodes. *)
Definition no_decoder : AudioFormatManager := fun _ => None.

Definition engine (samples : list SampleData) : SampleEngine.t :=
  SampleEngine.mk samples no_decoder.

Definition matrix : ModulationMatrix.t :=
  ModulationMatrix.mk
    (ModulationMatrix.mk_lfos (LFO.init 1%Z) (LFO.init 2%Z) (LFO.init 3%Z)) ∅ ∅.

(** The processor after construction, with the given samples loaded. *)
Definition processor (samples : list SampleData) : Processor.t :=
  Processor.mk default_parameters (engine samples) matrix
               (repeat 0 16) (repeat false 16).

(** Voice 0 after construction and [setValueTreeState]. *)
Definition voice0 : Voice.t :=
  Voice.setValueTreeState attached (Voice.init 0 0 Reference.fresh).

(** A voice in the middle of a note on sample 0, with the given cursor,
    direction and increment. *)
Definition playing (currentPosition positionIncrement : Q)
    (loopingForward : bool) : Voice.t :=
  Voice.set_loopingForward loopingForward
    (Voice.set_positionIncrement positionIncrement
       (Voice.set_currentPosition currentPosition
          (Voice.set_currentSample (Some 0%nat)
             (Voice.set_adsr (Reference.noteOn (Voice.adsr voice0)) voice0)))).

(** A stereo output block of [n] silent frames. *)
Definition silence (n : nat) : AudioBuffer :=
  mkBuffer (Z.of_nat n) [repeat 0 n; repeat 0 n].

(** The voice and processor of a render outcome, or the arguments when
    the outcome is an error. *)
Definition after {A} (fallback : A) (m : Mem A) : A :=
  match m.2 with
  | Ok a => a
  | _ => fallback
  end.

(** A decoder that knows one file, a mono stream of four frames. *)
Definition good_file : File := mkFile "ok" "ok.wav".
Definition bad_file : File := mkFile "bad" "bad.wav".

Definition one_file_decoder : AudioFormatManager := fun file =>
  if String.eqb (getFullPathName file) "ok.wav"
  then Some (mkReader 48000 1 4 (fun _ _ => 1))
  else None.

(** Two samples splitting the keyboard at note 60. *)
Definition low_half : SampleData :=
  mkSample (mkBuffer 4 [repeat 1 4]) 44100 48 0 59 0.25 0.75 false 0 "low" "low.wav".
Definition high_half : SampleData :=
  mkSample (mkBuffer 4 [repeat 1 4]) 44100 72 60 127 0.25 0.75 false 0 "high" "high.wav".

(** An oscillator on the random waveform at 1 Hz, sampled at 4 Hz: the
    phase wraps every fourth call. *)
Definition random_lfo : LFO.t := LFO.mk 4 1 4 0 0 (42%Z : Random).

(** A forced note-off in the middle of a note: voice 0 is struck on a
    64-frame sample at its root note and full velocity, renders four
    frames, receives [stopNote] with tail-off disallowed, and renders
    four more frames into a silent block. *)
Definition studio : Processor.t := processor [flat 64 0.25 0.75 false 0].

Definition struck : Voice.t * Processor.t :=
  after (voice0, studio) (Voice.startNote 60 1 voice0 studio).

Definition sounding : Voice.render_state :=
  after (silence 4, struck.1, struck.2)
        (Voice.renderNextBlock (silence 4) 0 4 struck.1 struck.2).

Definition forced_off : Voice.t := Voice.stopNote 0 false sounding.1.2.

Definition afterwards : Voice.render_state :=
  after (silence 4, forced_off, sounding.2)
        (Voice.renderNextBlock (silence 4) 0 4 forced_off sounding.2).

(** Note 96 on the twelve-frame ping-pong sample (three octaves above
    its root), then two frames rendered. *)
Definition struck_high : Voice.t * Processor.t :=
  after (voice0, processor [pingpong12])
        (Voice.startNote 96 1 voice0 (processor [pingpong12])).

Definition two_frames_later : Voice.render_state :=
  after (silence 2, struck_high.1, struck_high.2)
        (Voice.renderNextBlock (silence 2) 0 2 struck_high.1 struck_high.2).

End Scenario.

(** * Further scenarios *)

Module Cases.

Local Existing Instance Reference.libm.
Local Existing Instance Reference.random.
Local Existing Instance Reference.adsr.

(** An oscillator at 1 Hz sampled at 1000 Hz, at the start of its
    cycle. *)
Definition oscillator (waveform : Z) : LFO.t :=
  LFO.mk 1000 1 waveform 0 0 (42%Z : Random).

(** The default parameters with the three oscillators on waveforms 1, 2
    and 3 at half amount. *)
Definition parameters : APVTS := fun id =>
  if String.eqb id "lfo1_waveform" then 1
  else if String.eqb id "lfo2_waveform" then 2
  else if String.eqb id "lfo3_waveform" then 3
  else if String.eqb id "lfo1_amount" then 0.5
  else if String.eqb id "lfo2_amount" then 0.5
  else if String.eqb id "lfo3_amount" then 0.5
  else Scenario.default_parameters id.

(** A filter that hands the block back unchanged. *)
Definition bypass : FilterOps :=
  {| FilterState := unit;
     filter_process := fun _ _ st buffer => (buffer, st) |}.

Definition filter : @FilterEngine.t bypass :=
  @FilterEngine.mk bypass 1000 1 tt nullptr.

(** The default parameters with another base cutoff, and a matrix whose
    filter-cutoff destination holds a given value. *)
Definition with_cutoff (cutoff : Q) : APVTS := fun id =>
  if String.eqb id "filter_cutoff" then cutoff
  else Scenario.default_parameters id.

Definition biased (value : Q) : ModulationMatrix.t :=
  ModulationMatrix.mk (ModulationMatrix.lfos Scenario.matrix) ∅
                      {[ FilterCutoff := value ]}.

Definition unknown12 : SampleData := Scenario.flat 12 0.25 0.75 true 3.
Definition oneshot12 : SampleData := Scenario.flat 12 0.25 0.75 false 0.

(** Twenty seconds at 44100 Hz, looping forward up to the marker
    10442371 / 2^24. *)
Definition long_forward : SampleData :=
  mkSample (mkBuffer 882000 [repeat 0 (Z.to_nat 882000)]) 44100 60 0 127
           0.25 (10442371 # 16777216) true 0 "long" "long.wav".

(** The same length with the start marker there and a loop mode the
    switch does not know. *)
Definition long_unknown : SampleData :=
  mkSample (mkBuffer 882000 [repeat 0 (Z.to_nat 882000)]) 44100 60 0 127
           (10442371 # 16777216) 1 true 3 "long" "long.wav".

(** [2^24 + 3] frames, with the end marker at the end of the sample.
    Only the length of the buffer matters here. *)
Definition very_long : SampleData :=
  mkSample (mkBuffer 16777219 []) 44100 60 0 127 0.25 1 true 0
           "very long" "very_long.wav".

(** A disk with the two files of [Scenario]; only the first decodes. *)
Definition disk : FileSystem :=
  {| File_of_path := fun path =>
       if String.eqb path "ok.wav" then Scenario.good_file
       else if String.eqb path "bad.wav" then Scenario.bad_file
       else mkFile "" path;
     existsAsFile := fun file =>
       String.eqb (getFullPathName file) "ok.wav"
       || String.eqb (getFullPathName file) "bad.wav" |}.

(** The decoded file after its range and loop were edited. *)
Definition edited : SampleData :=
  mkSample (mkBuffer 4 [repeat 1 4]) 48000 48 10 20 0.1 0.9 true 2 "ok" "ok.wav".

(** The saved child of a file that no longer decodes. *)
Definition bad_child : SampleState :=
  mkSampleState (Some "bad.wav") (Some "bad") (Some 60%Z) (Some 30%Z)
                (Some 40%Z) (Some 0.5) (Some 0.6) (Some true) (Some 1%Z).

(** Grab the start marker at a quarter of a 400-pixel display and pull it
    right past the end marker, then pull it back to the left edge. *)
Definition gestures : list WaveformDisplay.callback :=
  [WaveformDisplay.MouseDown 100; WaveformDisplay.MouseDrag 350;
   WaveformDisplay.MouseUp;
   WaveformDisplay.MouseDown 296; WaveformDisplay.MouseDrag (-20);
   WaveformDisplay.MouseUp].

End Cases.

(** * Properties *)

(** ** Comparisons and truncation *)

Lemma Qgeb_true (x y : Q) : Qgeb x y = true <-> y <= x.
Proof. unfold Qgeb. apply Qle_bool_iff. Qed.

Lemma Qgeb_false (x y : Q) : Qgeb x y = false <-> x < y.
Proof.
  unfold Qgeb. split; intros Hx.
  - apply Qnot_le_lt. intros Hle. apply Qle_bool_iff in Hle. congruence.
  - destruct (Qle_bool y x) eqn:E; [|reflexivity].
    apply Qle_bool_iff in E. lra.
Qed.



Lemma Qltb_true (x y : Q) : Qltb x y = true <-> x < y.
Proof.
  unfold Qltb. rewrite negb_true_iff. apply (Qgeb_false x y).
Qed.

Lemma Qltb_false (x y : Q) : Qltb x y = false <-> y <= x.
Proof.
  unfold Qltb. rewrite negb_false_iff. apply Qle_bool_iff.
Qed.

(** Truncation of a non-negative value is its floor. *)
Lemma to_int_nonneg (x : Q) :
  0 <= x -> (0 <= to_int x)%Z /\ inject_Z (to_int x) <= x < inject_Z (to_int x + 1).
Proof.
  intros Hx. unfold to_int.
  assert (Hb : Qle_bool 0 x = true) by (apply Qle_bool_iff; exact Hx).
  rewrite Hb. split.
  - change 0%Z with (Qfloor (inject_Z 0)). apply Qfloor_resp_le. exact Hx.
  - split; [apply Qfloor_le | apply Qlt_floor].
Qed.

Lemma to_int_below (x : Q) (n : Z) :
  0 <= x -> x < inject_Z n -> (to_int x < n)%Z.
Proof.
  intros Hx Hn. destruct (to_int_nonneg x Hx) as [_ [Hlo _]].
  assert (Hlt : inject_Z (to_int x) < inject_Z n) by lra.
  rewrite <- Zlt_Qlt in Hlt. exact Hlt.
Qed.

(** ** Rounding to [float] *)

Lemma pow2_pos (e : Z) : 0 < 2 ^ e.
Proof. apply Qpower_0_lt. reflexivity. Qed.

Lemma pow2_add (a b : Z) : 2 ^ (a + b) == 2 ^ a * 2 ^ b.
Proof. apply Qpower_plus. discriminate. Qed.

Lemma pow2_le (a b : Z) : (a <= b)%Z -> 2 ^ a <= 2 ^ b.
Proof. intros Hab. apply Qpower_le_compat_l; [exact Hab | discriminate]. Qed.

Lemma pow2_lt (a b : Z) : (a < b)%Z -> 2 ^ a < 2 ^ b.
Proof. intros Hab. apply Qpower_lt_compat_l; [exact Hab | reflexivity]. Qed.

(** A non-negative power of two is an integer. *)
Lemma pow2_Z (n : Z) : (0 <= n)%Z -> 2 ^ n == inject_Z (2 ^ n).
Proof. intros Hn. rewrite Zpower_Qpower by exact Hn. reflexivity. Qed.

(** The nearest integer. *)

Lemma rne_floor (x : Q) : rne x = Qfloor x \/ rne x = (Qfloor x + 1)%Z.
Proof.
  unfold rne. destruct (Qcompare _ _); [destruct (Z.even _)| |]; auto.
Qed.

Lemma rne_Z (n : Z) : rne (inject_Z n) = n.
Proof.
  unfold rne. rewrite Qfloor_Z.
  assert (E : Qcompare (inject_Z n - inject_Z n) (1 # 2) = Lt).
  { rewrite <- Qlt_alt. lra. }
  rewrite E. reflexivity.
Qed.

Lemma rne_le (x y : Q) : x <= y -> (rne x <= rne y)%Z.
Proof.
  intros Hxy.
  pose proof (Qfloor_resp_le _ _ Hxy) as Hf.
  destruct (Z.eq_dec (Qfloor x) (Qfloor y)) as [Heq|Hne].
  - unfold rne. rewrite <- Heq.
    destruct (Qcompare (x - inject_Z (Qfloor x)) (1 # 2)) eqn:Ex;
      destruct (Qcompare (y - inject_Z (Qfloor x)) (1 # 2)) eqn:Ey;
      try rewrite <- Qeq_alt in *; try rewrite <- Qlt_alt in *;
      try rewrite <- Qgt_alt in *;
      try (destruct (Z.even (Qfloor x))); try lia; try lra.
  - destruct (rne_floor x) as [-> | ->], (rne_floor y) as [-> | ->]; lia.
Qed.

Lemma rne_comp (x y : Q) : x == y -> rne x = rne y.
Proof.
  intros Hxy. apply Z.le_antisymm; apply rne_le; lra.
Qed.

Lemma rne_error (x : Q) : - (1 # 2) <= inject_Z (rne x) - x <= 1 # 2.
Proof.
  pose proof (Qfloor_le x) as Hlo. pose proof (Qlt_floor x) as Hhi.
  rewrite inject_Z_plus in Hhi. change (inject_Z 1) with 1 in Hhi.
  unfold rne.
  destruct (Qcompare (x - inject_Z (Qfloor x)) (1 # 2)) eqn:Ex;
    try rewrite <- Qeq_alt in Ex; try rewrite <- Qlt_alt in Ex;
    try rewrite <- Qgt_alt in Ex;
    try (destruct (Z.even (Qfloor x)));
    try rewrite inject_Z_plus; try change (inject_Z 1) with 1; lra.
Qed.

(** The binade of a positive rational. *)

Lemma log2_bounds (n : Z) :
  (0 < n)%Z ->
  2 ^ Z.log2 n <= inject_Z n < 2 ^ (Z.log2 n + 1).
Proof.
  intros Hn. destruct (Z.log2_spec n Hn) as [Hlo Hhi].
  pose proof (Z.log2_nonneg n) as Hnn.
  rewrite !pow2_Z by lia. rewrite <- Zle_Qle, <- Zlt_Qlt.
  change (Z.succ (Z.log2 n)) with (Z.log2 n + 1)%Z in Hhi. lia.
Qed.

Lemma ilog2_spec (x : Q) :
  0 < x -> 2 ^ ilog2 x <= x < 2 ^ (ilog2 x + 1).
Proof.
  intros Hx. unfold ilog2.
  assert (Hn : (0 < Qnum x)%Z).
  { unfold Qlt in Hx. cbn in Hx. lia. }
  destruct (log2_bounds (Qnum x) Hn) as [Ha1 Ha2].
  destruct (log2_bounds (Zpos (Qden x)) eq_refl) as [Hb1 Hb2].
  set (a := Z.log2 (Qnum x)) in *. set (b := Z.log2 (Zpos (Qden x))) in *.
  assert (HxD : x * inject_Z (Zpos (Qden x)) == inject_Z (Qnum x)).
  { destruct x as [n d]. unfold Qeq, Qmult, inject_Z.
    cbn [Qnum Qden]. rewrite Pos.mul_1_r. ring. }
  set (A := inject_Z (Qnum x)) in *. set (D := inject_Z (Zpos (Qden x))) in *.
  rewrite pow2_add in Ha2, Hb2. change (2 ^ 1) with 2 in Ha2, Hb2.
  pose proof (pow2_pos a) as Hpa. pose proof (pow2_pos b) as Hpb.
  assert (Hk : 2 ^ (a - b) * 2 ^ b == 2 ^ a).
  { rewrite <- pow2_add. replace (a - b + b)%Z with a by lia. reflexivity. }
  pose proof (pow2_pos (a - b)) as Hpk.
  assert (Hup : x < 2 ^ (a - b) * 2).
  { apply Qnot_le_lt. intros Hc.
    assert (2 ^ (a - b) * 2 * 2 ^ b <= x * D) by nra. nra. }
  assert (Hdown : 2 ^ (a - b) < x * 2).
  { apply Qnot_le_lt. intros Hc.
    assert (x * D < 2 ^ (a - b) * 2 ^ b) by nra. nra. }
  destruct (Qle_bool (2 ^ (a - b)) x) eqn:E.
  - apply Qle_bool_iff in E. split; [exact E|].
    rewrite pow2_add. change (2 ^ 1) with 2. exact Hup.
  - assert (Hlt : x < 2 ^ (a - b)).
    { apply Qnot_le_lt. intros Hc. apply Qle_bool_iff in Hc. congruence. }
    replace (a - b - 1 + 1)%Z with (a - b)%Z by lia.
    split; [|exact Hlt].
    assert (Hh : 2 ^ (a - b - 1) * 2 == 2 ^ (a - b)).
    { rewrite <- (pow2_add (a - b - 1) 1).
      replace (a - b - 1 + 1)%Z with (a - b)%Z by lia. reflexivity. }
    lra.
Qed.

Lemma ilog2_unique (x : Q) (k : Z) :
  2 ^ k <= x < 2 ^ (k + 1) -> ilog2 x = k.
Proof.
  intros [Hlo Hhi].
  assert (Hx : 0 < x) by (pose proof (pow2_pos k); lra).
  destruct (ilog2_spec x Hx) as [Hlo' Hhi'].
  destruct (Z.lt_trichotomy (ilog2 x) k) as [Hlt | [Heq | Hgt]]; [|exact Heq|].
  - assert (2 ^ (ilog2 x + 1) <= 2 ^ k) by (apply pow2_le; lia). lra.
  - assert (2 ^ (k + 1) <= 2 ^ ilog2 x) by (apply pow2_le; lia). lra.
Qed.

Lemma ilog2_le (x y : Q) : 0 < x -> x <= y -> (ilog2 x <= ilog2 y)%Z.
Proof.
  intros Hx Hxy.
  destruct (ilog2_spec x Hx) as [Hlo _].
  destruct (ilog2_spec y ltac:(lra)) as [_ Hhi].
  destruct (Z_le_gt_dec (ilog2 x) (ilog2 y)) as [Hle|Hgt]; [exact Hle|].
  assert (2 ^ (ilog2 y + 1) <= 2 ^ ilog2 x) by (apply pow2_le; lia). lra.
Qed.

(** The rounding itself. *)

Lemma div_pow2 (m : Q) (e : Z) : m / 2 ^ e == m * 2 ^ (- e).
Proof. unfold Qdiv. rewrite Qpower_opp. reflexivity. Qed.

Lemma pow2_cancel (a b : Z) : 2 ^ a * 2 ^ (- b) == 2 ^ (a - b).
Proof. rewrite <- pow2_add. reflexivity. Qed.

Lemma scaled_le (x y : Q) (e : Z) : x <= y -> x / 2 ^ e <= y / 2 ^ e.
Proof.
  intros Hxy. rewrite !div_pow2.
  apply Qmult_le_compat_r; [exact Hxy|]. apply Qlt_le_weak, pow2_pos.
Qed.

Lemma round32_zero (m : Q) : m == 0 -> round32 m == 0.
Proof.
  intros Hm. unfold round32.
  rewrite (rne_comp (m / 2 ^ fexp32 m) (inject_Z 0)).
  - rewrite rne_Z. apply Qmult_0_l.
  - unfold Qdiv.
    rewrite (Qmult_comp _ _ Hm _ _ (Qeq_refl (/ 2 ^ fexp32 m))).
    apply Qmult_0_l.
Qed.

Lemma round32_nonneg (m : Q) : 0 <= m -> 0 <= round32 m.
Proof.
  intros Hm. unfold round32.
  apply Qmult_le_0_compat; [|apply Qlt_le_weak, pow2_pos].
  change 0 with (inject_Z 0). rewrite <- Zle_Qle.
  rewrite <- (rne_Z 0). apply rne_le.
  rewrite div_pow2. apply Qmult_le_0_compat; [exact Hm|].
  apply Qlt_le_weak, pow2_pos.
Qed.

Lemma fexp32_le (x y : Q) : 0 < x -> x <= y -> (fexp32 x <= fexp32 y)%Z.
Proof.
  intros Hx Hxy. unfold fexp32. pose proof (ilog2_le x y Hx Hxy). lia.
Qed.

(** Rounding at the exponent [e] maps [[0, 2^k]] into itself when
    [2^k] is a multiple of [2^e]. *)
Lemma round_at_le_pow2 (x : Q) (e k : Z) :
  (e <= k)%Z -> x <= 2 ^ k ->
  inject_Z (rne (x / 2 ^ e)) * 2 ^ e <= 2 ^ k.
Proof.
  intros Hek Hx.
  assert (Hs : x / 2 ^ e <= inject_Z (2 ^ (k - e))).
  { rewrite <- pow2_Z by lia. rewrite <- pow2_cancel, <- div_pow2.
    apply scaled_le. exact Hx. }
  apply rne_le in Hs. rewrite rne_Z in Hs. rewrite Zle_Qle in Hs.
  rewrite <- pow2_Z in Hs by lia.
  assert (Hk : 2 ^ (k - e) * 2 ^ e == 2 ^ k).
  { rewrite <- pow2_add. replace (k - e + e)%Z with k by lia. reflexivity. }
  rewrite <- Hk. apply Qmult_le_compat_r; [exact Hs|].
  apply Qlt_le_weak, pow2_pos.
Qed.

Lemma round_at_ge_pow2 (x : Q) (e k : Z) :
  (e <= k)%Z -> 2 ^ k <= x ->
  2 ^ k <= inject_Z (rne (x / 2 ^ e)) * 2 ^ e.
Proof.
  intros Hek Hx.
  assert (Hs : inject_Z (2 ^ (k - e)) <= x / 2 ^ e).
  { rewrite <- pow2_Z by lia. rewrite <- pow2_cancel, <- div_pow2.
    apply scaled_le. exact Hx. }
  apply rne_le in Hs. rewrite rne_Z in Hs. rewrite Zle_Qle in Hs.
  rewrite <- pow2_Z in Hs by lia.
  assert (Hk : 2 ^ (k - e) * 2 ^ e == 2 ^ k).
  { rewrite <- pow2_add. replace (k - e + e)%Z with k by lia. reflexivity. }
  rewrite <- Hk. apply Qmult_le_compat_r; [exact Hs|].
  apply Qlt_le_weak, pow2_pos.
Qed.

Lemma round32_le (x y : Q) : 0 <= x -> x <= y -> round32 x <= round32 y.
Proof.
  intros Hx Hxy.
  destruct (Qeq_dec x 0) as [Hx0|Hx0].
  { rewrite (round32_zero x Hx0). apply round32_nonneg. lra. }
  assert (Hxp : 0 < x) by (apply Qnot_le_lt; intros Hc; apply Hx0; lra).
  assert (Hyp : 0 < y) by lra.
  pose proof (fexp32_le x y Hxp Hxy) as He.
  destruct (Z.eq_dec (fexp32 x) (fexp32 y)) as [Heq|Hne].
  - unfold round32. rewrite Heq.
    apply Qmult_le_compat_r; [|apply Qlt_le_weak, pow2_pos].
    rewrite <- Zle_Qle. apply rne_le, scaled_le. exact Hxy.
  - destruct (ilog2_spec x Hxp) as [_ Hxhi].
    destruct (ilog2_spec y Hyp) as [Hylo _].
    unfold fexp32 in He, Hne.
    assert (Hk : (ilog2 x + 1 <= ilog2 y)%Z) by lia.
    assert (Hey : fexp32 y = (ilog2 y - 23)%Z) by (unfold fexp32; lia).
    assert (Hex : (fexp32 x <= ilog2 y)%Z) by (unfold fexp32; lia).
    apply Qle_trans with (2 ^ ilog2 y).
    + unfold round32. apply round_at_le_pow2; [exact Hex|].
      pose proof (pow2_le _ _ Hk). lra.
    + unfold round32. apply round_at_ge_pow2; [lia | exact Hylo].
Qed.

Lemma round32_comp (x y : Q) : 0 <= x -> x == y -> round32 x == round32 y.
Proof.
  intros Hx Hxy. apply Qle_antisym; apply round32_le; lra.
Qed.

(** The rounding error is at most half a unit of the last place. *)
Lemma round32_error (m : Q) (k : Z) :
  0 <= m -> m < 2 ^ (k + 1) -> (-126 <= k)%Z ->
  - 2 ^ (k - 24) <= round32 m - m <= 2 ^ (k - 24).
Proof.
  intros Hm Hk Hmin.
  destruct (Qeq_dec m 0) as [Hm0|Hm0].
  { rewrite (round32_zero m Hm0), Hm0. pose proof (pow2_pos (k - 24)). lra. }
  assert (Hmp : 0 < m) by (apply Qnot_le_lt; intros Hc; apply Hm0; lra).
  destruct (ilog2_spec m Hmp) as [Hlo _].
  assert (Hik : (ilog2 m <= k)%Z).
  { destruct (Z_le_gt_dec (ilog2 m) k) as [Hle|Hgt]; [exact Hle|].
    assert (2 ^ (k + 1) <= 2 ^ ilog2 m) by (apply pow2_le; lia). lra. }
  assert (He : (fexp32 m <= k - 23)%Z) by (unfold fexp32; lia).
  unfold round32. set (e := fexp32 m) in *.
  pose proof (rne_error (m / 2 ^ e)) as Herr.
  pose proof (pow2_pos e) as Hpe.
  assert (Hme : m / 2 ^ e * 2 ^ e == m).
  { unfold Qdiv. rewrite <- Qmult_assoc, (Qmult_comm (/ 2 ^ e)).
    rewrite Qmult_inv_r by lra. ring. }
  assert (Hhalf : 2 ^ e <= 2 * 2 ^ (k - 24)).
  { change 2 with (2 ^ 1) at 2. rewrite <- pow2_add. apply pow2_le. lia. }
  set (z := m / 2 ^ e) in *. set (r := inject_Z (rne z)) in *.
  nra.
Qed.

(** A multiple of a power of two with a short enough mantissa is a
    [float]. *)
Lemma round32_exact (n e : Z) :
  (0 <= n)%Z ->
  (fexp32 (inject_Z n * 2 ^ e) <= e)%Z ->
  round32 (inject_Z n * 2 ^ e) == inject_Z n * 2 ^ e.
Proof.
  intros Hn He. unfold round32.
  set (f := fexp32 (inject_Z n * 2 ^ e)) in *.
  assert (Hz : inject_Z n * 2 ^ e / 2 ^ f == inject_Z (n * 2 ^ (e - f))).
  { rewrite div_pow2, <- Qmult_assoc, pow2_cancel.
    rewrite inject_Z_mult, <- pow2_Z by lia. reflexivity. }
  rewrite (rne_comp _ _ Hz), rne_Z.
  rewrite inject_Z_mult, <- pow2_Z by lia.
  rewrite <- Qmult_assoc, <- pow2_add.
  replace (e - f + f)%Z with e by lia. reflexivity.
Qed.

Lemma round32_Z (n : Z) :
  (0 <= n <= 2 ^ 24)%Z -> round32 (inject_Z n) == inject_Z n.
Proof.
  intros [Hlo Hhi].
  destruct (Z.eq_dec n 0%Z) as [->|Hn0]; [apply round32_zero; reflexivity|].
  destruct (Z.eq_dec n (2 ^ 24)%Z) as [->|Hn24].
  - vm_compute. reflexivity.
  - assert (Hk : (ilog2 (inject_Z n) <= 23)%Z).
    { assert (Hp : 0 < inject_Z n).
      { change 0 with (inject_Z 0). rewrite <- Zlt_Qlt. lia. }
      destruct (ilog2_spec _ Hp) as [Hl _].
      destruct (Z_le_gt_dec (ilog2 (inject_Z n)) 23) as [Hle|Hgt]; [exact Hle|].
      assert (H24 : 2 ^ 24 <= 2 ^ ilog2 (inject_Z n)) by (apply pow2_le; lia).
      rewrite (pow2_Z 24) in H24 by lia.
      assert (Hc : inject_Z (2 ^ 24) <= inject_Z n) by lra.
      rewrite <- Zle_Qle in Hc. lia. }
    assert (Hn1 : inject_Z n == inject_Z n * 2 ^ 0) by (change (2 ^ 0) with 1; ring).
    assert (Hf : (fexp32 (inject_Z n * 2 ^ 0) <= 0)%Z).
    { unfold fexp32.
      assert (Hi : ilog2 (inject_Z n * 2 ^ 0) = ilog2 (inject_Z n)).
      { assert (Hp : 0 < inject_Z n).
        { change 0 with (inject_Z 0). rewrite <- Zlt_Qlt. lia. }
        apply ilog2_unique. rewrite <- Hn1. apply ilog2_spec. exact Hp. }
      rewrite Hi. lia. }
    assert (Hnn : 0 <= inject_Z n).
    { change 0 with (inject_Z 0). rewrite <- Zle_Qle. lia. }
    rewrite (round32_comp _ _ Hnn Hn1).
    rewrite (round32_exact n 0 Hlo Hf). symmetry. exact Hn1.
Qed.

Lemma fl32_nonneg (x : Q) : 0 <= x -> 0 <= fl32 x.
Proof.
  intros Hx. unfold fl32.
  assert (Hb : Qle_bool 0 x = true) by (apply Qle_bool_iff; exact Hx).
  rewrite Hb. apply round32_nonneg, Qabs_nonneg.
Qed.

Lemma fl32_pos_eq (x : Q) : 0 <= x -> fl32 x == round32 x.
Proof.
  intros Hx. unfold fl32.
  assert (Hb : Qle_bool 0 x = true) by (apply Qle_bool_iff; exact Hx).
  rewrite Hb. apply round32_comp; [apply Qabs_nonneg|]. apply Qabs_pos. exact Hx.
Qed.

Lemma fl32_neg_eq (x : Q) : x < 0 -> fl32 x == - round32 (- x).
Proof.
  intros Hx. unfold fl32.
  assert (Hb : Qle_bool 0 x = false).
  { destruct (Qle_bool 0 x) eqn:E; [|reflexivity].
    apply Qle_bool_iff in E. lra. }
  rewrite Hb. apply Qopp_comp.
  apply round32_comp; [apply Qabs_nonneg|]. apply Qabs_neg. lra.
Qed.

(** Rounding is monotone. *)
Lemma fl32_le (x y : Q) : x <= y -> fl32 x <= fl32 y.
Proof.
  intros Hxy.
  destruct (Qlt_le_dec x 0) as [Hx|Hx], (Qlt_le_dec y 0) as [Hy|Hy].
  - rewrite (fl32_neg_eq x Hx), (fl32_neg_eq y Hy).
    apply Qopp_le_compat. apply round32_le; lra.
  - rewrite (fl32_neg_eq x Hx).
    pose proof (round32_nonneg (- x) ltac:(lra)).
    pose proof (fl32_nonneg y Hy). lra.
  - lra.
  - rewrite (fl32_pos_eq x Hx), (fl32_pos_eq y Hy). apply round32_le; assumption.
Qed.

Lemma fl32_comp (x y : Q) : x == y -> fl32 x == fl32 y.
Proof. intros Hxy. apply Qle_antisym; apply fl32_le; lra. Qed.

Lemma fl32_Z (n : Z) : (0 <= n <= 2 ^ 24)%Z -> fl32 (inject_Z n) == inject_Z n.
Proof.
  intros Hn. rewrite fl32_pos_eq.
  - apply round32_Z. exact Hn.
  - change 0 with (inject_Z 0). rewrite <- Zle_Qle. lia.
Qed.

(** Below 2 in magnitude the rounding error is at most [2^-24]. *)
Lemma fl32_error (x : Q) :
  -2 < x < 2 -> - (1 # 16777216) <= fl32 x - x <= 1 # 16777216.
Proof.
  intros [Hlo Hhi].
  assert (Hp : 2 ^ (0 - 24) == 1 # 16777216) by reflexivity.
  destruct (Qlt_le_dec x 0) as [Hx|Hx].
  - rewrite (fl32_neg_eq x Hx).
    pose proof (round32_error (- x) 0 ltac:(lra) ltac:(change (2 ^ (0 + 1)) with 2; lra)
                  ltac:(lia)) as He.
    rewrite Hp in He. lra.
  - rewrite (fl32_pos_eq x Hx).
    pose proof (round32_error x 0 Hx ltac:(change (2 ^ (0 + 1)) with 2; lra)
                  ltac:(lia)) as He.
    rewrite Hp in He. lra.
Qed.

(** Below 1 in magnitude it is at most [2^-25]. *)
Lemma fl32_error_unit (x : Q) :
  -1 < x < 1 -> - (1 # 33554432) <= fl32 x - x <= 1 # 33554432.
Proof.
  intros [Hlo Hhi].
  assert (Hp : 2 ^ (-1 - 24) == 1 # 33554432) by reflexivity.
  destruct (Qlt_le_dec x 0) as [Hx|Hx].
  - rewrite (fl32_neg_eq x Hx).
    pose proof (round32_error (- x) (-1) ltac:(lra)
                  ltac:(change (2 ^ (-1 + 1)) with 1; lra) ltac:(lia)) as He.
    rewrite Hp in He. lra.
  - rewrite (fl32_pos_eq x Hx).
    pose proof (round32_error x (-1) Hx
                  ltac:(change (2 ^ (-1 + 1)) with 1; lra) ltac:(lia)) as He.
    rewrite Hp in He. lra.
Qed.

(** Truncation is monotone on non-negative values. *)
Lemma to_int_le (x y : Q) : 0 <= x -> x <= y -> (to_int x <= to_int y)%Z.
Proof.
  intros Hx Hxy.
  destruct (to_int_nonneg x Hx) as (_ & Hx1 & _).
  destruct (to_int_nonneg y ltac:(lra)) as (_ & _ & Hy2).
  assert (Hlt : inject_Z (to_int x) < inject_Z (to_int y + 1)) by lra.
  rewrite <- Zlt_Qlt in Hlt. lia.
Qed.

(** ** The memory monad *)

Lemma Mem_bind_Ok {A B} (f : A -> Mem B) (tr : list Z) (a : A) :
  mbind f ((tr, Ok a) : Mem A) = (tr ++ (f a).1, (f a).2).
Proof. unfold mbind, Mem_mbind, Mem_bind. destruct (f a); reflexivity. Qed.

Lemma Mem_bind_ret {A B} (f : A -> Mem B) (a : A) :
  mbind f (mret a : Mem A) = f a.
Proof.
  unfold mret, Mem_mret, Mem_ret. rewrite Mem_bind_Ok. destruct (f a); reflexivity.
Qed.

(** ** LFO: the random waveform *)

Section LFO_random.
Context `{Libm} `{RandomOps}.

(** One call on the random waveform, entered with the phase below 1:
    the held value is returned and only the phase moves. *)
Lemma getNextSample_random_held (l : LFO.t) :
  LFO.waveform l = 4%Z ->
  LFO.phase l < 1 ->
  LFO.frequency l / LFO.sampleRate l < 1 ->
  exists ph, ph < 1 /\
    LFO.getNextSample l = (LFO.randomValue l, LFO.set_phase ph l).
Proof.
  intros Hw Hp Hinc. unfold LFO.getNextSample. rewrite Hw.
  unfold LFO.redraw.
  assert (Hg : Qgeb (LFO.phase l) 1 = false) by (apply Qgeb_false; exact Hp).
  rewrite Hg. cbn [LFO.set_phase LFO.phase LFO.frequency LFO.sampleRate].
  destruct (Qgeb (LFO.phase l + LFO.frequency l / LFO.sampleRate l) 1) eqn:E.
  - eexists; split; [|reflexivity]. lra.
  - eexists; split; [|reflexivity]. apply Qgeb_false in E. exact E.
Qed.

(** C1 (as the code behaves).  With the random waveform selected, the
    phase below 1 on entry and a per-sample increment [frequency /
    sampleRate] below 1, any number of [getNextSample] calls returns the
    value held at the start every time, and neither the held value nor
    the generator changes: the wrap at the end of a call brings the phase
    back below 1 before the next call tests [phase >= 1.0f], so no new
    value is ever drawn, however often the phase wraps. *)
Theorem lfo_random_never_redraws (n : nat) (l : LFO.t) :
  LFO.waveform l = 4%Z ->
  LFO.phase l < 1 ->
  LFO.frequency l / LFO.sampleRate l < 1 ->
  (LFO.run n l).1 = repeat (LFO.randomValue l) n
  /\ LFO.randomValue (LFO.run n l).2 = LFO.randomValue l
  /\ LFO.random (LFO.run n l).2 = LFO.random l.
Proof.
  revert l. induction n as [|n IH]; intros l Hw Hp Hinc.
  - repeat split.
  - destruct (getNextSample_random_held l Hw Hp Hinc) as (ph & Hph & Hcall).
    cbn [LFO.run]. rewrite Hcall.
    specialize (IH (LFO.set_phase ph l) Hw Hph Hinc).
    destruct (LFO.run n (LFO.set_phase ph l)) as [os l'].
    cbn [fst snd] in *. destruct IH as (Hos & Hrv & Hr).
    cbn [LFO.set_phase LFO.randomValue LFO.random] in *.
    repeat split; [|assumption|assumption].
    cbn [repeat]. rewrite Hos. reflexivity.
Qed.
End LFO_random.

(** ** Sample engine: note lookup *)

Lemma in_range_iff (noteNumber : Z) (sample : SampleData) :
  SampleEngine.in_range noteNumber sample = true
  <-> (lowestNote sample <= noteNumber <= highestNote sample)%Z.
Proof. unfold SampleEngine.in_range. rewrite andb_true_iff. lia. Qed.

Lemma first_in_range_Some (noteNumber : Z) (l : list SampleData) (k j : nat)
    (sample : SampleData) :
  l !! j = Some sample ->
  SampleEngine.in_range noteNumber sample = true ->
  (forall j' s', (j' < j)%nat -> l !! j' = Some s' ->
                 SampleEngine.in_range noteNumber s' = false) ->
  SampleEngine.first_in_range noteNumber l k = Some (k + j)%nat.
Proof.
  revert k j. induction l as [|s0 l IH]; intros k j Hj Hin Hbefore.
  - discriminate.
  - cbn [SampleEngine.first_in_range]. destruct j as [|j].
    + cbn in Hj. injection Hj as ->. rewrite Hin. f_equal. lia.
    + rewrite (Hbefore 0%nat s0) by (lia || reflexivity).
      rewrite (IH (S k) j).
      * f_equal. lia.
      * exact Hj.
      * exact Hin.
      * intros j' s' Hlt Hl. apply (Hbefore (S j') s'); [lia | exact Hl].
  Qed.

Lemma first_in_range_None (noteNumber : Z) (l : list SampleData) (k : nat) :
  (forall s, s ∈ l -> SampleEngine.in_range noteNumber s = false) ->
  SampleEngine.first_in_range noteNumber l k = None.
Proof.
  revert k. induction l as [|s0 l IH]; intros k Hall; [reflexivity|].
  cbn [SampleEngine.first_in_range].
  rewrite (Hall s0) by apply list_elem_of_here.
  apply IH. intros s Hs. apply Hall. apply list_elem_of_further. exact Hs.
Qed.

Lemma first_in_range_bound (noteNumber : Z) (l : list SampleData) (k i : nat) :
  SampleEngine.first_in_range noteNumber l k = Some i ->
  (k <= i < k + length l)%nat.
Proof.
  revert k. induction l as [|s0 l IH]; intros k Hf; [discriminate|].
  cbn [SampleEngine.first_in_range] in Hf.
  destruct (SampleEngine.in_range noteNumber s0).
  - injection Hf as <-. cbn. lia.
  - apply IH in Hf. cbn. lia.
Qed.

(** C4.  [getSampleForNote] returns the first sample, in load order, whose
    inclusive range [lowestNote, highestNote] contains the note; when no
    range contains it and the vector is not empty it returns the first
    sample loaded; it returns the null pointer exactly when the vector is
    empty. *)
Theorem getSampleForNote_first_match_or_first_loaded
    (noteNumber : Z) (e : SampleEngine.t) :
  (forall i sample,
      SampleEngine.samples e !! i = Some sample ->
      (lowestNote sample <= noteNumber <= highestNote sample)%Z ->
      (forall j s', (j < i)%nat -> SampleEngine.samples e !! j = Some s' ->
                    ~ (lowestNote s' <= noteNumber <= highestNote s')%Z) ->
      SampleEngine.getSampleForNote noteNumber e = Some i)
  /\ ((forall s, s ∈ SampleEngine.samples e ->
                 ~ (lowestNote s <= noteNumber <= highestNote s)%Z) ->
      SampleEngine.samples e <> [] ->
      SampleEngine.getSampleForNote noteNumber e = Some 0%nat)
  /\ (SampleEngine.getSampleForNote noteNumber e = None
      <-> SampleEngine.samples e = []).
Proof.
  unfold SampleEngine.getSampleForNote. split; [|split].
  - intros i sample Hi Hin Hbefore.
    rewrite (first_in_range_Some noteNumber _ 0 i sample Hi).
    + reflexivity.
    + apply in_range_iff. exact Hin.
    + intros j s' Hlt Hj. apply not_true_is_false. intros Hr.
      apply in_range_iff in Hr. exact (Hbefore j s' Hlt Hj Hr).
  - intros Hnone Hne. rewrite first_in_range_None.
    + destruct (SampleEngine.samples e); [contradiction | reflexivity].
    + intros s Hs. apply not_true_is_false. intros Hr.
      apply in_range_iff in Hr. exact (Hnone s Hs Hr).
  - destruct (SampleEngine.first_in_range noteNumber (SampleEngine.samples e) 0)
      as [i|] eqn:E.
    + apply first_in_range_bound in E.
      split; [discriminate|]. intros Hnil. rewrite Hnil in E. cbn in E. lia.
    + destruct (SampleEngine.samples e); split; intros; congruence.
Qed.

(** ** Sample engine: loading *)

(** C9 (amended).  A load whose decoding fails leaves the engine exactly as
    it was; a load whose decoding succeeds appends one sample, after all
    those already present, with loop bounds 0.25 and 0.75, note range 0 to
    127, the given root note, looping off in forward mode, and a
    well-formed buffer.  In both cases the call returns nothing: the only
    trace of a failure is the unchanged vector.  The call without a root
    note uses 60. *)
Theorem loadSample_appends_or_leaves_unchanged
    (file : File) (root : Z) (e : SampleEngine.t) :
  (SampleEngine.formatManager e file = None ->
   SampleEngine.loadSample file root e = (tt, e))
  /\ (forall reader,
        SampleEngine.formatManager e file = Some reader ->
        exists sample,
          SampleEngine.loadSample file root e
          = (tt, SampleEngine.mk (SampleEngine.samples e ++ [sample])
                                 (SampleEngine.formatManager e))
          /\ loopStart sample = 0.25 /\ loopEnd sample = 0.75
          /\ lowestNote sample = 0%Z /\ highestNote sample = 127%Z
          /\ rootNote sample = root
          /\ loopEnabled sample = false /\ loopMode sample = 0%Z
          /\ sampleRate sample = reader_sampleRate reader
          /\ buffer_wf (audioData sample))
  /\ SampleEngine.loadSample_default file e = SampleEngine.loadSample file 60 e.
Proof.
  unfold SampleEngine.loadSample_default, SampleEngine.loadSample.
  split; [|split].
  - intros Hnone. rewrite Hnone. destruct e; reflexivity.
  - intros reader Hsome. rewrite Hsome. eexists. split; [reflexivity|].
    cbn. repeat split.
    unfold buffer_wf, read_into_buffer. cbn.
    apply Forall_forall. intros c Hc.
    apply list_elem_of_In, in_map_iff in Hc. destruct Hc as (ch & <- & _).
    rewrite length_map, length_seq. reflexivity.
  - reflexivity.
Qed.

(** ** Filter engine *)

Section Filter.
Context `{Libm} `{RandomOps} `{FilterOps}.

Lemma jlimit_bounds (lo hi v : Q) : lo <= hi -> lo <= jlimit lo hi v <= hi.
Proof.
  intros Hle. unfold jlimit.
  destruct (Qltb v lo) eqn:E1.
  - lra.
  - apply Qltb_false in E1. destruct (Qltb hi v) eqn:E2.
    + lra.
    + apply Qltb_false in E2. lra.
Qed.

(** C8.  With the modulation matrix connected, the cutoff the filter
    runs with for the block is the base cutoff plus the modulation value
    times the base cutoff whenever that sum lies between 20 and 20000; it
    is 20 when the sum is below 20 and 20000 when the sum is above 20000.
    The resonance is the raw parameter, whatever its value; the block is
    filtered with exactly these two settings. *)
Theorem filter_cutoff_fractional_bias (valueTreeState : APVTS)
    (matrix : ModulationMatrix.t) (buffer : AudioBuffer) (e : FilterEngine.t) :
  let cutoff := valueTreeState "filter_cutoff" in
  let cutoffMod := ModulationMatrix.getModulationValue FilterCutoff matrix in
  let modulated := cutoff + cutoffMod * cutoff in
  let res := valueTreeState "filter_resonance" in
  let out :=
    FilterEngine.processBlock valueTreeState matrix buffer
      (FilterEngine.setModulationMatrix attached e) in
  (20 <= modulated <= 20000 -> FilterEngine.cutoffFrequency out.2 = modulated)
  /\ (modulated < 20 -> FilterEngine.cutoffFrequency out.2 = 20)
  /\ (20000 < modulated -> FilterEngine.cutoffFrequency out.2 = 20000)
  /\ FilterEngine.resonance out.2 = res
  /\ out.1 = (filter_process (FilterEngine.cutoffFrequency out.2) res
                             (FilterEngine.filterState e) buffer).1.
Proof.
  cbn zeta. unfold FilterEngine.processBlock.
  cbn [FilterEngine.setModulationMatrix FilterEngine.modMatrix
       FilterEngine.setCutoffFrequency FilterEngine.setResonance
       FilterEngine.cutoffFrequency FilterEngine.resonance
       FilterEngine.filterState].
  destruct (filter_process _ _ _ _) as [b st] eqn:E.
  cbn [fst snd FilterEngine.cutoffFrequency FilterEngine.resonance].
  split; [|split; [|split; [|split]]].
  - intros [Hlo Hhi]. unfold jlimit.
    assert (E1 : Qltb (valueTreeState "filter_cutoff"
                       + ModulationMatrix.getModulationValue FilterCutoff matrix
                         * valueTreeState "filter_cutoff") 20 = false)
      by (apply Qltb_false; exact Hlo).
    assert (E2 : Qltb 20000
                   (valueTreeState "filter_cutoff"
                    + ModulationMatrix.getModulationValue FilterCutoff matrix
                      * valueTreeState "filter_cutoff") = false)
      by (apply Qltb_false; exact Hhi).
    rewrite E1, E2. reflexivity.
  - intros Hlow. unfold jlimit.
    apply Qltb_true in Hlow. rewrite Hlow. reflexivity.
  - intros Hhigh. unfold jlimit.
    assert (E1 : Qltb (valueTreeState "filter_cutoff"
                       + ModulationMatrix.getModulationValue FilterCutoff matrix
                         * valueTreeState "filter_cutoff") 20 = false)
      by (apply Qltb_false; lra).
    apply Qltb_true in Hhigh. rewrite E1, Hhigh. reflexivity.
  - reflexivity.
  - rewrite E. reflexivity.
Qed.
End Filter.

(** ** Modulation matrix *)

Section Matrix.
Context `{Libm} `{RandomOps}.

(** The last of [n + 1] calls is a call on the oscillator left by the
    first [n]. *)
Lemma run_snoc (n : nat) (l : LFO.t) :
  LFO.run (S n) l
  = ((LFO.run n l).1 ++ [(LFO.getNextSample (LFO.run n l).2).1],
     (LFO.getNextSample (LFO.run n l).2).2).
Proof.
  revert l. induction n as [|n IH]; intros l.
  - cbn. destruct (LFO.getNextSample l); reflexivity.
  - change (LFO.run (S (S n)) l)
      with (let '(o, l1) := LFO.getNextSample l in
            let '(os, l2) := LFO.run (S n) l1 in (o :: os, l2)).
    change (LFO.run (S n) l)
      with (let '(o, l1) := LFO.getNextSample l in
            let '(os, l2) := LFO.run n l1 in (o :: os, l2)).
    destruct (LFO.getNextSample l) as [o l1].
    rewrite (IH l1).
    destruct (LFO.run n l1) as [os l2]. reflexivity.
Qed.

Lemma run_length (n : nat) (l : LFO.t) : length (LFO.run n l).1 = n.
Proof.
  revert l. induction n as [|n IH]; intros l; [reflexivity|].
  cbn [LFO.run]. destruct (LFO.getNextSample l) as [o l1].
  specialize (IH l1). destruct (LFO.run n l1). cbn in *. lia.
Qed.

Lemma map_index_fst (k : ModulationSource) (src : gmap ModulationSource Q) :
  (map_index k src).1 = held k src.
Proof. unfold map_index, held. destruct (src !! k); reflexivity. Qed.

Lemma map_index_held (k k' : ModulationSource) (src : gmap ModulationSource Q) :
  held k' (map_index k src).2 = held k' src.
Proof.
  unfold map_index, held. destruct (src !! k) eqn:E; [reflexivity|].
  cbn [snd]. destruct (decide (k = k')) as [->|Hne].
  - rewrite lookup_insert_eq, E. reflexivity.
  - rewrite lookup_insert_ne by exact Hne. reflexivity.
Qed.

(** The sample loop of [processBlock] runs the three oscillators
    independently and leaves under each source the last sample of its
    oscillator. *)
Lemma iter_tick (n : nat) (m : ModulationMatrix.t) :
  let m' := Nat.iter n ModulationMatrix.tick m in
  let a := ModulationMatrix.lfos m in
  ModulationMatrix.lfos m'
  = ModulationMatrix.mk_lfos
      (LFO.run n (ModulationMatrix.lfo_0 a)).2
      (LFO.run n (ModulationMatrix.lfo_1 a)).2
      (LFO.run n (ModulationMatrix.lfo_2 a)).2
  /\ ModulationMatrix.destinationValues m' = ModulationMatrix.destinationValues m
  /\ held LFO1 (ModulationMatrix.sourceValues m')
     = List.last (LFO.run n (ModulationMatrix.lfo_0 a)).1
                 (held LFO1 (ModulationMatrix.sourceValues m))
  /\ held LFO2 (ModulationMatrix.sourceValues m')
     = List.last (LFO.run n (ModulationMatrix.lfo_1 a)).1
                 (held LFO2 (ModulationMatrix.sourceValues m))
  /\ held LFO3 (ModulationMatrix.sourceValues m')
     = List.last (LFO.run n (ModulationMatrix.lfo_2 a)).1
                 (held LFO3 (ModulationMatrix.sourceValues m)).
Proof.
  cbn zeta. induction n as [|n IH].
  - cbn. destruct m as [[? ? ?] ? ?]. repeat split.
  - destruct IH as (Hl & Hd & H1 & H2 & H3).
    rewrite !run_snoc. cbn [fst snd]. rewrite !last_last.
    change (Nat.iter (S n) ModulationMatrix.tick m)
      with (ModulationMatrix.tick (Nat.iter n ModulationMatrix.tick m)).
    set (mi := Nat.iter n ModulationMatrix.tick m) in *.
    unfold ModulationMatrix.tick. rewrite Hl. cbn [ModulationMatrix.lfo_0 ModulationMatrix.lfo_1
                     ModulationMatrix.lfo_2].
    destruct (LFO.getNextSample (LFO.run n _).2) as [o1 l1].
    destruct (LFO.getNextSample (LFO.run n _).2) as [o2 l2].
    destruct (LFO.getNextSample (LFO.run n _).2) as [o3 l3].
    cbn [ModulationMatrix.lfos ModulationMatrix.destinationValues
         ModulationMatrix.sourceValues fst snd].
    unfold held. repeat split.
    + exact Hd.
    + rewrite lookup_insert_ne, lookup_insert_ne, lookup_insert_eq by discriminate.
      reflexivity.
    + rewrite lookup_insert_ne, lookup_insert_eq by discriminate. reflexivity.
    + rewrite lookup_insert_eq. reflexivity.
Qed.

(** C7.  [processBlock] empties the destination map and then writes
    exactly three entries.  Each oscillator, once configured from the
    parameters, produces [numSamples] successive samples, and only the
    last of them (for an empty block: the value its source already held)
    is used: FilterCutoff is the last sample of oscillator 1 times
    [lfo1_amount] times 0.5, Pitch the last of oscillator 2 times
    [lfo2_amount] times 0.1, Volume the last of oscillator 3 times
    [lfo3_amount] times 0.3.  Every other destination reads 0. *)
Theorem processBlock_three_fixed_routings (valueTreeState : APVTS)
    (numSamples : Z) (m : ModulationMatrix.t) :
  let m' := ModulationMatrix.processBlock valueTreeState numSamples m in
  let produced i :=
    (LFO.run (Z.to_nat numSamples)
       (ModulationMatrix.updateLFO valueTreeState i
          (ModulationMatrix.lfo_at i (ModulationMatrix.lfos m)))).1 in
  let lastSample i k :=
    List.last (produced i) (held k (ModulationMatrix.sourceValues m)) in
  let cutoffBias := lastSample 0%nat LFO1 * valueTreeState "lfo1_amount" * 0.5 in
  let pitchBias := lastSample 1%nat LFO2 * valueTreeState "lfo2_amount" * 0.1 in
  let volumeBias := lastSample 2%nat LFO3 * valueTreeState "lfo3_amount" * 0.3 in
  (forall i, length (produced i) = Z.to_nat numSamples)
  /\ ModulationMatrix.destinationValues m'
     = <[Volume := volumeBias]> (<[Pitch := pitchBias]>
         (<[FilterCutoff := cutoffBias]> ∅))
  /\ forall d,
       ModulationMatrix.getModulationValue d m'
       = match d with
         | FilterCutoff => cutoffBias
         | Pitch => pitchBias
         | Volume => volumeBias
         | _ => 0
         end.
Proof.
  cbn zeta. split; [intros i; apply run_length|].
  assert (Hdst :
    ModulationMatrix.destinationValues
      (ModulationMatrix.processBlock valueTreeState numSamples m)
    = <[Volume :=
          List.last (LFO.run (Z.to_nat numSamples)
              (ModulationMatrix.updateLFO valueTreeState 2
                 (ModulationMatrix.lfo_at 2 (ModulationMatrix.lfos m)))).1
            (held LFO3 (ModulationMatrix.sourceValues m))
          * valueTreeState "lfo3_amount" * 0.3]>
        (<[Pitch :=
             List.last (LFO.run (Z.to_nat numSamples)
                 (ModulationMatrix.updateLFO valueTreeState 1
                    (ModulationMatrix.lfo_at 1 (ModulationMatrix.lfos m)))).1
               (held LFO2 (ModulationMatrix.sourceValues m))
             * valueTreeState "lfo2_amount" * 0.1]>
           (<[FilterCutoff :=
                List.last (LFO.run (Z.to_nat numSamples)
                    (ModulationMatrix.updateLFO valueTreeState 0
                       (ModulationMatrix.lfo_at 0 (ModulationMatrix.lfos m)))).1
                  (held LFO1 (ModulationMatrix.sourceValues m))
                * valueTreeState "lfo1_amount" * 0.5]> ∅))).
  { unfold ModulationMatrix.processBlock.
    cbn [fold_left ModulationMatrix.lfo_update ModulationMatrix.lfo_at
         ModulationMatrix.lfo_0 ModulationMatrix.lfo_1 ModulationMatrix.lfo_2].
    match goal with
    | |- context [Nat.iter ?n ModulationMatrix.tick ?m0] =>
        destruct (iter_tick n m0) as (_ & Hd & H1 & H2 & H3);
        set (mi := Nat.iter n ModulationMatrix.tick m0) in *
    end.
    cbn [ModulationMatrix.lfos ModulationMatrix.sourceValues
         ModulationMatrix.destinationValues ModulationMatrix.lfo_0
         ModulationMatrix.lfo_1 ModulationMatrix.lfo_2] in Hd, H1, H2, H3.
    pose proof (map_index_fst LFO1 (ModulationMatrix.sourceValues mi)) as F1.
    pose proof (map_index_held LFO1 LFO2 (ModulationMatrix.sourceValues mi)) as K12.
    pose proof (map_index_held LFO1 LFO3 (ModulationMatrix.sourceValues mi)) as K13.
    destruct (map_index LFO1 (ModulationMatrix.sourceValues mi)) as [s1 src1].
    cbn [fst snd] in F1, K12, K13.
    pose proof (map_index_fst LFO2 src1) as F2.
    pose proof (map_index_held LFO2 LFO3 src1) as K23.
    destruct (map_index LFO2 src1) as [s2 src2]. cbn [fst snd] in F2, K23.
    pose proof (map_index_fst LFO3 src2) as F3.
    destruct (map_index LFO3 src2) as [s3 src3]. cbn [fst snd] in F3.
    cbn [ModulationMatrix.destinationValues].
    rewrite Hd, F1, F2, F3, K12, K23, K13, H1, H2, H3. reflexivity. }
  split; [exact Hdst|].
  intros d. unfold ModulationMatrix.getModulationValue. rewrite Hdst.
  destruct d;
    repeat (first [ rewrite lookup_insert_eq
                  | rewrite lookup_insert_ne by discriminate
                  | rewrite lookup_empty ]);
    reflexivity.
Qed.
End Matrix.

(** ** Voice: note-on *)

Section Voice_note_on.
Context `{Libm} `{RandomOps} `{ADSROps}.

(** The pointer [getSampleForNote] returns designates an element of the
    vector. *)
Lemma getSampleForNote_valid (noteNumber : Z) (e : SampleEngine.t) (ptr : nat) :
  SampleEngine.getSampleForNote noteNumber e = Some ptr ->
  exists sample, SampleEngine.samples e !! ptr = Some sample.
Proof.
  unfold SampleEngine.getSampleForNote. intros Hg.
  destruct (SampleEngine.first_in_range noteNumber (SampleEngine.samples e) 0)
    as [i|] eqn:E.
  - injection Hg as <-. apply first_in_range_bound in E.
    apply lookup_lt_is_Some_2. lia.
  - destruct (SampleEngine.samples e) as [|s0 l]; [discriminate|].
    injection Hg as <-. exists s0. reflexivity.
Qed.

(** [startNote] never dereferences a dangling pointer and reads no sample
    memory. *)
Lemma startNote_defined (midiNoteNumber : Z) (vel : Q) (v : Voice.t)
    (p : Processor.t) :
  exists st, Voice.startNote midiNoteNumber vel v p = ([], Ok st).
Proof.
  unfold Voice.startNote.
  cbn [Voice.set_currentSample Voice.currentSample].
  destruct (SampleEngine.getSampleForNote midiNoteNumber (Processor.sampleEngine p))
    as [ptr|] eqn:E.
  - destruct (getSampleForNote_valid _ _ _ E) as [sample Hs].
    unfold deref. rewrite Hs. rewrite Mem_bind_Ok.
    destruct (getNumSamples (audioData sample) =? 0)%Z; eexists; reflexivity.
  - eexists; reflexivity.
Qed.

(** C6.  A note-on that resolves a sample with at least one frame sets
    the cursor increment to [pow (2, (note - rootNote) / 12) *
    sample.sampleRate / getSampleRate ()], where [getSampleRate ()] is the
    playback rate the base class of the voice holds, and starts the cursor
    at 0 going forward.  With a [pow] that is exact at integer exponents
    the ratio is 2 one octave above the root (note 72 on root 60) and 1/2
    one octave below (note 48), so the increment is twice, or half,
    [sample.sampleRate / getSampleRate ()]. *)
Theorem startNote_pitch_ratio `{!LibmExact} (midiNoteNumber : Z) (vel : Q)
    (v : Voice.t) (p : Processor.t) (ptr : nat) (sample : SampleData) :
  SampleEngine.getSampleForNote midiNoteNumber (Processor.sampleEngine p) = Some ptr ->
  SampleEngine.samples (Processor.sampleEngine p) !! ptr = Some sample ->
  getNumSamples (audioData sample) <> 0%Z ->
  exists v' p',
    Voice.startNote midiNoteNumber vel v p = ([], Ok (v', p'))
    /\ Voice.positionIncrement v'
       = pow 2 (of_int (midiNoteNumber - rootNote sample) / 12)
         * sampleRate sample / Voice.currentSampleRate v
    /\ Voice.currentPosition v' = 0
    /\ Voice.loopingForward v' = true
    /\ Voice.currentSample v' = Some ptr
    /\ ((midiNoteNumber - rootNote sample = 12)%Z ->
        Voice.pitchRatio midiNoteNumber sample == 2
        /\ Voice.positionIncrement v'
           == 2 * sampleRate sample / Voice.currentSampleRate v)
    /\ ((midiNoteNumber - rootNote sample = -12)%Z ->
        Voice.pitchRatio midiNoteNumber sample == 1 / 2
        /\ Voice.positionIncrement v'
           == 1 / 2 * sampleRate sample / Voice.currentSampleRate v).
Proof.
  intros Hg Hs Hlen. unfold Voice.startNote.
  cbn [Voice.set_currentSample Voice.currentSample]. rewrite Hg.
  unfold deref. rewrite Hs, Mem_bind_Ok.
  apply Z.eqb_neq in Hlen. rewrite Hlen.
  assert (Hrate : Voice.currentSampleRate (Voice.updateADSRParams p v)
                  = Voice.currentSampleRate v).
  { unfold Voice.updateADSRParams. destruct (Voice.valueTreeState v); reflexivity. }
  eexists _, _. split; [reflexivity|].
  cbn [Voice.positionIncrement Voice.currentPosition Voice.loopingForward
       Voice.currentSample Voice.set_adsr Voice.set_loopingForward
       Voice.set_currentPosition Voice.set_positionIncrement
       Voice.set_velocity Voice.set_noteNumber Voice.set_currentSample
       Voice.currentSampleRate Voice.getSampleRate].
  rewrite Hrate. unfold Voice.pitchRatio.
  split; [reflexivity|]. split; [reflexivity|]. split; [reflexivity|].
  split; [reflexivity|]. split.
  - intros H12. rewrite H12.
    assert (Hp : pow 2 (of_int 12 / 12) == 2)
      by (rewrite (pow_exact 2 _ 1); reflexivity).
    split; [exact Hp|]. rewrite Hp. reflexivity.
  - intros H12. rewrite H12.
    assert (Hp : pow 2 (of_int (-12) / 12) == 1 / 2)
      by (rewrite (pow_exact 2 _ (-1)); reflexivity).
    split; [exact Hp|]. rewrite Hp. reflexivity.
Qed.
End Voice_note_on.

(** ** Voice: cursor advance inside the loop *)

Section Voice_loops.
Context `{Libm} `{RandomOps} `{ADSROps}.


Lemma engaged (sample : SampleData) (ls : Z) (v : Voice.t) :
  loopEnabled sample = true ->
  of_int ls <= Voice.currentPosition v ->
  loopEnabled sample && Qgeb (Voice.currentPosition v) (of_int ls) = true.
Proof.
  intros -> Hpos. apply andb_true_iff. split; [reflexivity|].
  apply Qgeb_true. exact Hpos.
Qed.

(** [advance] leaves the increment of the note as it is. *)
Lemma advance_positionIncrement (sample : SampleData) (len ls le : Z) (inc : Q)
    (v : Voice.t) :
  Voice.positionIncrement (Voice.advance sample len ls le inc v).2
  = Voice.positionIncrement v.
Proof.
  unfold Voice.advance.
  destruct (loopEnabled sample && Qgeb (Voice.currentPosition v) (of_int ls)).
  - cbn [snd].
    destruct (loopMode sample) as [|[[m|m|]|[m|m|]|]|m]; try reflexivity.
    + destruct (Qgeb _ _); reflexivity.
    + destruct (Voice.loopingForward v);
        [destruct (Qgeb _ _) | destruct (Qleb _ _)]; reflexivity.
    + destruct (Qleb _ _); reflexivity.
  - destruct (Qgeb _ _); [|reflexivity].
    cbn [snd]. destruct (adsr_isActive _); reflexivity.
Qed.

(** What one iteration of the render loop does to the cursor: it is the
    cursor [advance] computes, with the increment of the note scaled by
    the pitch modulation, from a voice with the cursor and direction the
    iteration started with.  The increment and the modulation matrix are
    the same after the iteration. *)
Lemma renderSample_cursor (currentSampleData : SampleData) (sampleData : list Q)
    (sampleDataRight : option (list Q)) (sampleLength ls le start k : Z)
    (out out' : AudioBuffer) (v v' : Voice.t) (p p' : Processor.t)
    (tr : list Z) (continue : bool) :
  Voice.renderSample currentSampleData sampleData sampleDataRight sampleLength
                     ls le start k (out, v, p)
  = (tr, Ok (continue, (out', v', p'))) ->
  exists w,
    Voice.currentPosition w = Voice.currentPosition v
    /\ Voice.loopingForward w = Voice.loopingForward v
    /\ Voice.currentPosition v'
       = Voice.currentPosition
           (Voice.advance currentSampleData sampleLength ls le
              (Voice.positionIncrement v
               * pow 2 (ModulationMatrix.getModulationValue Pitch
                          (Processor.modMatrix p))) w).2
    /\ Voice.loopingForward v'
       = Voice.loopingForward
           (Voice.advance currentSampleData sampleLength ls le
              (Voice.positionIncrement v
               * pow 2 (ModulationMatrix.getModulationValue Pitch
                          (Processor.modMatrix p))) w).2
    /\ Voice.positionIncrement v' = Voice.positionIncrement v
    /\ Processor.modMatrix p' = Processor.modMatrix p.
Proof.
  unfold Voice.renderSample.
  destruct (Voice.fetch _ _ _ _) as [tr0 [fetched| |]];
    [|discriminate|discriminate].
  rewrite Mem_bind_Ok.
  destruct (adsr_getNextSample _) as [envelopeValue a].
  cbn [Voice.scale].
  set (w := Voice.set_adsr a
              (Voice.set_normalizedPosition
                 (Voice.currentPosition v / of_int sampleLength) v)).
  cbn [Voice.positionIncrement Voice.set_adsr Voice.set_normalizedPosition
       Processor.modMatrix Processor.store_voicePositions].
  pose proof (advance_positionIncrement currentSampleData sampleLength ls le
                (Voice.positionIncrement v
                 * pow 2 (ModulationMatrix.getModulationValue Pitch
                            (Processor.modMatrix p))) w) as Hinc.
  destruct (Voice.advance currentSampleData sampleLength ls le _ w)
    as [stop v2] eqn:Eadv.
  cbn [snd] in Hinc.
  intros Heq. exists w. rewrite Eadv. cbn [snd].
  split; [reflexivity|]. split; [reflexivity|].
  destruct stop; [|destruct (negb (adsr_isActive (Voice.adsr v2)))];
    cbn [Voice.retire mret Mem_mret Mem_ret fst snd] in Heq;
    injection Heq as _ _ <- <- <-;
    repeat split; try reflexivity; exact Hinc.
Qed.

(** A property of the cursor and the direction that every advance with
    the block's increment preserves holds after the render loop if it
    holds before. *)
Lemma renderLoop_cursor_invariant (I : Q -> bool -> Prop)
    (currentSampleData : SampleData) (sampleData : list Q)
    (sampleDataRight : option (list Q)) (sampleLength ls le start : Z)
    (inc0 : Q) (matrix : ModulationMatrix.t) :
  (forall w,
      I (Voice.currentPosition w) (Voice.loopingForward w) ->
      let w' := (Voice.advance currentSampleData sampleLength ls le
                   (inc0 * pow 2 (ModulationMatrix.getModulationValue Pitch matrix))
                   w).2 in
      I (Voice.currentPosition w') (Voice.loopingForward w')) ->
  forall (n : nat) (k : Z) out v p tr out' v' p',
    Voice.positionIncrement v = inc0 ->
    Processor.modMatrix p = matrix ->
    I (Voice.currentPosition v) (Voice.loopingForward v) ->
    Voice.renderLoop currentSampleData sampleData sampleDataRight sampleLength
                     ls le start n k (out, v, p)
    = (tr, Ok (out', v', p')) ->
    I (Voice.currentPosition v') (Voice.loopingForward v').
Proof.
  intros Hstep. induction n as [|n IH];
    intros k out v p tr out' v' p' Hinc Hmat Hinv Hrun.
  - cbn in Hrun. injection Hrun as _ _ <- _. exact Hinv.
  - cbn [Voice.renderLoop] in Hrun.
    destruct (Voice.renderSample _ _ _ _ _ _ _ _ _)
      as [tr1 [[continue [[out1 v1] p1]]| |]] eqn:Es;
      [|discriminate|discriminate].
    destruct (renderSample_cursor _ _ _ _ _ _ _ _ _ _ _ _ _ _ _ _ Es)
      as (w & Hw1 & Hw2 & Hpos & Hdir & Hinc1 & Hmat1).
    assert (Hinv1 : I (Voice.currentPosition v1) (Voice.loopingForward v1)).
    { rewrite Hpos, Hdir, Hinc, Hmat. apply Hstep. rewrite Hw1, Hw2. exact Hinv. }
    rewrite Mem_bind_Ok in Hrun. destruct continue.
    + destruct (Voice.renderLoop _ _ _ _ _ _ _ _ _ _)
        as [tr2 [[[out2 v2] p2]| |]] eqn:El;
        cbn [fst snd] in Hrun; [|discriminate|discriminate].
      injection Hrun as _ _ <- _.
      apply (IH (k + 1)%Z out1 v1 p1 tr2 out2 v2 p2); try assumption; congruence.
    + cbn [mret Mem_mret Mem_ret fst snd] in Hrun.
      injection Hrun as _ _ <- _. exact Hinv1.
Qed.

(** The same for a whole render call. *)
Lemma renderNextBlock_cursor_invariant (I : Q -> bool -> Prop)
    (sample : SampleData) (outputBuffer : AudioBuffer)
    (startSample numSamples : Z) (v : Voice.t) (p : Processor.t) (ptr : nat)
    (tr : list Z) (st : Voice.render_state) :
  (forall w,
      I (Voice.currentPosition w) (Voice.loopingForward w) ->
      let w' := (Voice.advance sample (getNumSamples (audioData sample))
                   (Voice.loopStartSample sample) (Voice.loopEndSample sample)
                   (Voice.positionIncrement v
                    * pow 2 (ModulationMatrix.getModulationValue Pitch
                               (Processor.modMatrix p)))
                   w).2 in
      I (Voice.currentPosition w') (Voice.loopingForward w')) ->
  Voice.currentSample v = Some ptr ->
  SampleEngine.samples (Processor.sampleEngine p) !! ptr = Some sample ->
  I (Voice.currentPosition v) (Voice.loopingForward v) ->
  Voice.renderNextBlock outputBuffer startSample numSamples v p = (tr, Ok st) ->
  I (Voice.currentPosition st.1.2) (Voice.loopingForward st.1.2).
Proof.
  intros Hstep Hptr Hs Hinv. unfold Voice.renderNextBlock. rewrite Hptr.
  destruct (negb (adsr_isActive (Voice.adsr v))).
  - cbn [Voice.retire mret Mem_mret Mem_ret]. intros Heq.
    injection Heq as _ <-. exact Hinv.
  - unfold deref. rewrite Hs, Mem_bind_Ok. cbn [app fst snd].
    destruct (Voice.renderLoop _ _ _ _ _ _ _ _ _ _)
      as [tr1 [[[out1 v1] p1]| |]] eqn:El; [|discriminate|discriminate].
    intros Heq. injection Heq as _ <-. cbn [fst snd].
    exact (renderLoop_cursor_invariant I sample _ _ _ _ _ _ _ _ Hstep
             _ _ _ _ _ _ _ _ _ eq_refl eq_refl Hinv El).
Qed.




End Voice_loops.


(** ** Voice: reads of sample memory *)

Section Voice_reads.
Context `{Libm} `{RandomOps} `{ADSROps}.

Lemma read_cases (channel : list Q) (index : Z) :
  (exists x, read channel index = ([index], Ok x))
  \/ read channel index = ([index], OutOfBounds).
Proof.
  unfold read. destruct (index <? 0)%Z; [right; reflexivity|].
  destruct (channel !! Z.to_nat index) as [x|]; [left; eexists|right]; reflexivity.
Qed.

Lemma read_in_bounds (channel : list Q) (index : Z) :
  (0 <= index < Z.of_nat (length channel))%Z ->
  exists x, read channel index = ([index], Ok x).
Proof.
  intros Hi. unfold read.
  destruct (index <? 0)%Z eqn:E; [apply Z.ltb_lt in E; lia|].
  destruct (lookup_lt_is_Some_2 channel (Z.to_nat index)) as [x Hx]; [lia|].
  rewrite Hx. eexists; reflexivity.
Qed.

Ltac mem_simpl :=
  cbn [mbind mret Mem_mbind Mem_bind Mem_mret Mem_ret fst snd app].

(** Closes a [Forall] over an explicit trace of reads. *)
Ltac trace_ok :=
  repeat first
    [ apply List.Forall_nil
    | apply List.Forall_cons;
      [first [reflexivity | left; reflexivity | right; reflexivity | lia]|] ].

(** Outside [0, sampleLength) nothing is read and both samples are 0. *)
Lemma fetch_outside (sampleData : list Q) (sampleDataRight : option (list Q))
    (sampleLength : Z) (currentPosition : Q) :
  ~ (0 <= currentPosition < of_int sampleLength) ->
  Voice.fetch sampleData sampleDataRight sampleLength currentPosition
  = ([], Ok (0, 0)).
Proof.
  intros Hout. unfold Voice.fetch.
  destruct (Qgeb currentPosition 0) eqn:E1; [|reflexivity].
  destruct (Qltb currentPosition (of_int sampleLength)) eqn:E2; [|reflexivity].
  apply Qgeb_true in E1. apply Qltb_true in E2. exfalso. apply Hout. lra.
Qed.

(** Whatever is read is read with the cursor inside [0, sampleLength),
    at [index = (int) currentPosition] or, only when [index <
    sampleLength - 1], at [index + 1]. *)
Lemma fetch_indices (sampleData : list Q) (sampleDataRight : option (list Q))
    (sampleLength : Z) (currentPosition : Q) (i : Z) :
  i ∈ (Voice.fetch sampleData sampleDataRight sampleLength currentPosition).1 ->
  0 <= currentPosition < of_int sampleLength
  /\ (i = to_int currentPosition
      \/ (i = to_int currentPosition + 1
          /\ to_int currentPosition < sampleLength - 1)%Z).
Proof.
  unfold Voice.fetch.
  destruct (Qgeb currentPosition 0) eqn:E1;
    [|cbn; intros Hi; apply elem_of_nil in Hi; contradiction].
  destruct (Qltb currentPosition (of_int sampleLength)) eqn:E2;
    [|cbn; intros Hi; apply elem_of_nil in Hi; contradiction].
  apply Qgeb_true in E1. apply Qltb_true in E2. cbn [andb].
  intros Hi. split; [lra|].
  set (index := to_int currentPosition) in *.
  destruct (index <? sampleLength - 1)%Z eqn:E3.
  - apply Z.ltb_lt in E3.
    assert (Hall : forall tr : list Z,
               i ∈ tr -> Forall (fun j => j = index \/ j = (index + 1)%Z) tr ->
               i = index \/ (i = index + 1 /\ index < sampleLength - 1)%Z).
    { intros tr Hin Hf. rewrite Forall_forall in Hf.
      destruct (Hf i Hin) as [->| ->]; [left | right]; auto. }
    apply (Hall _ Hi). clear Hi Hall.
    destruct (read_cases sampleData index) as [[a ->]| ->]; mem_simpl;
      [|trace_ok].
    destruct (read_cases sampleData (index + 1)) as [[b ->]| ->]; mem_simpl;
      [|trace_ok].
    destruct sampleDataRight as [rightData|]; mem_simpl;
      [|trace_ok].
    destruct (read_cases rightData index) as [[c ->]| ->]; mem_simpl;
      [|trace_ok].
    destruct (read_cases rightData (index + 1)) as [[d ->]| ->]; mem_simpl;
      trace_ok.
  - assert (Hall : forall tr : list Z,
               i ∈ tr -> Forall (fun j => j = index) tr ->
               i = index \/ (i = index + 1 /\ index < sampleLength - 1)%Z).
    { intros tr Hin Hf. rewrite Forall_forall in Hf. left. exact (Hf i Hin). }
    apply (Hall _ Hi). clear Hi Hall.
    destruct (read_cases sampleData index) as [[a ->]| ->]; mem_simpl;
      [|trace_ok].
    destruct sampleDataRight as [rightData|]; mem_simpl;
      [|trace_ok].
    destruct (read_cases rightData index) as [[c ->]| ->]; mem_simpl;
      trace_ok.
Qed.

(** On channels that hold [sampleLength] frames every read succeeds. *)
Lemma fetch_in_bounds (sampleData : list Q) (sampleDataRight : option (list Q))
    (sampleLength : Z) (currentPosition : Q) :
  Z.of_nat (length sampleData) = sampleLength ->
  (forall rightData, sampleDataRight = Some rightData ->
                     Z.of_nat (length rightData) = sampleLength) ->
  exists tr fetched,
    Voice.fetch sampleData sampleDataRight sampleLength currentPosition
    = (tr, Ok fetched)
    /\ Forall (fun i => (0 <= i < sampleLength)%Z) tr.
Proof.
  intros Hleft Hright. unfold Voice.fetch.
  destruct (Qgeb currentPosition 0) eqn:E1;
    [|eexists _, _; split; [reflexivity | constructor]].
  destruct (Qltb currentPosition (of_int sampleLength)) eqn:E2;
    [|eexists _, _; split; [reflexivity | constructor]].
  apply Qgeb_true in E1. apply Qltb_true in E2. cbn [andb].
  destruct (to_int_nonneg currentPosition E1) as [Hnn _].
  pose proof (to_int_below currentPosition sampleLength E1 E2) as Hlt.
  set (index := to_int currentPosition) in *.
  destruct (index <? sampleLength - 1)%Z eqn:E3.
  - apply Z.ltb_lt in E3.
    destruct (read_in_bounds sampleData index) as [a ->]; [lia|].
    destruct (read_in_bounds sampleData (index + 1)) as [b ->]; [lia|].
    mem_simpl. destruct sampleDataRight as [rightData|]; mem_simpl.
    + specialize (Hright rightData eq_refl).
      destruct (read_in_bounds rightData index) as [c ->]; [lia|].
      destruct (read_in_bounds rightData (index + 1)) as [d ->]; [lia|].
      mem_simpl. eexists _, _. split; [reflexivity|].
      trace_ok.
    + eexists _, _. split; [reflexivity|]. trace_ok.
  - destruct (read_in_bounds sampleData index) as [a ->]; [lia|].
    mem_simpl. destruct sampleDataRight as [rightData|]; mem_simpl.
    + specialize (Hright rightData eq_refl).
      destruct (read_in_bounds rightData index) as [c ->]; [lia|].
      mem_simpl. eexists _, _. split; [reflexivity|].
      trace_ok.
    + eexists _, _. split; [reflexivity|]. trace_ok.
Qed.
(** An iteration whose fetch succeeds succeeds, and reads what the fetch
    reads. *)
Lemma renderSample_ok (currentSampleData : SampleData) (sampleData : list Q)
    (sampleDataRight : option (list Q)) (sampleLength ls le start k : Z)
    (out : AudioBuffer) (v : Voice.t) (p : Processor.t)
    (tr : list Z) (fetched : Q * Q) :
  Voice.fetch sampleData sampleDataRight sampleLength (Voice.currentPosition v)
  = (tr, Ok fetched) ->
  exists continue st',
    Voice.renderSample currentSampleData sampleData sampleDataRight sampleLength
                       ls le start k (out, v, p)
    = (tr, Ok (continue, st')).
Proof.
  intros Hf. unfold Voice.renderSample.
  cbn [Voice.set_normalizedPosition Voice.currentPosition Voice.voiceIndex
       Voice.normalizedPosition Voice.adsr Voice.velocity
       Voice.positionIncrement].
  rewrite Hf, Mem_bind_Ok.
  destruct (adsr_getNextSample (Voice.adsr v)) as [envelopeValue a].
  cbn [Voice.scale].
  destruct (Voice.advance _ _ _ _ _ _) as [stop v2].
  destruct stop; [|destruct (negb (adsr_isActive (Voice.adsr v2)))];
    cbn [Voice.retire mret Mem_mret Mem_ret fst snd];
    rewrite app_nil_r; eexists _, _; reflexivity.
Qed.

Lemma renderLoop_in_bounds (currentSampleData : SampleData) (sampleData : list Q)
    (sampleDataRight : option (list Q)) (sampleLength ls le start : Z)
    (n : nat) (k : Z) (st : Voice.render_state) :
  Z.of_nat (length sampleData) = sampleLength ->
  (forall rightData, sampleDataRight = Some rightData ->
                     Z.of_nat (length rightData) = sampleLength) ->
  exists tr st',
    Voice.renderLoop currentSampleData sampleData sampleDataRight sampleLength
                     ls le start n k st
    = (tr, Ok st')
    /\ Forall (fun i => (0 <= i < sampleLength)%Z) tr.
Proof.
  intros Hleft Hright. revert k st.
  induction n as [|n IH]; intros k st.
  - eexists _, _. split; [reflexivity | constructor].
  - destruct st as [[out v] p]. cbn [Voice.renderLoop].
    destruct (fetch_in_bounds sampleData sampleDataRight sampleLength
                (Voice.currentPosition v) Hleft Hright)
      as (tr & fetched & Hf & Htr).
    destruct (renderSample_ok currentSampleData sampleData sampleDataRight
                sampleLength ls le start k out v p tr fetched Hf)
      as (continue & st' & ->).
    rewrite Mem_bind_Ok. destruct continue.
    + destruct (IH (k + 1)%Z st') as (tr' & st'' & -> & Htr').
      cbn [fst snd]. eexists _, _. split; [reflexivity|].
      apply Forall_app. split; assumption.
    + cbn [mret Mem_mret Mem_ret fst snd]. rewrite app_nil_r.
      eexists _, _. split; [reflexivity | exact Htr].
Qed.

Lemma addSample_zero (destChannel : nat) (destSample : Z) (x : Q)
    (b : AudioBuffer) :
  x == 0 -> buffer_equiv (addSample destChannel destSample x b) b.
Proof.
  intros Hx. unfold addSample, buffer_equiv.
  destruct (destSample <? 0)%Z; [split; reflexivity|].
  cbn [getNumSamples channelData]. split; [reflexivity|].
  apply Forall2_alter_l; [reflexivity|].
  intros c c' _ _ Hc. apply Forall2_alter_l; [exact Hc|].
  intros y y' _ _ Hy. rewrite Hy, Hx. lra.
Qed.

Lemma buffer_equiv_trans (a b c : AudioBuffer) :
  buffer_equiv a b -> buffer_equiv b c -> buffer_equiv a c.
Proof.
  intros [Hn1 Hc1] [Hn2 Hc2]. split; [congruence|].
  etransitivity; eassumption.
Qed.

(** With the cursor outside [0, sampleLength) an iteration reads nothing
    and leaves every frame of the output buffer at its value. *)
Lemma renderSample_outside (currentSampleData : SampleData) (sampleData : list Q)
    (sampleDataRight : option (list Q)) (sampleLength ls le start k : Z)
    (out : AudioBuffer) (v : Voice.t) (p : Processor.t) :
  ~ (0 <= Voice.currentPosition v < of_int sampleLength) ->
  exists continue out' v' p',
    Voice.renderSample currentSampleData sampleData sampleDataRight sampleLength
                       ls le start k (out, v, p)
    = ([], Ok (continue, (out', v', p')))
    /\ buffer_equiv out' out.
Proof.
  intros Hout. unfold Voice.renderSample.
  cbn [Voice.set_normalizedPosition Voice.currentPosition Voice.voiceIndex
       Voice.normalizedPosition Voice.adsr Voice.velocity
       Voice.positionIncrement].
  rewrite (fetch_outside _ _ _ _ Hout), Mem_bind_Ok.
  destruct (adsr_getNextSample (Voice.adsr v)) as [envelopeValue a].
  cbn [Voice.scale fst snd].
  set (zero := 0 * (envelopeValue * Voice.velocity v)).
  assert (Hzero : zero == 0) by (unfold zero; lra).
  set (out1 := if (getNumChannels out >? 0)%Z
               then addSample 0 (start + k) zero out else out).
  assert (Hout1 : buffer_equiv out1 out).
  { unfold out1. destruct (getNumChannels out >? 0)%Z.
    - apply addSample_zero. exact Hzero.
    - split; reflexivity. }
  set (out2 := if (getNumChannels out1 >? 1)%Z
               then addSample 1 (start + k) zero out1 else out1).
  assert (Hout2 : buffer_equiv out2 out).
  { unfold out2. destruct (getNumChannels out1 >? 1)%Z.
    - eapply buffer_equiv_trans; [apply addSample_zero; exact Hzero | exact Hout1].
    - exact Hout1. }
  destruct (Voice.advance _ _ _ _ _ _) as [stop v2].
  destruct stop; [|destruct (negb (adsr_isActive (Voice.adsr v2)))];
    cbn [Voice.retire mret Mem_mret Mem_ret fst snd app];
    eexists _, _, _, _; (split; [reflexivity | exact Hout2]).
Qed.

(** The channels [renderNextBlock] reads from hold [getNumSamples]
    frames each. *)
Lemma read_pointers_wf (b : AudioBuffer) :
  buffer_wf b ->
  channelData b <> [] ->
  Z.of_nat (length (getReadPointer b 0)) = getNumSamples b
  /\ forall rightData,
       (if (getNumChannels b >? 1)%Z then Some (getReadPointer b 1) else None)
       = Some rightData ->
       Z.of_nat (length rightData) = getNumSamples b.
Proof.
  unfold buffer_wf, getReadPointer, getNumChannels. intros Hwf Hne.
  destruct (channelData b) as [|c0 l]; [contradiction|].
  apply Forall_cons in Hwf. destruct Hwf as [H0' Hl].
  split; [exact H0'|]. intros rightData.
  destruct l as [|c1 l]; [cbn; discriminate|].
  apply Forall_cons in Hl. destruct Hl as [H1' _].
  match goal with
  | |- context [(?a >? 1)%Z] => destruct (a >? 1)%Z
  end; [|discriminate].
  intros Heq. injection Heq as <-. exact H1'.
Qed.

(** C10.  A render pass of a voice whose sample pointer designates a
    sample with a well-formed, non-empty set of channels runs to
    completion and reads raw sample data only at indices from 0 to
    [sampleLength - 1].  In each iteration, sample data is read only
    with the cursor inside [0, sampleLength), and only at [index = (int)
    currentPosition] or, provided [index < sampleLength - 1], at [index
    + 1].  With the cursor outside [0, sampleLength) an iteration reads
    nothing and adds exactly 0 to the output: every frame of the output
    buffer keeps its value. *)
Theorem render_reads_stay_inside_sample (outputBuffer : AudioBuffer)
    (startSample numSamples : Z) (v : Voice.t) (p : Processor.t)
    (ptr : nat) (sample : SampleData) :
  let sampleLength := getNumSamples (audioData sample) in
  let sampleData := getReadPointer (audioData sample) 0 in
  let sampleDataRight :=
    if (getNumChannels (audioData sample) >? 1)%Z
    then Some (getReadPointer (audioData sample) 1) else None in
  Voice.currentSample v = Some ptr ->
  SampleEngine.samples (Processor.sampleEngine p) !! ptr = Some sample ->
  buffer_wf (audioData sample) ->
  channelData (audioData sample) <> [] ->
  (exists tr st,
      Voice.renderNextBlock outputBuffer startSample numSamples v p = (tr, Ok st)
      /\ Forall (fun i => (0 <= i < sampleLength)%Z) tr)
  /\ (forall currentPosition i,
        i ∈ (Voice.fetch sampleData sampleDataRight sampleLength currentPosition).1 ->
        0 <= currentPosition < of_int sampleLength
        /\ (i = to_int currentPosition
            \/ (i = to_int currentPosition + 1
                /\ to_int currentPosition < sampleLength - 1)%Z))
  /\ (forall ls le k out v0 p0,
        ~ (0 <= Voice.currentPosition v0 < of_int sampleLength) ->
        exists continue out' v' p',
          Voice.renderSample sample sampleData sampleDataRight sampleLength
                             ls le startSample k (out, v0, p0)
          = ([], Ok (continue, (out', v', p')))
          /\ buffer_equiv out' out).
Proof.
  cbn zeta. intros Hptr Hs Hwf Hne. split; [|split].
  - unfold Voice.renderNextBlock. rewrite Hptr.
    destruct (negb (adsr_isActive (Voice.adsr v))).
    + cbn [Voice.retire mret Mem_mret Mem_ret].
      eexists _, _. split; [reflexivity | constructor].
    + unfold deref. rewrite Hs, Mem_bind_Ok. cbn [app].
      destruct (read_pointers_wf _ Hwf Hne) as [Hleft Hright].
      destruct (renderLoop_in_bounds sample
                  (getReadPointer (audioData sample) 0)
                  (if (getNumChannels (audioData sample) >? 1)%Z
                   then Some (getReadPointer (audioData sample) 1) else None)
                  (getNumSamples (audioData sample))
                  (Voice.loopStartSample sample) (Voice.loopEndSample sample)
                  startSample (Z.to_nat numSamples) 0 (outputBuffer, v, p)
                  Hleft Hright)
        as (tr & st & -> & Htr).
      eexists _, _. split; [reflexivity | exact Htr].
  - intros currentPosition i. apply fetch_indices.
  - intros ls le k out v0 p0. apply renderSample_outside.
Qed.
End Voice_reads.

(** ** Voice: note-off without tail-off *)

Section Voice_note_off.
Context `{Libm} `{RandomOps} `{ADSROps}.

Ltac voice_simpl :=
  cbn [Voice.clearCurrentNote Voice.set_currentlyPlayingNote
       Voice.set_normalizedPosition Voice.set_currentPosition
       Voice.set_loopingForward Voice.set_adsr
       Voice.currentlyPlayingNote Voice.currentSampleRate
       Voice.normalizedPosition Voice.valueTreeState Voice.voiceIndex
       Voice.currentSample Voice.currentPosition Voice.positionIncrement
       Voice.noteNumber Voice.velocity Voice.loopingForward Voice.adsr
       Voice.adsrParams fst snd].

(** [advance] neither reads nor writes the note the base class holds. *)
Lemma advance_cleared (sample : SampleData) (len ls le : Z) (inc : Q)
    (v : Voice.t) :
  Voice.advance sample len ls le inc (Voice.clearCurrentNote v)
  = ((Voice.advance sample len ls le inc v).1,
     Voice.clearCurrentNote (Voice.advance sample len ls le inc v).2).
Proof.
  unfold Voice.advance. voice_simpl.
  destruct (loopEnabled sample && Qgeb (Voice.currentPosition v) (of_int ls)).
  - voice_simpl. f_equal.
    destruct (loopMode sample) as [|m|m]; [| |reflexivity].
    + destruct (Qgeb _ _); reflexivity.
    + destruct m as [[m|m|]|[m|m|]|]; try reflexivity.
      * destruct (Voice.loopingForward v); voice_simpl;
          [destruct (Qgeb _ _) | destruct (Qleb _ _)]; reflexivity.
      * destruct (Qleb _ _); reflexivity.
  - destruct (Qgeb _ _); [|reflexivity].
    voice_simpl. destruct (adsr_isActive (Voice.adsr v)); reflexivity.
Qed.

Lemma renderSample_cleared (currentSampleData : SampleData) (sampleData : list Q)
    (sampleDataRight : option (list Q)) (sampleLength ls le start k : Z)
    (out : AudioBuffer) (v : Voice.t) (p : Processor.t) :
  Voice.renderSample currentSampleData sampleData sampleDataRight sampleLength
                     ls le start k (out, Voice.clearCurrentNote v, p)
  = Mem_map (fun r => (r.1, Voice.cleared r.2))
      (Voice.renderSample currentSampleData sampleData sampleDataRight
                          sampleLength ls le start k (out, v, p)).
Proof.
  unfold Voice.renderSample. cbv zeta. voice_simpl.
  destruct (Voice.fetch sampleData sampleDataRight sampleLength
                        (Voice.currentPosition v)) as [tr [fetched| |]];
    [|reflexivity|reflexivity].
  rewrite !Mem_bind_Ok.
  destruct (adsr_getNextSample (Voice.adsr v)) as [envelopeValue a].
  cbn [Voice.scale].
  match goal with
  | |- context [Voice.set_adsr ?x
                  (Voice.set_normalizedPosition ?y (Voice.clearCurrentNote v))] =>
      change (Voice.set_adsr x
                (Voice.set_normalizedPosition y (Voice.clearCurrentNote v)))
        with (Voice.clearCurrentNote
                (Voice.set_adsr x (Voice.set_normalizedPosition y v)))
  end.
  rewrite advance_cleared.
  destruct (Voice.advance _ _ _ _ _ _) as [stop v2].
  cbn [fst snd].
  destruct stop; [reflexivity|].
  voice_simpl. destruct (negb (adsr_isActive (Voice.adsr v2))); reflexivity.
Qed.

Lemma renderLoop_cleared (currentSampleData : SampleData) (sampleData : list Q)
    (sampleDataRight : option (list Q)) (sampleLength ls le start : Z)
    (n : nat) (k : Z) (out : AudioBuffer) (v : Voice.t) (p : Processor.t) :
  Voice.renderLoop currentSampleData sampleData sampleDataRight sampleLength
                   ls le start n k (out, Voice.clearCurrentNote v, p)
  = Mem_map Voice.cleared
      (Voice.renderLoop currentSampleData sampleData sampleDataRight
                        sampleLength ls le start n k (out, v, p)).
Proof.
  revert k out v p. induction n as [|n IH]; intros k out v p; [reflexivity|].
  cbn [Voice.renderLoop]. rewrite renderSample_cleared.
  destruct (Voice.renderSample _ _ _ _ _ _ _ _ _) as [tr [[continue st]| |]];
    [|reflexivity|reflexivity].
  unfold Mem_map at 1. cbn [fst snd]. rewrite !Mem_bind_Ok.
  destruct st as [[out' v'] p']. cbn [Voice.cleared fst snd].
  destruct continue; [|reflexivity].
  rewrite IH.
  destruct (Voice.renderLoop _ _ _ _ _ _ _ _ _ _) as [tr' [st'| |]]; reflexivity.
Qed.

Lemma renderNextBlock_cleared (outputBuffer : AudioBuffer)
    (startSample numSamples : Z) (v : Voice.t) (p : Processor.t) :
  Voice.renderNextBlock outputBuffer startSample numSamples
                        (Voice.clearCurrentNote v) p
  = Mem_map Voice.cleared
      (Voice.renderNextBlock outputBuffer startSample numSamples v p).
Proof.
  unfold Voice.renderNextBlock. voice_simpl.
  destruct (Voice.currentSample v) as [ptr|]; [|reflexivity].
  destruct (negb (adsr_isActive (Voice.adsr v))); [reflexivity|].
  unfold deref.
  destruct (SampleEngine.samples (Processor.sampleEngine p) !! ptr)
    as [sample|]; [|reflexivity].
  rewrite !Mem_bind_Ok. rewrite renderLoop_cleared.
  destruct (Voice.renderLoop _ _ _ _ _ _ _ _ _ _) as [tr [st| |]]; reflexivity.
Qed.

(** C2 (as the code behaves).  [stopNote] with tail-off disallowed does
    what [stopNote] with tail-off allowed does and then calls
    [clearCurrentNote]: the cursor and the sample pointer keep their
    values, the envelope is the one [noteOff] leaves (released, not
    reset), and the next render call mixes into the output buffer
    exactly what it would have mixed had the tail been allowed. *)
Theorem stopNote_without_tail_off_renders_the_tail (vel : Q) (v : Voice.t)
    (outputBuffer : AudioBuffer) (startSample numSamples : Z)
    (p : Processor.t) :
  Voice.stopNote vel false v = Voice.clearCurrentNote (Voice.stopNote vel true v)
  /\ Voice.currentPosition (Voice.stopNote vel false v) = Voice.currentPosition v
  /\ Voice.currentSample (Voice.stopNote vel false v) = Voice.currentSample v
  /\ Voice.adsr (Voice.stopNote vel false v) = adsr_noteOff (Voice.adsr v)
  /\ Voice.renderNextBlock outputBuffer startSample numSamples
                           (Voice.stopNote vel false v) p
     = Mem_map Voice.cleared
         (Voice.renderNextBlock outputBuffer startSample numSamples
                                (Voice.stopNote vel true v) p).
Proof.
  repeat split. apply renderNextBlock_cleared.
Qed.
End Voice_note_off.

(** ** The engine on the reference instances *)

Section Concrete.
Local Existing Instance Reference.libm.
Local Existing Instance Reference.random.
Local Existing Instance Reference.adsr.

(** Decides a closed comparison of rationals by evaluation. *)
Ltac qdecide :=
  vm_compute;
  first [ reflexivity
        | discriminate
        | (intro; discriminate)
        | (let Hc := fresh in intro Hc; apply Hc; reflexivity) ].

(** The reference [pow] is exact at integer exponents. *)
Lemma reference_libm_exact : @LibmExact Reference.libm.
Proof.
  intros b x n Hx. cbn [pow Reference.libm]. unfold floorf.
  rewrite (Qfloor_comp _ _ Hx), Qfloor_Z. rewrite Hx. ring.
Qed.

(** Witness of [lfo_random_never_redraws]: the random oscillator at 1 Hz
    sampled at 4 Hz.  Over eight calls the phase wraps twice (it is 3/4
    after the third call and 0 after the fourth), and the output stays at
    the initial 0 with the generator still at its seed. *)
Lemma lfo_random_never_redraws_witness :
  (LFO.waveform Scenario.random_lfo = 4%Z
   /\ LFO.phase Scenario.random_lfo < 1
   /\ LFO.frequency Scenario.random_lfo / LFO.sampleRate Scenario.random_lfo < 1)
  /\ ((LFO.run 8 Scenario.random_lfo).1 = repeat 0 8
      /\ LFO.randomValue (LFO.run 8 Scenario.random_lfo).2 = 0
      /\ LFO.random (LFO.run 8 Scenario.random_lfo).2 = 42%Z)
  /\ LFO.phase (LFO.run 3 Scenario.random_lfo).2 == 3 / 4
  /\ LFO.phase (LFO.run 4 Scenario.random_lfo).2 == 0.
Proof.
  assert (Hw : LFO.waveform Scenario.random_lfo = 4%Z) by reflexivity.
  assert (Hp : LFO.phase Scenario.random_lfo < 1) by reflexivity.
  assert (Hi : LFO.frequency Scenario.random_lfo
               / LFO.sampleRate Scenario.random_lfo < 1) by reflexivity.
  split; [auto|]. split.
  - exact (lfo_random_never_redraws 8 Scenario.random_lfo Hw Hp Hi).
  - split; vm_compute; reflexivity.
Defined.

(** Witness of [getSampleForNote_first_match_or_first_loaded]: with the
    keyboard split at 60, note 64 resolves to the second sample, and with
    only the lower half loaded it falls back to the first. *)
Lemma getSampleForNote_witness :
  SampleEngine.getSampleForNote 64
    (Scenario.engine [Scenario.low_half; Scenario.high_half]) = Some 1%nat
  /\ SampleEngine.getSampleForNote 64 (Scenario.engine [Scenario.low_half])
     = Some 0%nat
  /\ SampleEngine.getSampleForNote 64 (Scenario.engine []) = None.
Proof.
  split; [|split].
  - destruct (getSampleForNote_first_match_or_first_loaded 64
                (Scenario.engine [Scenario.low_half; Scenario.high_half]))
      as (Hfirst & _ & _).
    apply (Hfirst 1%nat Scenario.high_half).
    + reflexivity.
    + cbn. lia.
    + intros j s' Hj Hs'. destruct j as [|j]; [|lia].
      cbn in Hs'. injection Hs' as <-. cbn. lia.
  - destruct (getSampleForNote_first_match_or_first_loaded 64
                (Scenario.engine [Scenario.low_half]))
      as (_ & Hfallback & _).
    apply Hfallback.
    + intros s Hs. apply list_elem_of_singleton in Hs. subst s. cbn. lia.
    + discriminate.
  - destruct (getSampleForNote_first_match_or_first_loaded 64
                (Scenario.engine [])) as (_ & _ & Hnull).
    apply Hnull. reflexivity.
Defined.

(** C9 (as stated) fails: the call that fails to decode and the call
    that decodes return the same value, so nothing computed from the
    returned value tells the caller that the load failed. *)
Lemma loadSample_failure_not_reported :
  let e := SampleEngine.mk [] Scenario.one_file_decoder in
  SampleEngine.formatManager e Scenario.bad_file = None
  /\ SampleEngine.formatManager e Scenario.good_file <> None
  /\ ~ exists report : unit -> bool,
         report (SampleEngine.loadSample Scenario.bad_file 60 e).1 = true
         /\ report (SampleEngine.loadSample Scenario.good_file 60 e).1 = false.
Proof.
  cbn zeta. split; [reflexivity|]. split; [discriminate|].
  intros (report & Hbad & Hgood).
  destruct (SampleEngine.loadSample Scenario.bad_file 60 _).1.
  destruct (SampleEngine.loadSample Scenario.good_file 60 _).1.
  congruence.
Qed.

(** Witness of [loadSample_appends_or_leaves_unchanged]. *)
Lemma loadSample_witness :
  let e := SampleEngine.mk [Scenario.low_half] Scenario.one_file_decoder in
  SampleEngine.loadSample Scenario.bad_file 60 e = (tt, e)
  /\ exists sample,
       SampleEngine.samples (SampleEngine.loadSample Scenario.good_file 48 e).2
       = [Scenario.low_half; sample]
       /\ loopStart sample = 0.25 /\ loopEnd sample = 0.75
       /\ lowestNote sample = 0%Z /\ highestNote sample = 127%Z
       /\ rootNote sample = 48%Z.
Proof.
  cbn zeta.
  destruct (loadSample_appends_or_leaves_unchanged Scenario.bad_file 60
              (SampleEngine.mk [Scenario.low_half] Scenario.one_file_decoder))
    as (Hfail & _ & _).
  destruct (loadSample_appends_or_leaves_unchanged Scenario.good_file 48
              (SampleEngine.mk [Scenario.low_half] Scenario.one_file_decoder))
    as (_ & Hok & _).
  split; [apply Hfail; reflexivity|].
  destruct (Hok (mkReader 48000 1 4 (fun _ _ => 1)) eq_refl)
    as (sample & Hload & Hls & Hle & Hlo & Hhi & Hroot & _).
  exists sample. rewrite Hload. cbn [snd SampleEngine.samples app].
  repeat split; assumption.
Defined.

(** Witness of [startNote_pitch_ratio]: note 72 on a sample rooted at
    60, both rates 44100. *)
Lemma startNote_pitch_ratio_witness :
  let p := Scenario.processor [Scenario.pingpong12] in
  (SampleEngine.getSampleForNote 72 (Processor.sampleEngine p) = Some 0%nat
   /\ SampleEngine.samples (Processor.sampleEngine p) !! 0%nat
      = Some Scenario.pingpong12
   /\ getNumSamples (audioData Scenario.pingpong12) <> 0%Z)
  /\ exists v' p',
       Voice.startNote 72 1 Scenario.voice0 p = ([], Ok (v', p'))
       /\ Voice.positionIncrement v' == 2 * 44100 / 44100.
Proof.
  cbn zeta.
  assert (Hg : SampleEngine.getSampleForNote 72
                 (Processor.sampleEngine (Scenario.processor [Scenario.pingpong12]))
               = Some 0%nat) by reflexivity.
  assert (Hs : SampleEngine.samples
                 (Processor.sampleEngine (Scenario.processor [Scenario.pingpong12]))
               !! 0%nat = Some Scenario.pingpong12) by reflexivity.
  assert (Hn : getNumSamples (audioData Scenario.pingpong12) <> 0%Z) by discriminate.
  split; [auto|].
  destruct (@startNote_pitch_ratio Reference.libm Reference.random Reference.adsr
              reference_libm_exact 72 1 Scenario.voice0
              (Scenario.processor [Scenario.pingpong12]) 0%nat
              Scenario.pingpong12 Hg Hs Hn)
    as (v' & p' & Hstart & _ & _ & _ & _ & Hup & _).
  exists v', p'. split; [exact Hstart|].
  exact (proj2 (Hup eq_refl)).
Defined.



(** The bounds are truncated from the [float] product.  With the end
    marker at 10442371 / 2^24 on 882000 frames the product rounds up to
    548969, where the exact product truncates to 548968: a forward step
    that reaches 548968.5 is not wrapped, and the next one is. *)
Lemma loop_bounds_follow_float_product :
  let sample := Cases.long_forward in
  let len := getNumSamples (audioData sample) in
  let ls := Voice.loopStartSample sample in
  let le := Voice.loopEndSample sample in
  let v := Scenario.playing 548968 0.5 true in
  (ls = 220500%Z /\ le = 548969%Z)
  /\ to_int (loopEnd sample * of_int len) = 548968%Z
  /\ Voice.currentPosition (Voice.advance sample len ls le 0.5 v).2 == 548968.5
  /\ Voice.currentPosition (Voice.advances sample [0.5; 0.5] v) == 220500.
Proof. cbn zeta. repeat split; vm_compute; reflexivity. Qed.


(** The first failure is reached from a note-on: note 96 on the
    twelve-frame sample gives the increment 8, and after two rendered
    frames the cursor is at 2, going down, below the loop start 3. *)
Lemma ping_pong_escape_reached_by_rendering :
  Voice.positionIncrement Scenario.struck_high.1 == 8
  /\ Voice.currentPosition Scenario.two_frames_later.1.2 == 2
  /\ Voice.loopingForward Scenario.two_frames_later.1.2 = false
  /\ Voice.loopStartSample Scenario.pingpong12 = 3%Z.
Proof. repeat split; qdecide. Qed.


(** Witness of [render_reads_stay_inside_sample]: two frames of the
    high note on the twelve-frame sample. *)
Lemma render_reads_stay_inside_sample_witness :
  let v := Scenario.struck_high.1 in
  let p := Scenario.struck_high.2 in
  (Voice.currentSample v = Some 0%nat
   /\ SampleEngine.samples (Processor.sampleEngine p) !! 0%nat
      = Some Scenario.pingpong12
   /\ buffer_wf (audioData Scenario.pingpong12)
   /\ channelData (audioData Scenario.pingpong12) <> [])
  /\ exists tr st,
       Voice.renderNextBlock (Scenario.silence 2) 0 2 v p = (tr, Ok st)
       /\ Forall (fun i => (0 <= i < 12)%Z) tr.
Proof.
  cbn zeta.
  assert (Hptr : Voice.currentSample Scenario.struck_high.1 = Some 0%nat)
    by reflexivity.
  assert (Hs : SampleEngine.samples (Processor.sampleEngine Scenario.struck_high.2)
               !! 0%nat = Some Scenario.pingpong12) by reflexivity.
  assert (Hwf : buffer_wf (audioData Scenario.pingpong12))
    by (repeat constructor).
  assert (Hne : channelData (audioData Scenario.pingpong12) <> [])
    by discriminate.
  split; [auto|].
  exact (proj1 (render_reads_stay_inside_sample (Scenario.silence 2) 0 2
                  Scenario.struck_high.1 Scenario.struck_high.2 0%nat
                  Scenario.pingpong12 Hptr Hs Hwf Hne)).
Defined.

(** The forced note-off of the scenario: at the moment of [stopNote]
    with tail-off disallowed the cursor is at 4; afterwards it is still
    at 4, the envelope is releasing at a positive level, and the
    processor's flag for the voice is still set.  The next render call
    mixes four non-zero frames into a silent block and moves the cursor
    to 8. *)
Lemma forced_note_off_keeps_sounding :
  Voice.currentPosition Scenario.sounding.1.2 == 4
  /\ Voice.currentPosition Scenario.forced_off == 4
  /\ Voice.currentSample Scenario.forced_off = Some 0%nat
  /\ Reference.state (Voice.adsr Scenario.forced_off) = Reference.releasing
  /\ 0 < Reference.envelopeVal (Voice.adsr Scenario.forced_off)
  /\ Voice.isVoiceActive Scenario.forced_off = false
  /\ Forall (Forall (fun x => 0 < x)) (channelData Scenario.afterwards.1.1)
  /\ Voice.currentPosition Scenario.afterwards.1.2 == 8
  /\ Reference.state (Voice.adsr Scenario.afterwards.1.2) = Reference.releasing
  /\ Processor.voiceActive Scenario.afterwards.2 !! 0%nat = Some true.
Proof.
  repeat split; try qdecide.
  vm_compute. repeat (apply List.Forall_cons || apply List.Forall_nil); reflexivity.
Qed.
End Concrete.


(** ** LFO: phase and range *)

Section LFO_waveforms.
Context `{Libm} `{RandomOps}.

(** The redraw of the random waveform touches neither the phase nor the
    configuration. *)
Lemma redraw_fields (l : LFO.t) :
  LFO.phase (LFO.redraw l) = LFO.phase l
  /\ LFO.frequency (LFO.redraw l) = LFO.frequency l
  /\ LFO.sampleRate (LFO.redraw l) = LFO.sampleRate l
  /\ LFO.waveform (LFO.redraw l) = LFO.waveform l.
Proof.
  unfold LFO.redraw. destruct (Qgeb (LFO.phase l) 1); [|repeat split].
  destruct (nextFloat (LFO.random l)). repeat split.
Qed.

(** Every call keeps the configuration and moves the phase by [frequency
    / sampleRate], minus 1 when that reaches 1. *)
Lemma getNextSample_phase (l : LFO.t) :
  let l' := (LFO.getNextSample l).2 in
  let advanced := LFO.phase l + LFO.frequency l / LFO.sampleRate l in
  LFO.frequency l' = LFO.frequency l
  /\ LFO.sampleRate l' = LFO.sampleRate l
  /\ LFO.waveform l' = LFO.waveform l
  /\ LFO.phase l' = (if Qgeb advanced 1 then advanced - 1 else advanced).
Proof.
  cbn zeta. unfold LFO.getNextSample.
  assert (Hgen : forall (o : Q) (l1 : LFO.t),
             LFO.phase l1 = LFO.phase l ->
             LFO.frequency l1 = LFO.frequency l ->
             LFO.sampleRate l1 = LFO.sampleRate l ->
             LFO.waveform l1 = LFO.waveform l ->
             let r := (let '(output, l2) := (o, l1) in
                       let l3 := LFO.set_phase
                                   (LFO.phase l2 + LFO.frequency l2 / LFO.sampleRate l2) l2 in
                       let l4 := if Qgeb (LFO.phase l3) 1
                                 then LFO.set_phase (LFO.phase l3 - 1) l3 else l3 in
                       (output, l4)) in
             LFO.frequency r.2 = LFO.frequency l
             /\ LFO.sampleRate r.2 = LFO.sampleRate l
             /\ LFO.waveform r.2 = LFO.waveform l
             /\ LFO.phase r.2
                = (if Qgeb (LFO.phase l + LFO.frequency l / LFO.sampleRate l) 1
                   then LFO.phase l + LFO.frequency l / LFO.sampleRate l - 1
                   else LFO.phase l + LFO.frequency l / LFO.sampleRate l)).
  { intros o l1 Hp Hf Hs Hw. cbn zeta. cbn [snd LFO.set_phase LFO.phase
                                             LFO.frequency LFO.sampleRate].
    rewrite Hp, Hf, Hs.
    destruct (Qgeb _ 1); cbn [LFO.set_phase LFO.phase LFO.frequency
                              LFO.sampleRate LFO.waveform]; auto. }
  destruct (redraw_fields l) as (Rp & Rf & Rs & Rw).
  destruct (LFO.waveform l) as [|w|w] eqn:Ew.
  - apply (Hgen _ l); auto.
  - destruct w as [[w|w|]|[[w|w|]|[w|w|]|]|]; try (apply (Hgen _ l); auto).
    apply (Hgen _ (LFO.redraw l)); auto.
  - apply (Hgen _ l); auto.
Qed.

(** X1.  For every waveform, an oscillator whose phase lies in [0, 1) and
    whose per-sample increment [frequency / sampleRate] lies in [0, 1)
    has its phase in [0, 1) again after any number of calls. *)
Theorem lfo_phase_stays_in_unit_interval (n : nat) (l : LFO.t) :
  0 <= LFO.phase l < 1 ->
  0 <= LFO.frequency l / LFO.sampleRate l < 1 ->
  0 <= LFO.phase (LFO.run n l).2 < 1.
Proof.
  revert l. induction n as [|n IH]; intros l Hp Hi; [exact Hp|].
  cbn [LFO.run].
  destruct (getNextSample_phase l) as (Hf & Hs & _ & Hph).
  destruct (LFO.getNextSample l) as [o l1]. cbn [snd] in *.
  specialize (IH l1).
  destruct (LFO.run n l1) as [os l2]. cbn [snd] in *.
  apply IH.
  - rewrite Hph. destruct (Qgeb _ 1) eqn:E.
    + apply Qgeb_true in E. lra.
    + apply Qgeb_false in E. lra.
  - rewrite Hf, Hs. exact Hi.
Qed.

(** A frequency below the sample rate advances the phase by less than
    one cycle per sample. *)
Lemma rate_below_one (f sr : Q) : 0 <= f < sr -> 0 <= f / sr < 1.
Proof.
  intros [Hf Hsr]. split.
  - apply Qle_shift_div_l; lra.
  - apply Qlt_shift_div_r; lra.
Qed.

(** One call keeps a phase in [0, 1) there, for an increment in
    [0, 1). *)
Lemma getNextSample_unit_phase (l : LFO.t) :
  0 <= LFO.phase l < 1 ->
  0 <= LFO.frequency l / LFO.sampleRate l < 1 ->
  0 <= LFO.phase (LFO.getNextSample l).2 < 1
  /\ LFO.frequency (LFO.getNextSample l).2 / LFO.sampleRate (LFO.getNextSample l).2
     = LFO.frequency l / LFO.sampleRate l
  /\ LFO.waveform (LFO.getNextSample l).2 = LFO.waveform l.
Proof.
  intros Hp Hi. destruct (getNextSample_phase l) as (Hf & Hs & Hw & Hph).
  rewrite Hf, Hs, Hw, Hph. split; [|split; reflexivity].
  destruct (Qgeb _ 1) eqn:E.
  - apply Qgeb_true in E. lra.
  - apply Qgeb_false in E. lra.
Qed.

Lemma run_unit_phase (n : nat) (l : LFO.t) :
  0 <= LFO.phase l < 1 ->
  0 <= LFO.frequency l / LFO.sampleRate l < 1 ->
  0 <= LFO.phase (LFO.run n l).2 < 1.
Proof.
  revert l. induction n as [|n IH]; intros l Hp Hi; [exact Hp|].
  cbn [LFO.run].
  destruct (getNextSample_unit_phase l Hp Hi) as (Hp1 & Hi1 & _).
  destruct (LFO.getNextSample l) as [o l1]. cbn [snd] in *.
  specialize (IH l1). destruct (LFO.run n l1) as [os l2]. cbn [snd] in *.
  apply IH; [exact Hp1|]. rewrite Hi1. exact Hi.
Qed.

(** The centred phase of the triangle and the sawtooth, [phase -
    std::floor (phase + 0.5f)] with its two roundings, lies between -1/2
    and 1/2 for a phase between 0 and 1.  A phase just below 1/2 whose sum
    with 1/2 rounds up to 1 is at most [2^-25] below 1/2, and its
    difference with 1 rounds to -1/2. *)
Lemma centred_phase (x : Q) :
  0 <= x <= 1 ->
  - (1 # 2) <= fl32 (x - floorf (fl32 (x + 0.5))) <= 1 # 2.
Proof.
  intros [Hx0 Hx1].
  assert (F0 : fl32 0 == 0) by (vm_compute; reflexivity).
  assert (F1 : fl32 1 == 1) by (vm_compute; reflexivity).
  assert (Fh : fl32 (1 # 2) == 1 # 2) by (vm_compute; reflexivity).
  assert (Fm : fl32 (- (1 # 2)) == - (1 # 2)) by (vm_compute; reflexivity).
  assert (Ft : fl32 (3 # 2) == 3 # 2) by (vm_compute; reflexivity).
  assert (Fe : fl32 (- (1 # 2) - (1 # 33554432)) == - (1 # 2))
    by (vm_compute; reflexivity).
  pose proof (fl32_le (1 # 2) (x + 0.5) ltac:(lra)) as Hs0.
  pose proof (fl32_le (x + 0.5) (3 # 2) ltac:(lra)) as Hs1.
  rewrite Fh in Hs0. rewrite Ft in Hs1.
  unfold floorf. set (s := fl32 (x + 0.5)) in *.
  pose proof (Qfloor_le s) as Hfl. pose proof (Qlt_floor s) as Hfu.
  rewrite inject_Z_plus in Hfu. change (inject_Z 1) with 1 in Hfu.
  assert (Hf : Qfloor s = 0%Z \/ Qfloor s = 1%Z).
  { assert (Hlo : inject_Z (-1) < inject_Z (Qfloor s))
      by (change (inject_Z (-1)) with (-1); lra).
    assert (Hhi : inject_Z (Qfloor s) < inject_Z 2)
      by (change (inject_Z 2) with 2; lra).
    rewrite <- Zlt_Qlt in Hlo, Hhi. lia. }
  destruct Hf as [Hf|Hf]; rewrite Hf in *.
  - change (inject_Z 0) with 0 in *.
    assert (Hhalf : x + 0.5 < 1).
    { apply Qnot_le_lt. intros Hc.
      pose proof (fl32_le 1 (x + 0.5) Hc) as Hge. rewrite F1 in Hge.
      fold s in Hge. lra. }
    pose proof (fl32_le 0 (x - 0) ltac:(lra)) as Hd0.
    pose proof (fl32_le (x - 0) (1 # 2) ltac:(lra)) as Hd1.
    rewrite F0 in Hd0. rewrite Fh in Hd1. lra.
  - change (inject_Z 1) with 1 in *.
    pose proof (fl32_le (x - 1) 0 ltac:(lra)) as Hup. rewrite F0 in Hup.
    split; [|lra].
    destruct (Qlt_le_dec (x + 0.5) 1) as [Hlt|Hge].
    + pose proof (fl32_error_unit (x + 0.5) ltac:(lra)) as He. fold s in He.
      pose proof (fl32_le (- (1 # 2) - (1 # 33554432)) (x - 1) ltac:(lra)) as Hd.
      rewrite Fe in Hd. exact Hd.
    + pose proof (fl32_le (- (1 # 2)) (x - 1) ltac:(lra)) as Hd.
      rewrite Fm in Hd. exact Hd.
Qed.

(** One call on the triangle, square or sawtooth waveform returns a value
    between -1 and 1, at a phase between 0 and 1. *)
Lemma getNextSample_range (l : LFO.t) :
  (1 <= LFO.waveform l <= 3)%Z ->
  0 <= LFO.phase l <= 1 ->
  -1 <= (LFO.getNextSample l).1 <= 1.
Proof.
  intros Hw Hp. unfold LFO.getNextSample.
  pose proof (centred_phase (LFO.phase l) Hp) as Hc.
  destruct (LFO.waveform l) as [|w|w]; [lia| |lia].
  destruct w as [[w|w|]|[w|w|]|]; try lia; cbn [fst].
  - (* sawtooth *) lra.
  - (* square *) destruct (Qltb (LFO.phase l) 0.5); lra.
  - (* triangle *)
    set (d := fl32 (LFO.phase l - floorf (fl32 (LFO.phase l + 0.5)))) in *.
    assert (Hv : -1 <= 2 * Qabs (2 * d) - 1 <= 1)
      by (apply (Qabs_case (2 * d)); intros; lra).
    pose proof (fl32_le (-1) _ (proj1 Hv)) as Hlo.
    pose proof (fl32_le _ 1 (proj2 Hv)) as Hhi.
    assert (Fm : fl32 (-1) == -1) by (vm_compute; reflexivity).
    assert (F1 : fl32 1 == 1) by (vm_compute; reflexivity).
    rewrite Fm in Hlo. rewrite F1 in Hhi. split; assumption.
Qed.

(** X2.  On the triangle, square and sawtooth waveforms, every sample
    produced by an oscillator whose phase lies in [0, 1) and whose
    frequency is at least 0 and below its sample rate is between -1 and
    1, with the centring of the phase rounded as the [float] operations
    round it; and a single call returns a value between -1 and 1 at
    every phase from 0 to 1 inclusive, whatever the frequency. *)
Theorem lfo_output_within_unit_range (n : nat) (l : LFO.t) :
  (1 <= LFO.waveform l <= 3)%Z ->
  0 <= LFO.phase l < 1 ->
  0 <= LFO.frequency l < LFO.sampleRate l ->
  Forall (fun o => -1 <= o <= 1) (LFO.run n l).1
  /\ (forall p : Q, 0 <= p <= 1 ->
      -1 <= (LFO.getNextSample (LFO.set_phase p l)).1 <= 1).
Proof.
  intros Hw Hp Hf. split;
    [|intros p Hp1; apply getNextSample_range; [exact Hw | exact Hp1]].
  pose proof (rate_below_one _ _ Hf) as Hi. clear Hf.
  revert l Hw Hp Hi. induction n as [|n IH]; intros l Hw Hp Hi; [constructor|].
  cbn [LFO.run].
  pose proof (getNextSample_range l Hw ltac:(lra)) as Hr.
  destruct (getNextSample_unit_phase l Hp Hi) as (Hp1 & Hi1 & Hw1).
  destruct (LFO.getNextSample l) as [o l1]. cbn [fst snd] in *.
  specialize (IH l1). destruct (LFO.run n l1) as [os l2]. cbn [fst] in *.
  constructor; [exact Hr|].
  apply IH; [rewrite Hw1; exact Hw | exact Hp1 | rewrite Hi1; exact Hi].
Qed.
End LFO_waveforms.


(** ** Modulation matrix: what a block leaves behind *)

Section Matrix_state.
Context `{Libm} `{RandomOps}.

(** The parameter identifiers the first loop of [processBlock] builds. *)
Lemma updateLFO_ids (valueTreeState : APVTS) (l : LFO.t) :
  ModulationMatrix.updateLFO valueTreeState 0 l
  = LFO.setWaveform (to_int (valueTreeState "lfo1_waveform"))
      (LFO.setFrequency (valueTreeState "lfo1_rate") l)
  /\ ModulationMatrix.updateLFO valueTreeState 1 l
     = LFO.setWaveform (to_int (valueTreeState "lfo2_waveform"))
         (LFO.setFrequency (valueTreeState "lfo2_rate") l)
  /\ ModulationMatrix.updateLFO valueTreeState 2 l
     = LFO.setWaveform (to_int (valueTreeState "lfo3_waveform"))
         (LFO.setFrequency (valueTreeState "lfo3_rate") l).
Proof. repeat split. Qed.

(** Running an oscillator never touches its configuration. *)
Lemma run_config (n : nat) (l : LFO.t) :
  LFO.frequency (LFO.run n l).2 = LFO.frequency l
  /\ LFO.sampleRate (LFO.run n l).2 = LFO.sampleRate l
  /\ LFO.waveform (LFO.run n l).2 = LFO.waveform l.
Proof.
  revert l. induction n as [|n IH]; intros l; [repeat split|].
  cbn [LFO.run].
  destruct (getNextSample_phase l) as (Hf & Hs & Hw & _).
  destruct (LFO.getNextSample l) as [o l1]. cbn [snd] in *.
  specialize (IH l1). destruct (LFO.run n l1) as [os l2]. cbn [snd] in *.
  destruct IH as (IHf & IHs & IHw). repeat split; congruence.
Qed.

(** The last sample of a non-empty run on the triangle, square or
    sawtooth waveform lies between -1 and 1, for a phase and an increment
    in [0, 1). *)
Lemma run_last_range (n : nat) (l : LFO.t) (d : Q) :
  (1 <= LFO.waveform l <= 3)%Z ->
  (0 < n)%nat ->
  0 <= LFO.phase l < 1 ->
  0 <= LFO.frequency l / LFO.sampleRate l < 1 ->
  -1 <= List.last (LFO.run n l).1 d <= 1.
Proof.
  intros Hw Hn Hp Hi. destruct n as [|n]; [lia|].
  rewrite run_snoc. cbn [fst]. rewrite last_last.
  pose proof (run_unit_phase n l Hp Hi) as Hpn.
  apply getNextSample_range; [|lra].
  destruct (run_config n l) as (_ & _ & ->). exact Hw.
Qed.

(** The same for an oscillator configured as the first loop of
    [processBlock] configures it. *)
Lemma configured_last_range (n : nat) (l : LFO.t) (rate : Q) (w : Z) (d : Q) :
  (1 <= w <= 3)%Z ->
  (0 < n)%nat ->
  0 <= LFO.phase l < 1 ->
  0 <= rate < LFO.sampleRate l ->
  -1 <= List.last (LFO.run n (LFO.setWaveform w (LFO.setFrequency rate l))).1 d
     <= 1.
Proof.
  intros Hw Hn Hp Hf. pose proof (rate_below_one _ _ Hf) as Hi.
  apply run_last_range; try assumption.
  cbn [LFO.setWaveform LFO.setFrequency LFO.waveform].
  unfold jlimit_int.
  destruct (w <? 0)%Z eqn:E1; [lia|]. destruct (4 <? w)%Z eqn:E2; lia.
Qed.

Lemma tick_other (m : ModulationMatrix.t) (k : ModulationSource) :
  k <> LFO1 -> k <> LFO2 -> k <> LFO3 ->
  ModulationMatrix.sourceValues (ModulationMatrix.tick m) !! k
  = ModulationMatrix.sourceValues m !! k.
Proof.
  intros H1 H2 H3. unfold ModulationMatrix.tick.
  destruct (LFO.getNextSample _) as [o1 l1].
  destruct (LFO.getNextSample _) as [o2 l2].
  destruct (LFO.getNextSample _) as [o3 l3].
  cbn [ModulationMatrix.sourceValues].
  rewrite !lookup_insert_ne by congruence. reflexivity.
Qed.

Lemma iter_tick_other (n : nat) (m : ModulationMatrix.t) (k : ModulationSource) :
  k <> LFO1 -> k <> LFO2 -> k <> LFO3 ->
  ModulationMatrix.sourceValues (Nat.iter n ModulationMatrix.tick m) !! k
  = ModulationMatrix.sourceValues m !! k.
Proof.
  intros H1 H2 H3. induction n as [|n IH]; [reflexivity|].
  change (Nat.iter (S n) ModulationMatrix.tick m)
    with (ModulationMatrix.tick (Nat.iter n ModulationMatrix.tick m)).
  rewrite tick_other by assumption. exact IH.
Qed.

Lemma map_index_other (k k' : ModulationSource) (src : gmap ModulationSource Q) :
  k <> k' -> (map_index k src).2 !! k' = src !! k'.
Proof.
  intros Hne. unfold map_index. destruct (src !! k); [reflexivity|].
  cbn [snd]. apply lookup_insert_ne. exact Hne.
Qed.

(** The matrix after [processBlock]: the three oscillators configured
    from the parameters and run for the block, the three destinations
    written from the last samples, and every other source as it was. *)
Lemma processBlock_state (valueTreeState : APVTS) (numSamples : Z)
    (m : ModulationMatrix.t) :
  let m' := ModulationMatrix.processBlock valueTreeState numSamples m in
  let osc i :=
    LFO.run (Z.to_nat numSamples)
      (ModulationMatrix.updateLFO valueTreeState i
         (ModulationMatrix.lfo_at i (ModulationMatrix.lfos m))) in
  ModulationMatrix.lfos m'
  = ModulationMatrix.mk_lfos (osc 0%nat).2 (osc 1%nat).2 (osc 2%nat).2
  /\ ModulationMatrix.getModulationValue FilterCutoff m'
     = List.last (osc 0%nat).1 (held LFO1 (ModulationMatrix.sourceValues m))
       * valueTreeState "lfo1_amount" * 0.5
  /\ ModulationMatrix.getModulationValue Pitch m'
     = List.last (osc 1%nat).1 (held LFO2 (ModulationMatrix.sourceValues m))
       * valueTreeState "lfo2_amount" * 0.1
  /\ ModulationMatrix.getModulationValue Volume m'
     = List.last (osc 2%nat).1 (held LFO3 (ModulationMatrix.sourceValues m))
       * valueTreeState "lfo3_amount" * 0.3
  /\ forall k, k <> LFO1 -> k <> LFO2 -> k <> LFO3 ->
       ModulationMatrix.sourceValues m' !! k
       = ModulationMatrix.sourceValues m !! k.
Proof.
  cbn zeta. unfold ModulationMatrix.processBlock, ModulationMatrix.getModulationValue.
  cbn [fold_left ModulationMatrix.lfo_update ModulationMatrix.lfo_at
       ModulationMatrix.lfo_0 ModulationMatrix.lfo_1 ModulationMatrix.lfo_2].
  match goal with
  | |- context [Nat.iter ?n ModulationMatrix.tick ?m0] =>
      destruct (iter_tick n m0) as (Hl & Hd & H1 & H2 & H3);
      pose proof (iter_tick_other n m0) as Hother;
      set (mi := Nat.iter n ModulationMatrix.tick m0) in *
  end.
  cbn [ModulationMatrix.lfos ModulationMatrix.sourceValues
       ModulationMatrix.destinationValues ModulationMatrix.lfo_0
       ModulationMatrix.lfo_1 ModulationMatrix.lfo_2] in Hl, Hd, H1, H2, H3, Hother.
  pose proof (map_index_fst LFO1 (ModulationMatrix.sourceValues mi)) as F1.
  pose proof (map_index_held LFO1 LFO2 (ModulationMatrix.sourceValues mi)) as K12.
  pose proof (map_index_held LFO1 LFO3 (ModulationMatrix.sourceValues mi)) as K13.
  pose proof (fun k' => map_index_other LFO1 k' (ModulationMatrix.sourceValues mi))
    as O1.
  destruct (map_index LFO1 (ModulationMatrix.sourceValues mi)) as [s1 src1].
  cbn [fst snd] in F1, K12, K13, O1.
  pose proof (map_index_fst LFO2 src1) as F2.
  pose proof (map_index_held LFO2 LFO3 src1) as K23.
  pose proof (fun k' => map_index_other LFO2 k' src1) as O2.
  destruct (map_index LFO2 src1) as [s2 src2]. cbn [fst snd] in F2, K23, O2.
  pose proof (map_index_fst LFO3 src2) as F3.
  pose proof (fun k' => map_index_other LFO3 k' src2) as O3.
  destruct (map_index LFO3 src2) as [s3 src3]. cbn [fst snd] in F3, O3.
  cbn [ModulationMatrix.destinationValues ModulationMatrix.lfos
       ModulationMatrix.sourceValues].
  split; [exact Hl|].
  rewrite Hd.
  split; [|split; [|split]].
  - rewrite !lookup_insert_ne by discriminate. rewrite lookup_insert_eq.
    rewrite F1, H1. reflexivity.
  - rewrite lookup_insert_ne by discriminate. rewrite lookup_insert_eq.
    rewrite F2, K12, H2. reflexivity.
  - rewrite lookup_insert_eq. rewrite F3, K23, K13, H3. reflexivity.
  - intros k N1 N2 N3. rewrite O3, O2, O1 by congruence.
    apply Hother; assumption.
Qed.

(** X4.  After [processBlock] each of the three oscillators runs at the
    rate its parameter gives, on the waveform its parameter gives limited
    to 0..4, and at the sample rate it had, whatever the block length. *)
Theorem processBlock_configures_oscillators (valueTreeState : APVTS)
    (numSamples : Z) (m : ModulationMatrix.t) :
  let a := ModulationMatrix.lfos m in
  let a' := ModulationMatrix.lfos
              (ModulationMatrix.processBlock valueTreeState numSamples m) in
  (LFO.frequency (ModulationMatrix.lfo_0 a') = valueTreeState "lfo1_rate"
   /\ LFO.frequency (ModulationMatrix.lfo_1 a') = valueTreeState "lfo2_rate"
   /\ LFO.frequency (ModulationMatrix.lfo_2 a') = valueTreeState "lfo3_rate")
  /\ (LFO.waveform (ModulationMatrix.lfo_0 a')
      = jlimit_int 0 4 (to_int (valueTreeState "lfo1_waveform"))
      /\ LFO.waveform (ModulationMatrix.lfo_1 a')
         = jlimit_int 0 4 (to_int (valueTreeState "lfo2_waveform"))
      /\ LFO.waveform (ModulationMatrix.lfo_2 a')
         = jlimit_int 0 4 (to_int (valueTreeState "lfo3_waveform")))
  /\ (forall i, (0 <= LFO.waveform (ModulationMatrix.lfo_at i a') <= 4)%Z)
  /\ (forall i, LFO.sampleRate (ModulationMatrix.lfo_at i a')
                = LFO.sampleRate (ModulationMatrix.lfo_at i a)).
Proof.
  cbn zeta.
  destruct (processBlock_state valueTreeState numSamples m) as (Hl & _).
  rewrite Hl. cbn [ModulationMatrix.lfo_0 ModulationMatrix.lfo_1
                   ModulationMatrix.lfo_2].
  assert (Hlim : forall w, (0 <= jlimit_int 0 4 w <= 4)%Z).
  { intros w. unfold jlimit_int.
    destruct (w <? 0)%Z eqn:E1; [lia|]. destruct (4 <? w)%Z eqn:E2; lia. }
  split; [|split; [|split]].
  - repeat split;
      match goal with
      | |- LFO.frequency (LFO.run ?n ?l).2 = _ =>
          destruct (run_config n l) as (-> & _ & _); reflexivity
      end.
  - repeat split;
      match goal with
      | |- LFO.waveform (LFO.run ?n ?l).2 = _ =>
          destruct (run_config n l) as (_ & _ & ->); reflexivity
      end.
  - intros i.
    destruct i as [|[|i]]; cbn [ModulationMatrix.lfo_at ModulationMatrix.lfo_0
                                ModulationMatrix.lfo_1 ModulationMatrix.lfo_2];
      match goal with
      | |- (_ <= LFO.waveform (LFO.run ?n ?l).2 <= _)%Z =>
          destruct (run_config n l) as (_ & _ & ->); apply Hlim
      end.
  - intros i.
    destruct i as [|[|i]]; cbn [ModulationMatrix.lfo_at ModulationMatrix.lfo_0
                                ModulationMatrix.lfo_1 ModulationMatrix.lfo_2];
      match goal with
      | |- LFO.sampleRate (LFO.run ?n ?l).2 = _ =>
          destruct (run_config n l) as (_ & -> & _); reflexivity
      end.
Qed.

(** X5.  [processBlock] writes the sources LFO1, LFO2 and LFO3 only: a
    value stored under any other source (envelope, mod wheel, velocity,
    key track, pitch bend, aftertouch) by [setSourceValue] is still there
    after the block, and a source never written is still absent. *)
Theorem processBlock_keeps_other_sources (valueTreeState : APVTS)
    (numSamples : Z) (m : ModulationMatrix.t) (k : ModulationSource) (x : Q) :
  k <> LFO1 -> k <> LFO2 -> k <> LFO3 ->
  ModulationMatrix.sourceValues
    (ModulationMatrix.processBlock valueTreeState numSamples m) !! k
  = ModulationMatrix.sourceValues m !! k
  /\ ModulationMatrix.sourceValues
       (ModulationMatrix.processBlock valueTreeState numSamples
          (ModulationMatrix.setSourceValue k x m)) !! k
     = Some x.
Proof.
  intros N1 N2 N3.
  destruct (processBlock_state valueTreeState numSamples m) as (_ & _ & _ & _ & Hk).
  destruct (processBlock_state valueTreeState numSamples
              (ModulationMatrix.setSourceValue k x m)) as (_ & _ & _ & _ & Hk').
  split; [apply Hk; assumption|].
  rewrite Hk' by assumption.
  cbn [ModulationMatrix.setSourceValue ModulationMatrix.sourceValues].
  apply lookup_insert_eq.
Qed.

Lemma scaled_bias_bound (o a s : Q) :
  -1 <= o <= 1 -> 0 <= a <= 1 -> 0 <= s -> - s <= o * a * s <= s.
Proof.
  intros Ho Ha Hs.
  assert (H1 : 0 <= (1 - o) * a) by (apply Qmult_le_0_compat; lra).
  assert (H2 : 0 <= (1 + o) * a) by (apply Qmult_le_0_compat; lra).
  assert (H3 : 0 <= (1 - o * a) * s) by (apply Qmult_le_0_compat; lra).
  assert (H4 : 0 <= (1 + o * a) * s) by (apply Qmult_le_0_compat; lra).
  lra.
Qed.

(** X6.  After a block of at least one sample, an oscillator on the
    triangle, square or sawtooth waveform, with its amount between 0 and
    1, its phase in [0, 1) and its rate at least 0 and below its sample
    rate, biases its destination by at most its fixed scale as a
    [float]: the filter-cutoff value lies within 0.5 of zero, the pitch
    value within [0.1f], the volume value within [0.3f]. *)
Theorem processBlock_biases_bounded (valueTreeState : APVTS)
    (numSamples : Z) (m : ModulationMatrix.t) :
  let m' := ModulationMatrix.processBlock valueTreeState numSamples m in
  let osc i := ModulationMatrix.lfo_at i (ModulationMatrix.lfos m) in
  (0 < numSamples)%Z ->
  ((1 <= to_int (valueTreeState "lfo1_waveform") <= 3)%Z ->
   0 <= valueTreeState "lfo1_amount" <= 1 ->
   0 <= LFO.phase (osc 0%nat) < 1 ->
   0 <= valueTreeState "lfo1_rate" < LFO.sampleRate (osc 0%nat) ->
   -0.5 <= ModulationMatrix.getModulationValue FilterCutoff m' <= 0.5)
  /\ ((1 <= to_int (valueTreeState "lfo2_waveform") <= 3)%Z ->
      0 <= valueTreeState "lfo2_amount" <= 1 ->
      0 <= LFO.phase (osc 1%nat) < 1 ->
      0 <= valueTreeState "lfo2_rate" < LFO.sampleRate (osc 1%nat) ->
      - fl32 0.1 <= ModulationMatrix.getModulationValue Pitch m' <= fl32 0.1)
  /\ ((1 <= to_int (valueTreeState "lfo3_waveform") <= 3)%Z ->
      0 <= valueTreeState "lfo3_amount" <= 1 ->
      0 <= LFO.phase (osc 2%nat) < 1 ->
      0 <= valueTreeState "lfo3_rate" < LFO.sampleRate (osc 2%nat) ->
      - fl32 0.3 <= ModulationMatrix.getModulationValue Volume m' <= fl32 0.3).
Proof.
  cbn zeta. intros Hn.
  destruct (processBlock_state valueTreeState numSamples m)
    as (_ & Hc & Hp & Hv & _).
  rewrite Hc, Hp, Hv.
  assert (Hpos : (0 < Z.to_nat numSamples)%nat) by lia.
  assert (F1 : 0.1 <= fl32 0.1) by (vm_compute; intro; discriminate).
  assert (F3 : 0.3 <= fl32 0.3) by (vm_compute; intro; discriminate).
  split; [|split]; intros Hw Ha Hph Hrate.
  - destruct (updateLFO_ids valueTreeState
                (ModulationMatrix.lfo_at 0 (ModulationMatrix.lfos m))) as (-> & _).
    pose proof (configured_last_range _ _ _ _
                  (held LFO1 (ModulationMatrix.sourceValues m)) Hw Hpos Hph Hrate)
      as Hr.
    pose proof (scaled_bias_bound _ _ 0.5 Hr Ha ltac:(lra)). lra.
  - destruct (updateLFO_ids valueTreeState
                (ModulationMatrix.lfo_at 1 (ModulationMatrix.lfos m)))
      as (_ & -> & _).
    pose proof (configured_last_range _ _ _ _
                  (held LFO2 (ModulationMatrix.sourceValues m)) Hw Hpos Hph Hrate)
      as Hr.
    pose proof (scaled_bias_bound _ _ 0.1 Hr Ha ltac:(lra)). lra.
  - destruct (updateLFO_ids valueTreeState
                (ModulationMatrix.lfo_at 2 (ModulationMatrix.lfos m)))
      as (_ & _ & ->).
    pose proof (configured_last_range _ _ _ _
                  (held LFO3 (ModulationMatrix.sourceValues m)) Hw Hpos Hph Hrate)
      as Hr.
    pose proof (scaled_bias_bound _ _ 0.3 Hr Ha ltac:(lra)). lra.
Qed.
End Matrix_state.


(** ** Filter engine after a block of modulation *)

Section Filter_modulated.
Context `{Libm} `{RandomOps} `{FilterOps}.

Lemma jlimit_inside (lo hi v : Q) : lo <= v <= hi -> jlimit lo hi v = v.
Proof.
  intros [Hlo Hhi]. unfold jlimit.
  assert (E1 : Qltb v lo = false) by (apply Qltb_false; exact Hlo).
  assert (E2 : Qltb hi v = false) by (apply Qltb_false; exact Hhi).
  rewrite E1, E2. reflexivity.
Qed.

(** X7.  In the order the processor runs them (modulation block, then
    filter block): with oscillator 1 on the triangle, square or sawtooth
    waveform, its amount between 0 and 1, its phase in [0, 1), its rate
    at least 0 and below its sample rate, and a base cutoff between 40 Hz
    and 20000 / 1.5 Hz, the limiter never engages: the filter runs at
    [cutoff + bias * cutoff], and that value lies between 20 and 20000. *)
Theorem modulated_cutoff_within_half_of_base (valueTreeState : APVTS)
    (numSamples : Z) (m : ModulationMatrix.t) (buffer : AudioBuffer)
    (e : FilterEngine.t) :
  let cutoff := valueTreeState "filter_cutoff" in
  let osc := ModulationMatrix.lfo_at 0 (ModulationMatrix.lfos m) in
  let matrix := ModulationMatrix.processBlock valueTreeState numSamples m in
  let bias := ModulationMatrix.getModulationValue FilterCutoff matrix in
  let e' := (FilterEngine.processBlock valueTreeState matrix buffer
               (FilterEngine.setModulationMatrix attached e)).2 in
  (0 < numSamples)%Z ->
  (1 <= to_int (valueTreeState "lfo1_waveform") <= 3)%Z ->
  0 <= valueTreeState "lfo1_amount" <= 1 ->
  0 <= LFO.phase osc < 1 ->
  0 <= valueTreeState "lfo1_rate" < LFO.sampleRate osc ->
  40 <= cutoff ->
  cutoff * 1.5 <= 20000 ->
  FilterEngine.cutoffFrequency e' = cutoff + bias * cutoff
  /\ 20 <= FilterEngine.cutoffFrequency e' <= 20000.
Proof.
  cbn zeta. intros Hn Hw Ha Hph Hrate Hlo Hhi.
  set (cutoff := valueTreeState "filter_cutoff") in *.
  set (matrix := ModulationMatrix.processBlock valueTreeState numSamples m).
  assert (Hbias : -0.5 <= ModulationMatrix.getModulationValue FilterCutoff matrix
                  <= 0.5).
  { unfold matrix.
    destruct (processBlock_state valueTreeState numSamples m) as (_ & -> & _).
    destruct (updateLFO_ids valueTreeState
                (ModulationMatrix.lfo_at 0 (ModulationMatrix.lfos m))) as (-> & _).
    assert (Hpos : (0 < Z.to_nat numSamples)%nat) by lia.
    pose proof (configured_last_range _ _ _ _
                  (held LFO1 (ModulationMatrix.sourceValues m)) Hw
                  Hpos Hph Hrate) as Hr.
    pose proof (scaled_bias_bound _ _ 0.5 Hr Ha ltac:(lra)). lra. }
  set (bias := ModulationMatrix.getModulationValue FilterCutoff matrix) in *.
  assert (Hup : 0 <= (bias + 0.5) * cutoff) by (apply Qmult_le_0_compat; lra).
  assert (Hdn : 0 <= (0.5 - bias) * cutoff) by (apply Qmult_le_0_compat; lra).
  assert (Hin : 20 <= cutoff + bias * cutoff <= 20000) by lra.
  unfold FilterEngine.processBlock.
  cbn [FilterEngine.setModulationMatrix FilterEngine.modMatrix
       FilterEngine.setCutoffFrequency FilterEngine.setResonance
       FilterEngine.cutoffFrequency FilterEngine.resonance
       FilterEngine.filterState].
  destruct (filter_process _ _ _ _) as [b st].
  cbn [snd FilterEngine.cutoffFrequency].
  fold cutoff. fold bias. rewrite (jlimit_inside _ _ _ Hin).
  split; [reflexivity | exact Hin].
Qed.
End Filter_modulated.


(** ** Voice: the other loop modes *)

Section Voice_other_loops.
Context `{Libm} `{RandomOps} `{ADSROps}.



(** With looping enabled, the cursor at or past the loop start and a loop
    mode other than 0, 1 and 2, [advance] changes nothing. *)
Lemma unknown_mode_step (sample : SampleData) (len ls le : Z) (inc : Q)
    (v : Voice.t) :
  loopEnabled sample = true ->
  (loopMode sample < 0 \/ 2 < loopMode sample)%Z ->
  of_int ls <= Voice.currentPosition v ->
  Voice.advance sample len ls le inc v = (false, v).
Proof.
  intros Hen Hmode Hpos.
  unfold Voice.advance. rewrite (engaged _ _ _ Hen Hpos).
  destruct (loopMode sample) as [|m|m]; [lia| |reflexivity].
  destruct m as [[m|m|]|[m|m|]|]; try reflexivity; lia.
Qed.

(** X9.  The [switch] over the loop mode has no default: with looping
    enabled and a loop mode other than 0, 1 and 2, a cursor at or past
    [loopStartSample] never moves again.  Every step leaves the voice as
    it is, and a render call that completes leaves the cursor where it
    was, whatever the increment. *)
Theorem unknown_loop_mode_freezes_cursor (sample : SampleData) (inc : Q)
    (v : Voice.t) :
  let len := getNumSamples (audioData sample) in
  let ls := Voice.loopStartSample sample in
  let le := Voice.loopEndSample sample in
  loopEnabled sample = true ->
  (loopMode sample < 0 \/ 2 < loopMode sample)%Z ->
  of_int ls <= Voice.currentPosition v ->
  Voice.advance sample len ls le inc v = (false, v)
  /\ (forall outputBuffer startSample numSamples p ptr tr st,
        Voice.currentSample v = Some ptr ->
        SampleEngine.samples (Processor.sampleEngine p) !! ptr = Some sample ->
        Voice.renderNextBlock outputBuffer startSample numSamples v p = (tr, Ok st) ->
        Voice.currentPosition st.1.2 = Voice.currentPosition v).
Proof.
  cbn zeta. intros Hen Hmode Hpos. split.
  - apply unknown_mode_step; assumption.
  - intros outputBuffer startSample numSamples p ptr tr st Hptr Hsmp Hrun.
    apply (renderNextBlock_cursor_invariant
             (fun pos _ => pos = Voice.currentPosition v)
             sample outputBuffer startSample numSamples v p ptr tr st);
      auto.
    intros w Hw. cbn zeta. rewrite unknown_mode_step; auto.
    rewrite Hw. exact Hpos.
Qed.
End Voice_other_loops.


(** ** Voice: what a render call writes *)

Section Voice_writes.
Context `{Libm} `{RandomOps} `{ADSROps}.

Lemma addSample_shape (destChannel : nat) (destSample : Z) (x : Q)
    (b : AudioBuffer) :
  shape (addSample destChannel destSample x b) = shape b.
Proof.
  unfold addSample, shape. destruct (destSample <? 0)%Z; [reflexivity|].
  cbn [getNumSamples channelData]. f_equal.
  generalize (channelData b). intros l. revert destChannel.
  induction l as [|c l IH]; intros [|ch]; cbn; try reflexivity.
  - rewrite length_alter. reflexivity.
  - f_equal. apply IH.
Qed.

Lemma addSample_frame_other (destChannel : nat) (destSample : Z) (x : Q)
    (b : AudioBuffer) (ch i : nat) :
  ch <> destChannel \/ Z.of_nat i <> destSample ->
  frame (addSample destChannel destSample x b) ch i = frame b ch i.
Proof.
  intros Hne. unfold addSample, frame.
  destruct (destSample <? 0)%Z eqn:Eneg; [reflexivity|].
  apply Z.ltb_ge in Eneg. cbn [channelData].
  destruct (decide (ch = destChannel)) as [->|Hch].
  - rewrite list_lookup_alter_eq.
    destruct (channelData b !! destChannel) as [c|]; [|reflexivity].
    cbn. apply list_lookup_alter_ne. destruct Hne as [Hne|Hne]; [congruence|].
    intros Heq. apply Hne. lia.
  - rewrite list_lookup_alter_ne by congruence. reflexivity.
Qed.

(** One iteration writes at most the frame [startSample + sample] of
    channels 0 and 1. *)
Lemma renderSample_window (currentSampleData : SampleData) (sampleData : list Q)
    (sampleDataRight : option (list Q)) (sampleLength ls le start k : Z)
    (out out' : AudioBuffer) (v v' : Voice.t) (p p' : Processor.t)
    (tr : list Z) (continue : bool) :
  Voice.renderSample currentSampleData sampleData sampleDataRight sampleLength
                     ls le start k (out, v, p)
  = (tr, Ok (continue, (out', v', p'))) ->
  shape out' = shape out
  /\ forall ch i, (2 <= ch)%nat \/ Z.of_nat i <> (start + k)%Z ->
                  frame out' ch i = frame out ch i.
Proof.
  unfold Voice.renderSample.
  destruct (Voice.fetch _ _ _ _) as [tr0 [fetched| |]];
    [|discriminate|discriminate].
  rewrite Mem_bind_Ok.
  destruct (adsr_getNextSample _) as [envelopeValue a].
  cbn [Voice.scale].
  set (out1 := if (getNumChannels out >? 0)%Z
               then addSample 0 (start + k) _ out else out).
  set (out2 := if (getNumChannels out1 >? 1)%Z
               then addSample 1 (start + k) _ out1 else out1).
  assert (Hw1 : shape out1 = shape out
               /\ forall ch i, (2 <= ch)%nat \/ Z.of_nat i <> (start + k)%Z ->
                               frame out1 ch i = frame out ch i).
  { unfold out1. destruct (getNumChannels out >? 0)%Z; [|split; reflexivity].
    split; [apply addSample_shape|].
    intros ch i Hw. apply addSample_frame_other.
    destruct Hw; [left; lia | right; assumption]. }
  assert (Hw2 : shape out2 = shape out
               /\ forall ch i, (2 <= ch)%nat \/ Z.of_nat i <> (start + k)%Z ->
                               frame out2 ch i = frame out ch i).
  { destruct Hw1 as [Hs Hf]. unfold out2.
    destruct (getNumChannels out1 >? 1)%Z; [|split; assumption].
    split; [rewrite addSample_shape; exact Hs|].
    intros ch i Hw. rewrite addSample_frame_other; [apply Hf; exact Hw|].
    destruct Hw; [left; lia | right; assumption]. }
  clearbody out2. clear Hw1. clearbody out1.
  destruct (Voice.advance _ _ _ _ _ _) as [stop v2].
  intros Heq.
  destruct stop; [|destruct (negb (adsr_isActive (Voice.adsr v2)))];
    cbn [Voice.retire mret Mem_mret Mem_ret fst snd] in Heq;
    injection Heq as _ _ <- _ _; exact Hw2.
Qed.

Lemma renderLoop_window (currentSampleData : SampleData) (sampleData : list Q)
    (sampleDataRight : option (list Q)) (sampleLength ls le start : Z)
    (n : nat) (k : Z) (out out' : AudioBuffer) (v v' : Voice.t)
    (p p' : Processor.t) (tr : list Z) :
  Voice.renderLoop currentSampleData sampleData sampleDataRight sampleLength
                   ls le start n k (out, v, p)
  = (tr, Ok (out', v', p')) ->
  shape out' = shape out
  /\ forall ch i,
       (2 <= ch)%nat \/ (Z.of_nat i < start + k)%Z
       \/ (start + k + Z.of_nat n <= Z.of_nat i)%Z ->
       frame out' ch i = frame out ch i.
Proof.
  revert k out v p tr. induction n as [|n IH]; intros k out v p tr Hrun.
  - cbn in Hrun. injection Hrun as _ <- _ _. split; reflexivity.
  - cbn [Voice.renderLoop] in Hrun.
    destruct (Voice.renderSample _ _ _ _ _ _ _ _ _)
      as [tr1 [[continue [[out1 v1] p1]]| |]] eqn:Es;
      [|discriminate|discriminate].
    destruct (renderSample_window _ _ _ _ _ _ _ _ _ _ _ _ _ _ _ _ Es)
      as [Hs1 Hf1].
    rewrite Mem_bind_Ok in Hrun. destruct continue.
    + destruct (Voice.renderLoop _ _ _ _ _ _ _ _ _ _)
        as [tr2 [[[out2 v2] p2]| |]] eqn:El;
        cbn [fst snd] in Hrun; [|discriminate|discriminate].
      injection Hrun as _ <- <- <-.
      destruct (IH _ _ _ _ _ El) as [Hs2 Hf2].
      split; [congruence|].
      intros ch i Hw. rewrite Hf2 by lia. apply Hf1. lia.
    + cbn [mret Mem_mret Mem_ret fst snd] in Hrun.
      injection Hrun as _ <- _ _.
      split; [exact Hs1|]. intros ch i Hw. apply Hf1. lia.
Qed.

(** A voice on a well-formed, non-empty sample renders every block to
    the end. *)
Lemma renderNextBlock_returns (outputBuffer : AudioBuffer)
    (startSample numSamples : Z) (v : Voice.t) (p : Processor.t)
    (ptr : nat) (sample : SampleData) :
  Voice.currentSample v = Some ptr ->
  SampleEngine.samples (Processor.sampleEngine p) !! ptr = Some sample ->
  buffer_wf (audioData sample) ->
  channelData (audioData sample) <> [] ->
  exists tr st,
    Voice.renderNextBlock outputBuffer startSample numSamples v p = (tr, Ok st).
Proof.
  intros Hptr Hs Hwf Hne. unfold Voice.renderNextBlock. rewrite Hptr.
  destruct (negb (adsr_isActive (Voice.adsr v))).
  - cbn [Voice.retire mret Mem_mret Mem_ret]. eexists _, _. reflexivity.
  - unfold deref. rewrite Hs, Mem_bind_Ok. cbn [app].
    destruct (read_pointers_wf _ Hwf Hne) as [Hleft Hright].
    destruct (renderLoop_in_bounds sample
                (getReadPointer (audioData sample) 0)
                (if (getNumChannels (audioData sample) >? 1)%Z
                 then Some (getReadPointer (audioData sample) 1) else None)
                (getNumSamples (audioData sample))
                (Voice.loopStartSample sample) (Voice.loopEndSample sample)
                startSample (Z.to_nat numSamples) 0 (outputBuffer, v, p)
                Hleft Hright)
      as (tr & st & -> & _).
    eexists _, _. reflexivity.
Qed.

(** X10.  A render call that completes keeps the dimensions of the output
    buffer and writes only inside the window it was given: every frame of
    a channel other than 0 and 1, and every frame before [startSample] or
    from [startSample + numSamples] on, keeps its value. *)
Theorem render_writes_only_its_window (outputBuffer : AudioBuffer)
    (startSample numSamples : Z) (v : Voice.t) (p : Processor.t)
    (tr : list Z) (st : Voice.render_state) :
  Voice.renderNextBlock outputBuffer startSample numSamples v p = (tr, Ok st) ->
  shape st.1.1 = shape outputBuffer
  /\ forall ch i,
       (2 <= ch)%nat \/ (Z.of_nat i < startSample)%Z
       \/ (startSample + Z.max 0 numSamples <= Z.of_nat i)%Z ->
       frame st.1.1 ch i = frame outputBuffer ch i.
Proof.
  unfold Voice.renderNextBlock.
  destruct (Voice.currentSample v) as [ptr|].
  - destruct (negb (adsr_isActive (Voice.adsr v))).
    + cbn [Voice.retire mret Mem_mret Mem_ret]. intros Heq.
      injection Heq as _ <-. split; reflexivity.
    + unfold deref.
      destruct (SampleEngine.samples (Processor.sampleEngine p) !! ptr)
        as [sample|]; [|discriminate].
      rewrite Mem_bind_Ok. cbn [app fst snd].
      destruct (Voice.renderLoop _ _ _ _ _ _ _ _ _ _)
        as [tr1 [[[out1 v1] p1]| |]] eqn:El; [|discriminate|discriminate].
      intros Heq. injection Heq as _ <-. cbn [fst snd].
      destruct (renderLoop_window _ _ _ _ _ _ _ _ _ _ _ _ _ _ _ _ El) as [Hs Hf].
      split; [exact Hs|]. intros ch i Hw. apply Hf. lia.
  - cbn [Voice.retire mret Mem_mret Mem_ret]. intros Heq.
    injection Heq as _ <-. split; reflexivity.
Qed.

(** A render loop over a sample without frames reads nothing and adds
    nothing. *)
Lemma renderLoop_no_frames (currentSampleData : SampleData) (sampleData : list Q)
    (sampleDataRight : option (list Q)) (sampleLength ls le start : Z)
    (n : nat) (k : Z) (out : AudioBuffer) (v : Voice.t) (p : Processor.t) :
  (sampleLength <= 0)%Z ->
  exists out' v' p',
    Voice.renderLoop currentSampleData sampleData sampleDataRight sampleLength
                     ls le start n k (out, v, p)
    = ([], Ok (out', v', p'))
    /\ buffer_equiv out' out.
Proof.
  intros Hlen. revert k out v p.
  induction n as [|n IH]; intros k out v p.
  - eexists _, _, _. split; [reflexivity|]. split; reflexivity.
  - cbn [Voice.renderLoop].
    assert (Hout : ~ (0 <= Voice.currentPosition v < of_int sampleLength)).
    { intros [Hlo Hhi].
      assert (Hz : of_int sampleLength <= 0).
      { unfold of_int. change 0 with (inject_Z 0). rewrite <- Zle_Qle. exact Hlen. }
      lra. }
    destruct (renderSample_outside currentSampleData sampleData sampleDataRight
                sampleLength ls le start k out v p Hout)
      as (continue & out1 & v1 & p1 & -> & Heq1).
    rewrite Mem_bind_Ok. destruct continue.
    + destruct (IH (k + 1)%Z out1 v1 p1) as (out2 & v2 & p2 & -> & Heq2).
      cbn [fst snd app]. eexists _, _, _. split; [reflexivity|].
      eapply buffer_equiv_trans; eassumption.
    + cbn [mret Mem_mret Mem_ret fst snd app].
      eexists _, _, _. split; [reflexivity | exact Heq1].
Qed.

(** X11.  A note-on that finds no sample, or a sample without frames, is
    declined: the voice is not marked as playing, its envelope is not
    started, and the next render call reads no sample data and leaves
    every frame of the output buffer at its value, even when the envelope
    is still active from an earlier note. *)
Theorem declined_note_renders_silence (midiNoteNumber : Z) (vel : Q)
    (v : Voice.t) (p : Processor.t) (outputBuffer : AudioBuffer)
    (startSample numSamples : Z) :
  (SampleEngine.getSampleForNote midiNoteNumber (Processor.sampleEngine p) = None
   \/ exists ptr sample,
        SampleEngine.getSampleForNote midiNoteNumber (Processor.sampleEngine p)
        = Some ptr
        /\ SampleEngine.samples (Processor.sampleEngine p) !! ptr = Some sample
        /\ getNumSamples (audioData sample) = 0%Z) ->
  exists v' p',
    Voice.startNote midiNoteNumber vel v p = ([], Ok (v', p'))
    /\ Voice.isVoiceActive v' = false
    /\ Voice.adsr v' = Voice.adsr (Voice.updateADSRParams p v)
    /\ exists out' v'' p'',
         Voice.renderNextBlock outputBuffer startSample numSamples v' p'
         = ([], Ok (out', v'', p''))
         /\ buffer_equiv out' outputBuffer.
Proof.
  intros [Hnone | (ptr & sample & Hg & Hs & Hlen)]; unfold Voice.startNote;
    cbn [Voice.set_currentSample Voice.currentSample].
  - rewrite Hnone. eexists _, _. split; [reflexivity|].
    split; [reflexivity|]. split; [reflexivity|].
    unfold Voice.renderNextBlock.
    cbn [Voice.clearCurrentNote Voice.set_currentlyPlayingNote Voice.currentSample
         Voice.retire mret Mem_mret Mem_ret].
    eexists _, _, _. split; [reflexivity|]. split; reflexivity.
  - rewrite Hg. unfold deref. rewrite Hs, Mem_bind_Ok, Hlen.
    cbn [Z.eqb mret Mem_mret Mem_ret fst snd app].
    eexists _, _. split; [reflexivity|].
    split; [reflexivity|]. split; [reflexivity|].
    unfold Voice.renderNextBlock.
    cbn [Voice.clearCurrentNote Voice.set_currentlyPlayingNote Voice.currentSample
         Voice.set_currentSample Voice.adsr].
    destruct (negb (adsr_isActive _)).
    + cbn [Voice.retire mret Mem_mret Mem_ret].
      eexists _, _, _. split; [reflexivity|]. split; reflexivity.
    + unfold deref.
      cbn [Processor.sampleEngine Processor.store_voiceActive].
      rewrite Hs, Mem_bind_Ok. cbn [app fst snd].
      match goal with
      | |- context [Voice.renderLoop ?a ?b ?c ?d ?e ?f ?g ?n ?k (?o, ?w, ?q)] =>
          destruct (renderLoop_no_frames a b c d e f g n k o w q) as
            (out' & v'' & p'' & -> & Heq)
      end.
      * rewrite Hlen. lia.
      * eexists _, _, _. split; [reflexivity | exact Heq].
Qed.

(** [renderSample] reads the processor's matrix only through the Pitch
    destination, which [setSourceValue] does not touch. *)
Lemma renderSample_source (currentSampleData : SampleData) (sampleData : list Q)
    (sampleDataRight : option (list Q)) (sampleLength ls le start k : Z)
    (out : AudioBuffer) (v : Voice.t) (p : Processor.t)
    (source : ModulationSource) (x : Q) :
  Voice.renderSample currentSampleData sampleData sampleDataRight sampleLength
                     ls le start k (out, v, Processor.setSourceValue source x p)
  = Mem_map (fun r => (r.1, (r.2.1, Processor.setSourceValue source x r.2.2)))
      (Voice.renderSample currentSampleData sampleData sampleDataRight
                          sampleLength ls le start k (out, v, p)).
Proof.
  unfold Voice.renderSample. cbv zeta.
  cbn [Processor.modMatrix Processor.store_voicePositions Processor.setSourceValue
       ModulationMatrix.getModulationValue ModulationMatrix.setSourceValue
       ModulationMatrix.destinationValues Voice.set_normalizedPosition
       Voice.voiceIndex Voice.normalizedPosition Voice.currentPosition].
  destruct (Voice.fetch _ _ _ _) as [tr [fetched| |]];
    [|reflexivity|reflexivity].
  rewrite !Mem_bind_Ok.
  destruct (adsr_getNextSample _) as [envelopeValue a].
  cbn [Voice.scale].
  destruct (Voice.advance _ _ _ _ _ _) as [stop v2].
  destruct stop; [reflexivity|].
  destruct (negb (adsr_isActive (Voice.adsr v2))); reflexivity.
Qed.

Lemma renderLoop_source (currentSampleData : SampleData) (sampleData : list Q)
    (sampleDataRight : option (list Q)) (sampleLength ls le start : Z)
    (n : nat) (k : Z) (out : AudioBuffer) (v : Voice.t) (p : Processor.t)
    (source : ModulationSource) (x : Q) :
  Voice.renderLoop currentSampleData sampleData sampleDataRight sampleLength
                   ls le start n k (out, v, Processor.setSourceValue source x p)
  = Mem_map (fun st => (st.1, Processor.setSourceValue source x st.2))
      (Voice.renderLoop currentSampleData sampleData sampleDataRight
                        sampleLength ls le start n k (out, v, p)).
Proof.
  revert k out v p. induction n as [|n IH]; intros k out v p; [reflexivity|].
  cbn [Voice.renderLoop]. rewrite renderSample_source.
  destruct (Voice.renderSample _ _ _ _ _ _ _ _ _) as [tr [[continue st]| |]];
    [|reflexivity|reflexivity].
  unfold Mem_map at 1. cbn [fst snd]. rewrite !Mem_bind_Ok.
  destruct st as [[out' v'] p']. cbn [fst snd].
  destruct continue; [|reflexivity].
  rewrite IH.
  destruct (Voice.renderLoop _ _ _ _ _ _ _ _ _ _) as [tr' [st'| |]]; reflexivity.
Qed.

(** X12.  Nothing a voice renders depends on a source value.  Writing any
    source ([setSourceValue], and so the pitch wheel, the mod wheel, the
    velocity and the key track a note-on publishes) changes no
    destination value, and the next render call reads the same sample
    indices and leaves the same output buffer and the same voice as
    without the write. *)
Theorem source_values_never_reach_the_voice (source : ModulationSource) (x : Q)
    (newValue controllerNumber : Z) (outputBuffer : AudioBuffer)
    (startSample numSamples : Z) (v : Voice.t) (p : Processor.t) :
  (forall d,
      ModulationMatrix.getModulationValue d
        (Processor.modMatrix (Processor.setSourceValue source x p))
      = ModulationMatrix.getModulationValue d (Processor.modMatrix p))
  /\ Voice.renderNextBlock outputBuffer startSample numSamples v
       (Processor.setSourceValue source x p)
     = Mem_map (fun st => (st.1, Processor.setSourceValue source x st.2))
         (Voice.renderNextBlock outputBuffer startSample numSamples v p)
  /\ Mem_map fst (Voice.renderNextBlock outputBuffer startSample numSamples v
                    (Voice.pitchWheelMoved newValue p))
     = Mem_map fst (Voice.renderNextBlock outputBuffer startSample numSamples v p)
  /\ Mem_map fst (Voice.renderNextBlock outputBuffer startSample numSamples v
                    (Voice.controllerMoved controllerNumber newValue p))
     = Mem_map fst (Voice.renderNextBlock outputBuffer startSample numSamples v p).
Proof.
  assert (Hrender : forall src y,
    Voice.renderNextBlock outputBuffer startSample numSamples v
      (Processor.setSourceValue src y p)
    = Mem_map (fun st => (st.1, Processor.setSourceValue src y st.2))
        (Voice.renderNextBlock outputBuffer startSample numSamples v p)).
  { intros src y. unfold Voice.renderNextBlock.
    destruct (Voice.currentSample v) as [ptr|]; [|reflexivity].
    destruct (negb (adsr_isActive (Voice.adsr v))); [reflexivity|].
    unfold deref. cbn [Processor.sampleEngine Processor.setSourceValue].
    destruct (SampleEngine.samples (Processor.sampleEngine p) !! ptr)
      as [sample|]; [|reflexivity].
    rewrite !Mem_bind_Ok. rewrite renderLoop_source.
    destruct (Voice.renderLoop _ _ _ _ _ _ _ _ _ _) as [tr [st| |]]; reflexivity. }
  assert (Hfst : forall src y,
    Mem_map fst (Voice.renderNextBlock outputBuffer startSample numSamples v
                   (Processor.setSourceValue src y p))
    = Mem_map fst (Voice.renderNextBlock outputBuffer startSample numSamples v p)).
  { intros src y. rewrite Hrender.
    destruct (Voice.renderNextBlock _ _ _ _ _) as [tr [st| |]]; reflexivity. }
  split; [intros d; reflexivity|]. split; [apply Hrender|]. split.
  - unfold Voice.pitchWheelMoved. apply Hfst.
  - unfold Voice.controllerMoved.
    destruct (controllerNumber =? 1)%Z; [apply Hfst | reflexivity].
Qed.
End Voice_writes.


(** ** Sample engine: lookup after a load *)

Lemma first_in_range_app (noteNumber : Z) (l1 l2 : list SampleData) (k : nat) :
  SampleEngine.first_in_range noteNumber (l1 ++ l2) k
  = match SampleEngine.first_in_range noteNumber l1 k with
    | Some i => Some i
    | None => SampleEngine.first_in_range noteNumber l2 (k + length l1)
    end.
Proof.
  revert k. induction l1 as [|s l1 IH]; intros k.
  - cbn. f_equal. lia.
  - cbn [app SampleEngine.first_in_range length].
    destruct (SampleEngine.in_range noteNumber s); [reflexivity|].
    rewrite IH. destruct (SampleEngine.first_in_range noteNumber l1 (S k));
      [reflexivity|]. f_equal. lia.
Qed.

Lemma first_in_range_found (noteNumber : Z) (l : list SampleData) (k : nat) :
  (exists s, s ∈ l /\ SampleEngine.in_range noteNumber s = true) ->
  exists i, SampleEngine.first_in_range noteNumber l k = Some i.
Proof.
  intros (s & Hs & Hin). revert k.
  induction l as [|s0 l IH]; intros k.
  - apply elem_of_nil in Hs. contradiction.
  - cbn [SampleEngine.first_in_range].
    destruct (SampleEngine.in_range noteNumber s0) eqn:E; [eexists; reflexivity|].
    apply elem_of_cons in Hs. destruct Hs as [->|Hs]; [congruence|].
    apply IH. exact Hs.
Qed.

(** X13.  After a successful load, a note that some earlier sample's
    range contains resolves as before; a note from 0 to 127 that no
    earlier range contains, which used to fall back to the first sample,
    now resolves to the new sample; a note outside 0..127 that no range
    contains still falls back to the first sample; and after a load into
    an empty engine every note resolves to the one sample. *)
Theorem getSampleForNote_after_load (file : File) (root noteNumber : Z)
    (e : SampleEngine.t) (reader : AudioFormatReader) :
  let e' := (SampleEngine.loadSample file root e).2 in
  let covered :=
    exists s, s ∈ SampleEngine.samples e
              /\ (lowestNote s <= noteNumber <= highestNote s)%Z in
  SampleEngine.formatManager e file = Some reader ->
  (covered ->
   SampleEngine.getSampleForNote noteNumber e'
   = SampleEngine.getSampleForNote noteNumber e)
  /\ (~ covered -> (0 <= noteNumber <= 127)%Z ->
      SampleEngine.getSampleForNote noteNumber e'
      = Some (length (SampleEngine.samples e)))
  /\ (~ covered -> ~ (0 <= noteNumber <= 127)%Z ->
      SampleEngine.getSampleForNote noteNumber e' = Some 0%nat)
  /\ (SampleEngine.samples e = [] ->
      SampleEngine.getSampleForNote noteNumber e' = Some 0%nat).
Proof.
  cbn zeta. intros Hdec. unfold SampleEngine.loadSample. rewrite Hdec.
  cbn [snd]. unfold SampleEngine.getSampleForNote.
  cbn [SampleEngine.samples]. rewrite first_in_range_app.
  cbn [SampleEngine.first_in_range]. unfold SampleEngine.in_range.
  cbn [lowestNote highestNote SampleData_default].
  assert (Hnot : ~ (exists s, s ∈ SampleEngine.samples e
                      /\ (lowestNote s <= noteNumber <= highestNote s)%Z) ->
                 SampleEngine.first_in_range noteNumber (SampleEngine.samples e) 0
                 = None).
  { intros Hn. apply first_in_range_None. intros s Hs.
    apply not_true_is_false. intros Hr. apply in_range_iff in Hr.
    apply Hn. exists s. split; assumption. }
  split; [|split; [|split]].
  - intros (s & Hs & Hin).
    destruct (first_in_range_found noteNumber (SampleEngine.samples e) 0)
      as [i ->]; [|reflexivity].
    exists s. split; [exact Hs | apply in_range_iff; exact Hin].
  - intros Hn Hr. rewrite (Hnot Hn).
    assert (Hb : (noteNumber >=? 0)%Z && (noteNumber <=? 127)%Z = true)
      by (apply andb_true_iff; lia).
    rewrite Hb. reflexivity.
  - intros Hn Hr. rewrite (Hnot Hn).
    assert (Hb : (noteNumber >=? 0)%Z && (noteNumber <=? 127)%Z = false).
    { apply not_true_is_false. intros Hb. apply andb_true_iff in Hb. lia. }
    rewrite Hb. destruct (SampleEngine.samples e); reflexivity.
  - intros ->. cbn [SampleEngine.first_in_range app length].
    destruct ((noteNumber >=? 0)%Z && (noteNumber <=? 127)%Z); reflexivity.
Qed.

(** ** Voice: past the end of a sample *)

Section Voice_exhausted.
Context `{Libm} `{RandomOps} `{ADSROps}.

(** X14.  Once the cursor of a voice with an active envelope is at or
    past the end of its sample and the sample does not loop, a render
    call of any length runs one single iteration: it reads no sample
    data, adds nothing to the output, takes one sample from the envelope,
    sends it [noteOff] if it is still active, advances the cursor once
    and leaves the loop.  The envelope therefore moves by one sample per
    block, not per frame. *)
Theorem exhausted_sample_renders_one_iteration (outputBuffer : AudioBuffer)
    (startSample numSamples : Z) (v : Voice.t) (p : Processor.t)
    (ptr : nat) (sample : SampleData) :
  let inc := Voice.positionIncrement v
             * pow 2 (ModulationMatrix.getModulationValue Pitch
                        (Processor.modMatrix p)) in
  let a1 := (adsr_getNextSample (Voice.adsr v)).2 in
  Voice.currentSample v = Some ptr ->
  SampleEngine.samples (Processor.sampleEngine p) !! ptr = Some sample ->
  adsr_isActive (Voice.adsr v) = true ->
  loopEnabled sample = false ->
  of_int (getNumSamples (audioData sample)) <= Voice.currentPosition v ->
  0 <= inc ->
  (0 < numSamples)%Z ->
  exists out' v' p',
    Voice.renderNextBlock outputBuffer startSample numSamples v p
    = ([], Ok (out', v', p'))
    /\ buffer_equiv out' outputBuffer
    /\ Voice.currentPosition v' = Voice.currentPosition v + inc
    /\ Voice.adsr v' = (if adsr_isActive a1 then adsr_noteOff a1 else a1)
    /\ Voice.currentlyPlayingNote v' = Voice.currentlyPlayingNote v.
Proof.
  cbn zeta. intros Hptr Hs Hact Hloop Hend Hinc Hn.
  unfold Voice.renderNextBlock. rewrite Hptr, Hact. cbn [negb].
  unfold deref. rewrite Hs, Mem_bind_Ok. cbn [app fst snd].
  destruct (Z.to_nat numSamples) as [|n] eqn:En; [lia|].
  cbn [Voice.renderLoop].
  assert (Hout : ~ (0 <= Voice.currentPosition v
                    < of_int (getNumSamples (audioData sample)))) by lra.
  unfold Voice.renderSample.
  cbn [Voice.set_normalizedPosition Voice.currentPosition Voice.voiceIndex
       Voice.normalizedPosition Voice.adsr Voice.velocity Voice.positionIncrement
       Processor.modMatrix Processor.store_voicePositions].
  rewrite (fetch_outside _ _ _ _ Hout), Mem_bind_Ok.
  destruct (adsr_getNextSample (Voice.adsr v)) as [envelopeValue a].
  cbn [Voice.scale fst snd].
  set (zero := 0 * (envelopeValue * Voice.velocity v)).
  assert (Hzero : zero == 0) by (unfold zero; lra).
  set (out1 := if (getNumChannels outputBuffer >? 0)%Z
               then addSample 0 (startSample + 0) zero outputBuffer
               else outputBuffer).
  assert (Hout1 : buffer_equiv out1 outputBuffer).
  { unfold out1. destruct (getNumChannels outputBuffer >? 0)%Z.
    - apply addSample_zero. exact Hzero.
    - split; reflexivity. }
  set (out2 := if (getNumChannels out1 >? 1)%Z
               then addSample 1 (startSample + 0) zero out1 else out1).
  assert (Hout2 : buffer_equiv out2 outputBuffer).
  { unfold out2. destruct (getNumChannels out1 >? 1)%Z.
    - eapply buffer_equiv_trans; [apply addSample_zero; exact Hzero | exact Hout1].
    - exact Hout1. }
  unfold Voice.advance. rewrite Hloop. cbn [andb].
  cbn [Voice.set_currentPosition Voice.currentPosition Voice.set_adsr Voice.adsr
       Voice.set_normalizedPosition Voice.positionIncrement].
  set (inc := Voice.positionIncrement v
              * pow 2 (ModulationMatrix.getModulationValue Pitch
                         (Processor.modMatrix p))) in *.
  match goal with
  | |- context [Qgeb ?a ?b] =>
      assert (Hge : Qgeb a b = true) by (apply Qgeb_true; lra); rewrite Hge
  end.
  cbn [mret Mem_mret Mem_ret Mem_mbind Mem_bind mbind fst snd app].
  eexists _, _, _. split; [reflexivity|].
  split; [exact Hout2|].
  destruct (adsr_isActive a); repeat split; reflexivity.
Qed.
End Voice_exhausted.

(** ** The loop markers under the mouse *)

Section Loop_markers.

Lemma jlimit_unit (x : Q) : 0 <= jlimit 0 1 x <= 1.
Proof.
  unfold jlimit.
  destruct (Qltb x 0) eqn:E1; [lra|].
  destruct (Qltb 1 x) eqn:E2; [lra|].
  apply Qltb_false in E1, E2. lra.
Qed.

(** The limited abscissa lies between 0 and 1, and it is a number
    whenever the width is not 0. *)
Lemma limited_mouseX_unit (e_x getWidth : Z) (x : Q) :
  WaveformDisplay.limited_mouseX e_x getWidth = Some x -> 0 <= x <= 1.
Proof.
  unfold WaveformDisplay.limited_mouseX.
  destruct (getWidth =? 0)%Z.
  - destruct (0 <? e_x)%Z; [intros [= <-]; lra|].
    destruct (e_x <? 0)%Z; [intros [= <-]; lra | discriminate].
  - intros [= <-]. apply jlimit_unit.
Qed.

Lemma limited_mouseX_defined (e_x getWidth : Z) :
  getWidth <> 0%Z ->
  exists x, WaveformDisplay.limited_mouseX e_x getWidth = Some x.
Proof.
  intros Hw. unfold WaveformDisplay.limited_mouseX.
  apply Z.eqb_neq in Hw. rewrite Hw. eexists. reflexivity.
Qed.

(** A drag that moves the start marker. *)
Lemma drag_start_markers (x : Q) (s : SampleData) :
  0 <= x <= 1 ->
  markers_ok s ->
  markers_ok (set_loopStart (jmin x (fl32 (loopEnd s - fl32 0.01))) s).
Proof.
  intros Hx (Hs & He & Hgap). unfold markers_ok.
  cbn [loopStart loopEnd set_loopStart].
  assert (F0 : fl32 0 == 0) by (vm_compute; reflexivity).
  assert (Fc : fl32 0.01 == 5368709 # 536870912) by (vm_compute; reflexivity).
  pose proof (fl32_le 0 (loopEnd s - fl32 0.01) ltac:(lra)) as Hlo.
  pose proof (fl32_le (loopEnd s - fl32 0.01) (1 - fl32 0.01) ltac:(lra)) as Hhi.
  pose proof (fl32_error (loopEnd s - fl32 0.01) ltac:(lra)) as Herr.
  rewrite F0 in Hlo.
  set (c := fl32 0.01) in *. set (top := fl32 (1 - c)) in *.
  set (y := fl32 (loopEnd s - c)) in *.
  unfold jmin. destruct (Qltb y x) eqn:E.
  - apply Qltb_true in E. lra.
  - apply Qltb_false in E. lra.
Qed.

(** A drag that moves the end marker. *)
Lemma drag_end_markers (x : Q) (s : SampleData) :
  0 <= x <= 1 ->
  markers_ok s ->
  markers_ok (set_loopEnd (jmax x (fl32 (loopStart s + fl32 0.01))) s).
Proof.
  intros Hx (Hs & He & Hgap). unfold markers_ok.
  cbn [loopStart loopEnd set_loopEnd].
  assert (Fc : fl32 0.01 == 5368709 # 536870912) by (vm_compute; reflexivity).
  assert (Fcc : fl32 (fl32 0.01) == fl32 0.01) by (vm_compute; reflexivity).
  assert (Ft : fl32 (1 - fl32 0.01) == 4152361 # 4194304)
    by (vm_compute; reflexivity).
  assert (F1 : fl32 (fl32 (1 - fl32 0.01) + fl32 0.01) == 1)
    by (vm_compute; reflexivity).
  pose proof (fl32_le (fl32 0.01) (loopStart s + fl32 0.01) ltac:(lra)) as Hlo.
  pose proof (fl32_le (loopStart s + fl32 0.01)
                (fl32 (1 - fl32 0.01) + fl32 0.01) ltac:(lra)) as Hhi.
  pose proof (fl32_error (loopStart s + fl32 0.01) ltac:(lra)) as Herr.
  rewrite Fcc in Hlo. rewrite F1 in Hhi.
  set (c := fl32 0.01) in *. set (top := fl32 (1 - c)) in *.
  set (y := fl32 (loopStart s + c)) in *.
  unfold jmax. destruct (Qltb x y) eqn:E.
  - apply Qltb_true in E. lra.
  - apply Qltb_false in E. lra.
Qed.

Lemma mouseDrag_markers (e_x getWidth : Z) (d : WaveformDisplay.t)
    (e : SampleEngine.t) (s : SampleData) (rest : list SampleData) :
  getWidth <> 0%Z ->
  SampleEngine.samples e = s :: rest ->
  markers_ok s ->
  exists e' s',
    WaveformDisplay.mouseDrag e_x getWidth d e = Some e'
    /\ SampleEngine.samples e' = s' :: rest
    /\ markers_ok s'.
Proof.
  intros Hw Hs Hok. unfold WaveformDisplay.mouseDrag. rewrite Hs.
  destruct (limited_mouseX_defined e_x getWidth Hw) as [x Hx].
  pose proof (limited_mouseX_unit e_x getWidth x Hx) as Hunit.
  rewrite Hx.
  destruct (WaveformDisplay.draggingLoopStart d).
  - eexists _, _. split; [reflexivity|]. split; [reflexivity|].
    apply drag_start_markers; assumption.
  - destruct (WaveformDisplay.draggingLoopEnd d).
    + eexists _, _. split; [reflexivity|]. split; [reflexivity|].
      apply drag_end_markers; assumption.
    + exists e, s. auto.
Qed.

(** X15.  Whatever sequence of presses, drags and releases a waveform
    display of a width other than 0 receives, every marker it stores is a
    number and the loop markers of the first sample keep their order: the
    start marker is at least 0, the end marker at most 1, and the end
    marker exceeds the start marker by [0.01f] up to the rounding of one
    [float] operation, [2^-24]; the other samples are not touched. *)
Theorem mouse_gestures_keep_loop_markers_ordered (getWidth : Z)
    (cs : list WaveformDisplay.callback)
    (d : WaveformDisplay.t) (e : SampleEngine.t) (s : SampleData)
    (rest : list SampleData) :
  getWidth <> 0%Z ->
  SampleEngine.samples e = s :: rest ->
  markers_ok s ->
  exists d' e' s',
    fold_left (WaveformDisplay.deliver getWidth) cs (Some (d, e)) = Some (d', e')
    /\ SampleEngine.samples e' = s' :: rest
    /\ markers_ok s'
    /\ 0 <= loopStart s' /\ loopStart s' < loopEnd s' /\ loopEnd s' <= 1.
Proof.
  intros Hw. revert d e s. induction cs as [|c cs IH]; intros d e s Hs Hok.
  - exists d, e, s. cbn [fold_left].
    assert (Fc : fl32 0.01 == 5368709 # 536870912) by (vm_compute; reflexivity).
    pose proof Hok as (Hs1 & He1 & Hgap).
    split; [reflexivity|]. split; [exact Hs|]. split; [exact Hok|].
    repeat split; lra.
  - cbn [fold_left]. destruct c as [e_x|e_x|]; cbn [WaveformDisplay.deliver].
    + apply (IH _ e s Hs Hok).
    + destruct (mouseDrag_markers e_x getWidth d e s rest Hw Hs Hok)
        as (e1 & s1 & -> & Hs1 & Hok1).
      apply (IH d e1 s1 Hs1 Hok1).
    + apply (IH _ e s Hs Hok).
Qed.

(** Up to [2^24] the rounding error is at most one half. *)
Lemma fl32_error_frames (x : Q) :
  0 <= x <= inject_Z (2 ^ 24) -> - (1 # 2) <= fl32 x - x <= 1 # 2.
Proof.
  intros [Hx0 Hx1].
  destruct (Qlt_le_dec x (inject_Z (2 ^ 24))) as [Hlt|Hge].
  - rewrite (fl32_pos_eq x Hx0).
    assert (Hp : 2 ^ (23 - 24) == 1 # 2) by reflexivity.
    assert (Hq : 2 ^ (23 + 1) == inject_Z (2 ^ 24)) by reflexivity.
    pose proof (round32_error x 23 Hx0 ltac:(rewrite Hq; exact Hlt) ltac:(lia))
      as He.
    rewrite Hp in He. exact He.
  - assert (Heq : x == inject_Z (2 ^ 24)) by lra.
    rewrite (fl32_comp _ _ Heq), (fl32_Z (2 ^ 24)) by lia. lra.
Qed.

(** X16.  For markers in order between 0 and 1 and a sample of at most
    [2^24] frames (a length that its conversion to [float] keeps), the
    loop bounds [renderNextBlock] computes are in order and inside the
    sample, and each is less than a frame and a half from its marker
    times the length. *)
Theorem ordered_markers_bound_the_loop (s : SampleData) :
  let len := getNumSamples (audioData s) in
  let near marker bound :=
    marker * of_int len - (3 # 2) < of_int bound <= marker * of_int len + (1 # 2) in
  0 <= loopStart s <= loopEnd s ->
  loopEnd s <= 1 ->
  (0 <= len <= 2 ^ 24)%Z ->
  (0 <= Voice.loopStartSample s <= Voice.loopEndSample s)%Z
  /\ (Voice.loopEndSample s <= len)%Z
  /\ near (loopStart s) (Voice.loopStartSample s)
  /\ near (loopEnd s) (Voice.loopEndSample s).
Proof.
  cbn zeta. intros [Hs0 Hse] He1 Hlen.
  unfold Voice.loopStartSample, Voice.loopEndSample, of_int.
  pose proof (fl32_Z _ Hlen) as HL.
  assert (Hnn : 0 <= inject_Z (getNumSamples (audioData s))).
  { change 0 with (inject_Z 0). rewrite <- Zle_Qle. lia. }
  assert (Hmax : inject_Z (getNumSamples (audioData s)) <= inject_Z (2 ^ 24)).
  { rewrite <- Zle_Qle. lia. }
  set (N := inject_Z (getNumSamples (audioData s))) in *.
  set (L := fl32 N) in *.
  assert (F0 : fl32 0 == 0) by (vm_compute; reflexivity).
  assert (Hx : 0 <= loopStart s * L) by (apply Qmult_le_0_compat; lra).
  assert (Hxy : loopStart s * L <= loopEnd s * L)
    by (apply Qmult_le_compat_r; lra).
  assert (Hy : loopEnd s * L <= N).
  { assert (0 <= (1 - loopEnd s) * L) by (apply Qmult_le_0_compat; lra). lra. }
  assert (HxN : loopStart s * L == loopStart s * N) by (rewrite HL; reflexivity).
  assert (HyN : loopEnd s * L == loopEnd s * N) by (rewrite HL; reflexivity).
  pose proof (fl32_le _ _ Hx) as Hfx. rewrite F0 in Hfx.
  pose proof (fl32_le _ _ Hxy) as Hfxy.
  pose proof (fl32_le _ _ Hy) as Hfy. fold L in Hfy.
  pose proof (fl32_error_frames (loopStart s * L) ltac:(lra)) as Hex.
  pose proof (fl32_error_frames (loopEnd s * L) ltac:(lra)) as Hey.
  destruct (to_int_nonneg _ Hfx) as (Ha0 & Ha1 & Ha2).
  pose proof (to_int_le _ _ Hfx Hfxy) as Hab.
  destruct (to_int_nonneg (fl32 (loopEnd s * L)) ltac:(lra)) as (_ & Hb1 & Hb2).
  rewrite inject_Z_plus in Ha2, Hb2. change (inject_Z 1) with 1 in Ha2, Hb2.
  assert (Hbl : inject_Z (to_int (fl32 (loopEnd s * L))) <= N) by lra.
  unfold N in Hbl. rewrite <- Zle_Qle in Hbl.
  split; [lia|]. split; [exact Hbl|]. split; split; lra.
Qed.

End Loop_markers.

(** ** Dropped files *)

Section Dropped_files.
Context `{FileSystem}.

Lemma loadSample_samples (file : File) (root : Z) (e : SampleEngine.t) :
  SampleEngine.samples (SampleEngine.loadSample file root e).2
  = SampleEngine.samples e
    ++ match SampleEngine.formatManager e file with
       | Some reader => [newSample file root reader]
       | None => []
       end
  /\ SampleEngine.formatManager (SampleEngine.loadSample file root e).2
     = SampleEngine.formatManager e.
Proof.
  unfold SampleEngine.loadSample.
  destruct (SampleEngine.formatManager e file) as [reader|] eqn:E.
  - cbn [snd SampleEngine.samples SampleEngine.formatManager]. split; reflexivity.
  - cbn [snd]. rewrite app_nil_r. split; [reflexivity | reflexivity].
Qed.

(** What one file name of a drop contributes. *)
Lemma drop_fold (decode : AudioFormatManager) (files : list string)
    (e : SampleEngine.t) :
  SampleEngine.formatManager e = decode ->
  let e' :=
    fold_left
      (fun e filename =>
         let file := File_of_path filename in
         if existsAsFile file
         then (SampleEngine.loadSample_default file e).2
         else e)
      files e in
  SampleEngine.samples e'
  = SampleEngine.samples e
    ++ omap (fun filename =>
               let file := File_of_path filename in
               if existsAsFile file
               then option_map (newSample file 60) (decode file)
               else None) files
  /\ SampleEngine.formatManager e' = decode.
Proof.
  revert e. induction files as [|filename files IH]; intros e He; cbn zeta.
  - cbn [fold_left omap list_omap]. rewrite app_nil_r. auto.
  - cbn [fold_left]. cbn zeta.
    destruct (existsAsFile (File_of_path filename)) eqn:Eex.
    + destruct (loadSample_samples (File_of_path filename) 60 e) as [Hs Hf].
      change (SampleEngine.loadSample (File_of_path filename) 60 e)
        with (SampleEngine.loadSample_default (File_of_path filename) e)
        in Hs, Hf.
      assert (He1 : SampleEngine.formatManager
                      (SampleEngine.loadSample_default (File_of_path filename) e).2
                    = decode) by (rewrite Hf; exact He).
      destruct (IH _ He1) as [IHs IHf].
      cbn zeta in IHs, IHf. rewrite IHs, IHf, Hs, He.
      split; [|reflexivity].
      cbn [omap list_omap]. cbn zeta. rewrite Eex.
      destruct (decode (File_of_path filename)); cbn [option_map].
      * rewrite <- app_assoc. reflexivity.
      * rewrite app_nil_r. reflexivity.
    + destruct (IH e He) as [IHs IHf]. cbn zeta in IHs, IHf.
      rewrite IHs, IHf. split; [|reflexivity].
      cbn [omap list_omap]. cbn zeta. rewrite Eex. reflexivity.
Qed.

(** X17.  After a drop the engine holds exactly the dropped files that
    exist and decode, in the order of the drop, each with root note 60 and
    the whole keyboard as its range; the samples loaded before are gone.
    Every note number is then mapped to the first of them. *)
Theorem filesDropped_replaces_samples (files : list string) (ed : Editor.t)
    (e : SampleEngine.t) (noteNumber : Z) :
  let r := Editor.filesDropped files ed e in
  Editor.isDragOver r.1 = false
  /\ SampleEngine.samples r.2
     = omap (fun filename =>
               let file := File_of_path filename in
               if existsAsFile file
               then option_map (newSample file 60)
                               (SampleEngine.formatManager e file)
               else None) files
  /\ SampleEngine.getSampleForNote noteNumber r.2
     = match SampleEngine.samples r.2 with
       | [] => None
       | _ :: _ => Some 0%nat
       end.
Proof.
  cbn zeta. unfold Editor.filesDropped. cbn [fst snd Editor.isDragOver].
  destruct (drop_fold (SampleEngine.formatManager e) files
              (SampleEngine.clearSamples e) eq_refl) as [Hs _].
  cbn zeta in Hs. cbn [SampleEngine.clearSamples SampleEngine.samples app] in Hs.
  split; [reflexivity|]. split; [exact Hs|].
  unfold SampleEngine.getSampleForNote. rewrite Hs.
  set (l := omap _ files).
  assert (Hl : Forall (fun s => lowestNote s = 0%Z /\ highestNote s = 127%Z) l).
  { unfold l. clear. induction files as [|f files IH]; [constructor|].
    cbn [omap list_omap]. cbn zeta.
    destruct (existsAsFile (File_of_path f)); [|exact IH].
    destruct (SampleEngine.formatManager e (File_of_path f)); cbn [option_map].
    - constructor; [split; reflexivity | exact IH].
    - exact IH. }
  destruct l as [|s l']; [reflexivity|].
  cbn [SampleEngine.first_in_range].
  destruct (SampleEngine.in_range noteNumber s) eqn:Es; [reflexivity|].
  assert (Hnone : forall i, SampleEngine.first_in_range noteNumber l' i = None).
  { apply List.Forall_cons_iff in Hl. destruct Hl as [[Hlo Hhi] Hl'].
    induction Hl' as [|s' l'' [Hlo' Hhi'] _ IH]; intros i; [reflexivity|].
    cbn [SampleEngine.first_in_range].
    replace (SampleEngine.in_range noteNumber s')
      with (SampleEngine.in_range noteNumber s).
    - rewrite Es. apply IH.
    - unfold SampleEngine.in_range. rewrite Hlo, Hhi, Hlo', Hhi'. reflexivity. }
  rewrite Hnone. reflexivity.
Qed.

End Dropped_files.

(** ** Saving and restoring the samples *)

Section Saved_state.
Context `{FileSystem}.

Lemma alter_last {A} (f : A -> A) (l : list A) (x : A) :
  alter f (length (l ++ [x]) - 1)%nat (l ++ [x]) = l ++ [f x].
Proof.
  rewrite length_app. cbn [length].
  replace (length l + 1 - 1)%nat with (length l + 0)%nat by lia.
  rewrite alter_app_r. reflexivity.
Qed.

Lemma restoreSample_nonempty (sampleState : SampleState) (e : SampleEngine.t)
    (l : list SampleData) (s : SampleData) :
  let path := getProperty (prop_filePath sampleState) "" in
  let file := File_of_path path in
  let root := getProperty (prop_rootNote sampleState) 60%Z in
  path <> "" ->
  existsAsFile file = true ->
  SampleEngine.samples (SampleEngine.loadSample file root e).2 = l ++ [s] ->
  SampleEngine.samples (PluginState.restoreSample sampleState e)
  = l ++ [PluginState.restore_settings sampleState s]
  /\ SampleEngine.formatManager (PluginState.restoreSample sampleState e)
     = SampleEngine.formatManager e.
Proof.
  cbn zeta. intros Hpath Hex Hs. unfold PluginState.restoreSample.
  apply String.eqb_neq in Hpath. rewrite Hpath. cbn [negb]. rewrite Hex.
  destruct (loadSample_samples
              (File_of_path (getProperty (prop_filePath sampleState) ""))
              (getProperty (prop_rootNote sampleState) 60%Z) e) as [_ Hf].
  rewrite Hs.
  destruct (l ++ [s]) as [|s0 l0] eqn:El.
  - destruct l; discriminate El.
  - rewrite <- El. cbn [SampleEngine.samples SampleEngine.formatManager].
    rewrite alter_last. split; [reflexivity | exact Hf].
Qed.

Lemma restore_fold (decode : AudioFormatManager) (l : list SampleData)
    (e : SampleEngine.t) :
  SampleEngine.formatManager e = decode ->
  Forall (PluginState.restorable decode) l ->
  PluginState.samplesState_of
    (fold_left (fun e sampleState => PluginState.restoreSample sampleState e)
               (map PluginState.sampleState_of l) e)
  = PluginState.samplesState_of e ++ map PluginState.sampleState_of l.
Proof.
  intros He Hl. revert e He.
  induction Hl as [|s l (Hp & Hex & [reader Hdec] & Hfull & Hname) _ IH];
    intros e He.
  - cbn [map fold_left]. rewrite app_nil_r. reflexivity.
  - cbn [map fold_left].
    destruct (loadSample_samples (File_of_path (filePath s)) (rootNote s) e)
      as [Hs _].
    rewrite He, Hdec in Hs.
    destruct (restoreSample_nonempty (PluginState.sampleState_of s) e
                (SampleEngine.samples e)
                (newSample (File_of_path (filePath s)) (rootNote s) reader)
                Hp Hex Hs) as [Hs' Hf'].
    rewrite IH by (rewrite Hf'; exact He).
    unfold PluginState.samplesState_of at 1. rewrite Hs'.
    rewrite map_app, <- app_assoc. f_equal. cbn [map app]. f_equal.
    unfold PluginState.sampleState_of, PluginState.restore_settings, newSample.
    cbn. rewrite Hfull, Hname. reflexivity.
Qed.

(** X18.  Save, restore, save again gives the same tree: when the file of
    every saved sample still exists under its path and decodes, the
    samples restored from the saved tree carry the saved path, name, root
    note, key range and loop settings, in the saved order, whatever the
    engine held before. *)
Theorem saved_samples_restore (e e0 : SampleEngine.t) :
  Forall (PluginState.restorable (SampleEngine.formatManager e0)) (SampleEngine.samples e) ->
  PluginState.samplesState_of
    (PluginState.restoreSamples (PluginState.samplesState_of e) e0)
  = PluginState.samplesState_of e.
Proof.
  intros Hl. unfold PluginState.restoreSamples.
  unfold PluginState.samplesState_of at 2.
  rewrite (restore_fold (SampleEngine.formatManager e0)); [reflexivity | reflexivity | exact Hl].
Qed.

(** X19.  A child whose file exists but does not decode adds no sample,
    and its key range and loop settings overwrite those of the sample
    restored before it. *)
Theorem undecodable_child_overwrites_previous_sample
    (sampleState : SampleState) (e : SampleEngine.t)
    (l : list SampleData) (s : SampleData) :
  let path := getProperty (prop_filePath sampleState) "" in
  path <> "" ->
  existsAsFile (File_of_path path) = true ->
  SampleEngine.formatManager e (File_of_path path) = None ->
  SampleEngine.samples e = l ++ [s] ->
  SampleEngine.samples (PluginState.restoreSample sampleState e)
  = l ++ [PluginState.restore_settings sampleState s].
Proof.
  cbn zeta. intros Hp Hex Hdec Hs.
  destruct (loadSample_samples
              (File_of_path (getProperty (prop_filePath sampleState) ""))
              (getProperty (prop_rootNote sampleState) 60%Z) e) as [Hs1 _].
  rewrite Hdec, app_nil_r, Hs in Hs1.
  apply (restoreSample_nonempty sampleState e l s Hp Hex Hs1).
Qed.

End Saved_state.

(** ** MIDI controllers *)

Section Controllers.
Context `{Libm} `{RandomOps}.

(** X20.  A 14-bit pitch wheel value is stored as a bend within
    [1.0f / 6.0f] of zero (two semitones, in octaves, as the division by
    [12.0f] rounds it), zero exactly at the centre 8192; a 7-bit value of
    controller 1 is stored as a mod-wheel value between 0 and 1; every
    other controller leaves the processor as it is. *)
Theorem controllers_store_normalised_values (controllerNumber newValue : Z)
    (p : Processor.t) :
  ((0 <= newValue <= 16383)%Z ->
   exists x,
     ModulationMatrix.sourceValues
       (Processor.modMatrix (Voice.pitchWheelMoved newValue p)) !! PitchBend
     = Some x
     /\ - fl32 (1 # 6) <= x <= fl32 (1 # 6)
     /\ (x == 0 <-> newValue = 8192%Z))
  /\ ((0 <= newValue <= 127)%Z ->
      exists x,
        ModulationMatrix.sourceValues
          (Processor.modMatrix (Voice.controllerMoved 1 newValue p)) !! ModWheel
        = Some x
        /\ 0 <= x <= 1)
  /\ (controllerNumber <> 1%Z ->
      Voice.controllerMoved controllerNumber newValue p = p).
Proof.
  assert (F0 : fl32 0 == 0) by (vm_compute; reflexivity).
  assert (F1 : fl32 1 == 1) by (vm_compute; reflexivity).
  split; [|split].
  - intros [Hlo Hhi]. eexists. split.
    + unfold Voice.pitchWheelMoved, Processor.setSourceValue,
        ModulationMatrix.setSourceValue.
      cbn [Processor.modMatrix ModulationMatrix.sourceValues].
      apply lookup_insert_eq.
    + set (z := of_int (newValue - 8192)).
      assert (Hz : z / 8192 * 2 / 12 == z * (1 # 49152)) by field.
      assert (Hz1 : -8192 <= z).
      { unfold z, of_int. change (-8192) with (inject_Z (-8192)).
        rewrite <- Zle_Qle. lia. }
      assert (Hz2 : z <= 8191).
      { unfold z, of_int. change 8191 with (inject_Z 8191).
        rewrite <- Zle_Qle. lia. }
      assert (Fs : fl32 (- (1 # 6)) == - fl32 (1 # 6)) by (vm_compute; reflexivity).
      assert (Fp : 0 < fl32 (1 # 49152)) by (vm_compute; reflexivity).
      assert (Fn : fl32 (- (1 # 49152)) < 0) by (vm_compute; reflexivity).
      set (y := z / 8192 * 2 / 12) in *.
      pose proof (fl32_le (- (1 # 6)) y ltac:(lra)) as Hbl.
      pose proof (fl32_le y (1 # 6) ltac:(lra)) as Hbu.
      split; [lra|]. split.
      * intros Hx.
        assert (Hz0 : ~ 1 <= z).
        { intros Hc. pose proof (fl32_le (1 # 49152) y ltac:(lra)). lra. }
        assert (Hz0' : ~ z <= -1).
        { intros Hc. pose proof (fl32_le y (- (1 # 49152)) ltac:(lra)). lra. }
        assert (Hlt : inject_Z (newValue - 8192) < inject_Z 1)
          by (apply Qnot_le_lt; exact Hz0).
        assert (Hgt : inject_Z (-1) < inject_Z (newValue - 8192))
          by (apply Qnot_le_lt; exact Hz0').
        rewrite <- Zlt_Qlt in Hlt, Hgt. lia.
      * intros ->. rewrite (fl32_comp y 0); [exact F0|].
        unfold y, z. reflexivity.
  - intros [Hlo Hhi]. eexists. split.
    + unfold Voice.controllerMoved. cbn [Z.eqb Pos.eqb].
      unfold Processor.setSourceValue, ModulationMatrix.setSourceValue.
      cbn [Processor.modMatrix ModulationMatrix.sourceValues].
      apply lookup_insert_eq.
    + set (z := of_int newValue).
      assert (Hz : z / 127 == z * (1 # 127)) by field.
      assert (Hz1 : 0 <= z).
      { unfold z, of_int. change 0 with (inject_Z 0).
        rewrite <- Zle_Qle. lia. }
      assert (Hz2 : z <= 127).
      { unfold z, of_int. change 127 with (inject_Z 127).
        rewrite <- Zle_Qle. lia. }
      set (y := z / 127) in *.
      pose proof (fl32_le 0 y ltac:(lra)) as Hbl.
      pose proof (fl32_le y 1 ltac:(lra)) as Hbu.
      lra.
  - intros Hc. unfold Voice.controllerMoved.
    apply Z.eqb_neq in Hc. rewrite Hc. reflexivity.
Qed.
End Controllers.

(** ** Further runs on the reference instances *)

Section Concrete_runs.
Local Existing Instance Reference.libm.
Local Existing Instance Reference.random.
Local Existing Instance Reference.adsr.
Local Existing Instance Cases.bypass.
Local Existing Instance Cases.disk.

(** Decides a closed comparison of rationals or integers by evaluation. *)
Ltac qeval :=
  vm_compute;
  first [ reflexivity
        | discriminate
        | (intro; discriminate)
        | (split; [intro; discriminate | reflexivity])
        | (split; intro; discriminate)
        | (let Hc := fresh in intro Hc; apply Hc; reflexivity) ].

(** Witness of [filter_cutoff_fractional_bias]: a base cutoff of 1000
    Hz biased by a half runs at 1500 Hz; 30 Hz biased by minus a half is
    held at 20 Hz; 19000 Hz biased by a half is held at 20000 Hz. *)
Lemma filter_cutoff_fractional_bias_witness :
  let run cutoff value :=
    FilterEngine.cutoffFrequency
      (FilterEngine.processBlock
         (Cases.with_cutoff cutoff) (Cases.biased value) (Scenario.silence 4)
         (FilterEngine.setModulationMatrix attached Cases.filter)).2 in
  run 1000 0.5 = 1000 + 0.5 * 1000
  /\ run 30 (-0.5) = 20
  /\ run 19000 0.5 = 20000.
Proof.
  cbn zeta. split; [|split].
  - apply (proj1 (filter_cutoff_fractional_bias (Cases.with_cutoff 1000)
                    (Cases.biased 0.5) (Scenario.silence 4) Cases.filter)).
    split; qeval.
  - apply (proj1 (proj2 (filter_cutoff_fractional_bias (Cases.with_cutoff 30)
                           (Cases.biased (-0.5)) (Scenario.silence 4)
                           Cases.filter))).
    qeval.
  - apply (proj1 (proj2 (proj2 (filter_cutoff_fractional_bias
                                  (Cases.with_cutoff 19000) (Cases.biased 0.5)
                                  (Scenario.silence 4) Cases.filter)))).
    qeval.
Defined.

(** Witness of [lfo_phase_stays_in_unit_interval]: eight calls of the
    sine oscillator at 1 Hz, sampled at 1000 Hz. *)
Lemma lfo_phase_stays_in_unit_interval_witness :
  0 <= LFO.phase (LFO.run 8 (Cases.oscillator 0)).2 < 1.
Proof.
  apply (lfo_phase_stays_in_unit_interval 8 (Cases.oscillator 0)); qeval.
Defined.

(** Witness of [lfo_output_within_unit_range]: eight calls of the
    triangle at 1 Hz, sampled at 1000 Hz, and one call at phase 1. *)
Lemma lfo_output_within_unit_range_witness :
  Forall (fun o => -1 <= o <= 1) (LFO.run 8 (Cases.oscillator 1)).1
  /\ -1 <= (LFO.getNextSample (LFO.set_phase 1 (Cases.oscillator 1))).1 <= 1.
Proof.
  destruct (lfo_output_within_unit_range 8 (Cases.oscillator 1)) as [Hrun Hone];
    [qeval | qeval | qeval |].
  split; [exact Hrun | apply Hone; qeval].
Defined.

(** Witness of [processBlock_keeps_other_sources]: the mod wheel over a
    block of four frames. *)
Lemma processBlock_keeps_other_sources_witness :
  ModulationMatrix.sourceValues
    (ModulationMatrix.processBlock Cases.parameters 4 Scenario.matrix) !! ModWheel
  = ModulationMatrix.sourceValues Scenario.matrix !! ModWheel
  /\ ModulationMatrix.sourceValues
       (ModulationMatrix.processBlock Cases.parameters 4
          (ModulationMatrix.setSourceValue ModWheel 0.5 Scenario.matrix)) !! ModWheel
     = Some 0.5.
Proof.
  apply (processBlock_keeps_other_sources Cases.parameters 4 Scenario.matrix
           ModWheel 0.5); discriminate.
Defined.

(** Witness of [processBlock_biases_bounded]: the three oscillators on
    waveforms 1, 2 and 3 at half amount, at 1 Hz and 44100 Hz from phase
    0. *)
Lemma processBlock_biases_bounded_witness :
  let m' := ModulationMatrix.processBlock Cases.parameters 4 Scenario.matrix in
  -0.5 <= ModulationMatrix.getModulationValue FilterCutoff m' <= 0.5
  /\ - fl32 0.1 <= ModulationMatrix.getModulationValue Pitch m' <= fl32 0.1
  /\ - fl32 0.3 <= ModulationMatrix.getModulationValue Volume m' <= fl32 0.3.
Proof.
  cbn zeta.
  destruct (processBlock_biases_bounded Cases.parameters 4 Scenario.matrix
              ltac:(lia)) as (H1 & H2 & H3).
  split; [|split].
  - apply H1; qeval.
  - apply H2; qeval.
  - apply H3; qeval.
Defined.

(** Witness of [modulated_cutoff_within_half_of_base]: a base cutoff of
    1000 Hz. *)
Lemma modulated_cutoff_within_half_of_base_witness :
  let matrix := ModulationMatrix.processBlock Cases.parameters 4 Scenario.matrix in
  let e' := (FilterEngine.processBlock Cases.parameters matrix
               (Scenario.silence 4)
               (FilterEngine.setModulationMatrix attached Cases.filter)).2 in
  20 <= FilterEngine.cutoffFrequency e' <= 20000.
Proof.
  cbn zeta.
  apply (modulated_cutoff_within_half_of_base Cases.parameters 4
           Scenario.matrix (Scenario.silence 4) Cases.filter);
    first [lia | qeval].
Defined.


(** Witness of [unknown_loop_mode_freezes_cursor]: loop mode 3. *)
Lemma unknown_loop_mode_freezes_cursor_witness :
  let v := Scenario.playing 4 2 true in
  Voice.advance Cases.unknown12 12 3 9 2 v = (false, v).
Proof.
  cbn zeta.
  apply (unknown_loop_mode_freezes_cursor Cases.unknown12 2
           (Scenario.playing 4 2 true));
    first [reflexivity | (right; reflexivity) | qeval].
Defined.

(** The loop start is the truncated [float] product as well: with the
    start marker at 10442371 / 2^24 on 882000 frames it is 548969, where
    the exact product truncates to 548968.  A cursor at 548968 is before
    the loop and moves on, also with a loop mode the switch does not
    know. *)
Lemma cursor_before_the_float_loop_start_moves :
  let sample := Cases.long_unknown in
  let len := getNumSamples (audioData sample) in
  let v := Scenario.playing 548968 0.5 true in
  Voice.loopStartSample sample = 548969%Z
  /\ to_int (loopStart sample * of_int len) = 548968%Z
  /\ Voice.currentPosition
       (Voice.advance sample len (Voice.loopStartSample sample)
                      (Voice.loopEndSample sample) 0.5 v).2 == 548968.5.
Proof. cbn zeta. repeat split; vm_compute; reflexivity. Qed.

(** Witness of [render_writes_only_its_window]: two frames rendered at
    offset 1 of a block of four. *)
Lemma render_writes_only_its_window_witness :
  exists tr st,
    Voice.renderNextBlock (Scenario.silence 4) 1 2
      Scenario.struck_high.1 Scenario.struck_high.2 = (tr, Ok st)
    /\ shape st.1.1 = shape (Scenario.silence 4)
    /\ frame st.1.1 0 0 = Some 0
    /\ frame st.1.1 1 3 = Some 0.
Proof.
  destruct (renderNextBlock_returns (Scenario.silence 4) 1 2
              Scenario.struck_high.1 Scenario.struck_high.2 0%nat
              Scenario.pingpong12)
    as (tr & st & Hrun);
    [reflexivity | reflexivity | repeat constructor | discriminate |].
  exists tr, st.
  destruct (render_writes_only_its_window _ _ _ _ _ _ _ Hrun) as [Hshape Hrest].
  split; [exact Hrun|]. split; [exact Hshape|]. split.
  - rewrite (Hrest 0%nat 0%nat) by (right; left; reflexivity). reflexivity.
  - rewrite (Hrest 1%nat 3%nat) by (right; right; vm_compute; discriminate).
    reflexivity.
Defined.

(** Witness of [declined_note_renders_silence]: a note struck with no
    sample loaded. *)
Lemma declined_note_renders_silence_witness :
  exists v' p',
    Voice.startNote 60 1 Scenario.voice0 (Scenario.processor [])
    = ([], Ok (v', p'))
    /\ Voice.isVoiceActive v' = false
    /\ Voice.adsr v'
       = Voice.adsr (Voice.updateADSRParams (Scenario.processor []) Scenario.voice0)
    /\ exists out' v'' p'',
         Voice.renderNextBlock (Scenario.silence 4) 0 4 v' p'
         = ([], Ok (out', v'', p''))
         /\ buffer_equiv out' (Scenario.silence 4).
Proof.
  apply (declined_note_renders_silence 60 1 Scenario.voice0
           (Scenario.processor []) (Scenario.silence 4) 0 4).
  left. reflexivity.
Defined.

(** Witness of [getSampleForNote_after_load]: with the lower half of the
    keyboard loaded, a decoded file takes note 64. *)
Lemma getSampleForNote_after_load_witness :
  let e := SampleEngine.mk [Scenario.low_half] Scenario.one_file_decoder in
  SampleEngine.getSampleForNote 64
    (SampleEngine.loadSample Scenario.good_file 60 e).2 = Some 1%nat.
Proof.
  cbn zeta.
  destruct (getSampleForNote_after_load Scenario.good_file 60 64
              (SampleEngine.mk [Scenario.low_half] Scenario.one_file_decoder)
              (mkReader 48000 1 4 (fun _ _ => 1)) eq_refl)
    as (_ & Hnew & _).
  apply Hnew; [|lia].
  intros (s & Hin & Hr). apply list_elem_of_singleton in Hin. subst s.
  vm_compute in Hr. destruct Hr as [_ Hr]. apply Hr. reflexivity.
Defined.

(** Witness of [exhausted_sample_renders_one_iteration]: the cursor at
    the end of the twelve-frame sample without a loop. *)
Lemma exhausted_sample_renders_one_iteration_witness :
  let v := Scenario.playing 12 1 true in
  let p := Scenario.processor [Cases.oneshot12] in
  exists out' v' p',
    Voice.renderNextBlock (Scenario.silence 4) 0 4 v p = ([], Ok (out', v', p'))
    /\ buffer_equiv out' (Scenario.silence 4)
    /\ Voice.currentlyPlayingNote v' = Voice.currentlyPlayingNote v.
Proof.
  cbn zeta.
  destruct (exhausted_sample_renders_one_iteration (Scenario.silence 4) 0 4
              (Scenario.playing 12 1 true)
              (Scenario.processor [Cases.oneshot12]) 0%nat Cases.oneshot12)
    as (out' & v' & p' & Hrun & Hout & _ & _ & Hnote);
    [reflexivity | reflexivity | reflexivity | reflexivity | qeval | qeval | lia |].
  exists out', v', p'. auto.
Defined.

(** Witness of [mouse_gestures_keep_loop_markers_ordered]: on a display
    400 pixels wide, the start marker pulled past the end marker and back
    to the left edge. *)
Lemma mouse_gestures_keep_loop_markers_ordered_witness :
  exists d' e' s',
    fold_left (WaveformDisplay.deliver 400) Cases.gestures
      (Some (WaveformDisplay.init, Scenario.engine [Scenario.pingpong12]))
    = Some (d', e')
    /\ SampleEngine.samples e' = [s']
    /\ 0 <= loopStart s' /\ loopStart s' < loopEnd s' /\ loopEnd s' <= 1.
Proof.
  destruct (mouse_gestures_keep_loop_markers_ordered 400 Cases.gestures
              WaveformDisplay.init (Scenario.engine [Scenario.pingpong12])
              Scenario.pingpong12 [])
    as (d' & e' & s' & Hrun & Hs & _ & Hord);
    [lia | reflexivity | repeat split; qeval |].
  exists d', e', s'. auto.
Defined.

(** After the first drag of these gestures the two markers are
    0.74000000954 and 0.75, less than 0.01 apart. *)
Lemma dragged_markers_closer_than_a_hundredth :
  match fold_left (WaveformDisplay.deliver 400) (firstn 2 Cases.gestures)
          (Some (WaveformDisplay.init, Scenario.engine [Scenario.pingpong12]))
  with
  | Some (_, e') =>
      match SampleEngine.samples e' with
      | [s'] =>
          loopStart s' == 3103785 # 4194304
          /\ loopEnd s' == 0.75
          /\ loopEnd s' - loopStart s' < 0.01
      | _ => False
      end
  | None => False
  end.
Proof. vm_compute. repeat split; reflexivity. Qed.

(** Witness of [ordered_markers_bound_the_loop]: 1000 frames with the
    markers at 0.2 and 0.8. *)
Lemma ordered_markers_bound_the_loop_witness :
  (0 <= Voice.loopStartSample Scenario.forward1000
   <= Voice.loopEndSample Scenario.forward1000)%Z
  /\ (Voice.loopEndSample Scenario.forward1000 <= 1000)%Z.
Proof.
  destruct (ordered_markers_bound_the_loop Scenario.forward1000)
    as (Hord & Htop & _); [split; qeval | qeval | qeval |].
  split; [exact Hord | exact Htop].
Defined.

(** Beyond [2^24] frames the bound fails: the length [2^24 + 3] becomes
    the [float] [2^24 + 4], and with the end marker at 1 the loop ends one
    frame past the sample. *)
Lemma loop_end_past_a_long_sample :
  getNumSamples (audioData Cases.very_long) = 16777219%Z
  /\ loopEnd Cases.very_long = 1
  /\ Voice.loopEndSample Cases.very_long = 16777220%Z.
Proof. repeat split; vm_compute; reflexivity. Qed.

(** Witness of [saved_samples_restore]: the edited sample saved and
    restored into an engine that held another sample. *)
Lemma saved_samples_restore_witness :
  let e := SampleEngine.mk [Cases.edited] Scenario.one_file_decoder in
  let e0 := SampleEngine.mk [Scenario.low_half] Scenario.one_file_decoder in
  PluginState.samplesState_of
    (PluginState.restoreSamples (PluginState.samplesState_of e) e0)
  = PluginState.samplesState_of e.
Proof.
  cbn zeta. apply saved_samples_restore.
  constructor; [|constructor].
  repeat split; first [discriminate | reflexivity | (eexists; reflexivity)].
Defined.

(** Witness of [undecodable_child_overwrites_previous_sample]: the child
    of [bad.wav] rewrites the range of the upper half. *)
Lemma undecodable_child_overwrites_previous_sample_witness :
  let e := SampleEngine.mk [Scenario.low_half; Scenario.high_half]
                           Scenario.one_file_decoder in
  SampleEngine.samples (PluginState.restoreSample Cases.bad_child e)
  = [Scenario.low_half;
     PluginState.restore_settings Cases.bad_child Scenario.high_half]
  /\ lowestNote (PluginState.restore_settings Cases.bad_child Scenario.high_half)
     = 30%Z.
Proof.
  cbn zeta. split; [|reflexivity].
  apply (undecodable_child_overwrites_previous_sample Cases.bad_child
           (SampleEngine.mk [Scenario.low_half; Scenario.high_half]
                            Scenario.one_file_decoder)
           [Scenario.low_half] Scenario.high_half);
    first [discriminate | reflexivity].
Defined.

(** Witness of [controllers_store_normalised_values]: the wheel at its
    centre and at its lowest value, controller 1 at 64, controller 7. *)
Lemma controllers_store_normalised_values_witness :
  (exists x,
     ModulationMatrix.sourceValues
       (Processor.modMatrix (Voice.pitchWheelMoved 8192 (Scenario.processor [])))
       !! PitchBend = Some x
     /\ x == 0)
  /\ (exists x,
        ModulationMatrix.sourceValues
          (Processor.modMatrix (Voice.pitchWheelMoved 0 (Scenario.processor [])))
          !! PitchBend = Some x
        /\ - fl32 (1 # 6) <= x <= fl32 (1 # 6))
  /\ (exists x,
        ModulationMatrix.sourceValues
          (Processor.modMatrix (Voice.controllerMoved 1 64 (Scenario.processor [])))
          !! ModWheel = Some x
        /\ 0 <= x <= 1)
  /\ Voice.controllerMoved 7 64 (Scenario.processor []) = Scenario.processor [].
Proof.
  split; [|split; [|split]].
  - destruct (proj1 (controllers_store_normalised_values 1 8192
                       (Scenario.processor [])) ltac:(lia))
      as (x & Hx & _ & Hzero).
    exists x. split; [exact Hx|]. apply Hzero. reflexivity.
  - destruct (proj1 (controllers_store_normalised_values 1 0
                       (Scenario.processor [])) ltac:(lia))
      as (x & Hx & Hb & _).
    exists x. split; [exact Hx | exact Hb].
  - apply (proj1 (proj2 (controllers_store_normalised_values 1 64
                           (Scenario.processor [])))). lia.
  - apply (proj2 (proj2 (controllers_store_normalised_values 7 64
                           (Scenario.processor [])))). lia.
Defined.

(** At its lowest value the wheel stores the [float] nearest to -1/6,
    which is below -1/6. *)
Lemma lowest_bend_is_below_a_sixth :
  ModulationMatrix.sourceValues
    (Processor.modMatrix (Voice.pitchWheelMoved 0 (Scenario.processor [])))
    !! PitchBend = Some (fl32 (of_int (0 - 8192) / 8192 * 2 / 12))
  /\ fl32 (of_int (0 - 8192) / 8192 * 2 / 12) == - (11184811 # 67108864)
  /\ fl32 (of_int (0 - 8192) / 8192 * 2 / 12) < - (1 # 6).
Proof.
  split; [|split; vm_compute; reflexivity].
  unfold Voice.pitchWheelMoved, Processor.setSourceValue,
    ModulationMatrix.setSourceValue.
  cbn [Processor.modMatrix ModulationMatrix.sourceValues].
  apply lookup_insert_eq.
Qed.

End Concrete_runs.
